(** * Zeur yield optimizer: shallow embedding and verification

    The development embeds the optimisation, decision, planning and
    execution pipeline of [src/services/yield-optimizer.ts] together with
    the concentration measure of the risk analyzer.

    Conventions of the embedding.
    - A JavaScript [number] is read as a real number ([R]): rounding, NaN
      and the infinities of IEEE-754 are outside the model.  [Math.tanh],
      [Math.min], [Math.max], [Math.abs] are their real counterparts.
    - A [bigint] is an integer ([Z]); [/] on bigints truncates toward zero
      ([Z.quot]).
    - A [Map<string, V>] is an association list in insertion order whose
      keys are kept distinct by [set].
    - Logging has no effect on the state and is left out. *)

From Stdlib Require Import Reals Lra ZArith Lia List String Bool Permutation.
From Stdlib Require Import Sorted.
Import ListNotations.

Local Open Scope string_scope.
Local Open Scope list_scope.
Local Open Scope R_scope.

(* ================================================================= *)
(** ** JavaScript values used by the code *)

Module JS.

(** [Map<string, V>]: entries in insertion order. *)
Definition Map (V : Type) : Type := list (string * V).

Definition keys {V} (m : Map V) : list string := map fst m.
Definition values {V} (m : Map V) : list V := map snd m.
Definition size {V} (m : Map V) : nat := List.length m.

Fixpoint get {V} (k : string) (m : Map V) : option V :=
  match m with
  | [] => None
  | (k', v) :: m' => if String.eqb k k' then Some v else get k m'
  end.

(** [m.set(k, v)]: an existing key keeps its place, a new key goes last. *)
Fixpoint set {V} (k : string) (v : V) (m : Map V) : Map V :=
  match m with
  | [] => [(k, v)]
  | (k', v') :: m' =>
      if String.eqb k k' then (k', v) :: m' else (k', v') :: set k v m'
  end.

Fixpoint delete {V} (k : string) (m : Map V) : Map V :=
  match m with
  | [] => []
  | (k', v') :: m' =>
      if String.eqb k k' then m' else (k', v') :: delete k m'
  end.

(** [new Map(entries)]. *)
Definition fromEntries {V} (es : list (string * V)) : Map V :=
  fold_left (fun m e => set (fst e) (snd e) m) es [].

(** [x || d] for a lookup result [x] that is a number or [undefined].
    The source writes it with [d = 0] only, where [0 || 0] is 0 again, so
    the operator acts as the default for a missing entry. *)
Definition or_else {V} (x : option V) (d : V) : V :=
  match x with Some v => v | None => d end.

(** Comparisons of numbers as booleans. *)
Definition gtb (x y : R) : bool := if Rgt_dec x y then true else false.
Definition leb (x y : R) : bool := if Rle_dec x y then true else false.
Definition ltb (x y : R) : bool := if Rlt_dec x y then true else false.

(** [Math.round(x)] followed by [BigInt(...)]: the integer
    [floor (x + 1/2)]. *)
Definition Math_round (x : R) : Z := Int_part (x + / 2).

(** [Number(b)] of a bigint. *)
Definition Number (b : Z) : R := IZR b.

End JS.

Import JS.

Definition sumR (l : list R) : R := fold_right Rplus 0 l.
Definition sumZ (l : list Z) : Z := fold_right Z.add 0%Z l.

(* ================================================================= *)
(** ** Types ([src/types/index.ts]) *)

Inductive RiskTolerance := conservative | moderate | aggressive.

Inductive ProtocolType := lido | etherfi | rocketpool | morpho.

Record StakingProtocol := {
  name : string;
  address : string;
  type : ProtocolType;
  currentAPR : R;
  exchangeRate : R;
  totalStaked : Z;
  riskScore : R;
  gasEfficiency : R;
  withdrawalDelay : R;
  maxAllocation : R
}.

Record PortfolioPosition := {
  protocol : StakingProtocol;
  currentAmount : Z;
  targetAmount : Z;
  currentPercentage : R;
  targetPercentage : R;
  lstTokenBalance : Z;
  pendingWithdrawals : Z
}.

Record OptimizationStrategy := {
  targetAllocations : Map R;
  expectedAPR : R;
  strategyRiskScore : R;
  rebalanceThreshold : R;
  maxGasPrice : R;
  riskTolerance : RiskTolerance
}.

Record MarketData := {
  gasPrice : R;
  ethPrice : R;
  protocolAPRs : Map R;
  protocolRisks : Map R
}.

Inductive Status := pending | executing | completed | failed.

Record RebalanceTransaction := {
  id : string;
  fromProtocol : string;
  toProtocol : string;
  txAmount : Z;
  txGasPrice : R;
  estimatedGas : Z;
  status : Status;
  txHash : option string
}.

Record Movement := {
  from : string;
  to : string;
  amount : Z
}.

(* ================================================================= *)
(** ** Allocation optimizer ([optimizeAllocation] and its helpers) *)

Module Optimizer.

(** [Number(process.env.MAX_GAS_PRICE_GWEI) || 50]; the variable is the
    parsed environment entry, [None] when unset or not a number. *)
Definition baseThreshold (MAX_GAS_PRICE_GWEI : option R) : R :=
  match MAX_GAS_PRICE_GWEI with
  | Some v => if Req_dec_T v 0 then 50 else v
  | None => 50
  end.

Definition getBaseAllocation (protocolName : string) : R :=
  if String.eqb protocolName "lido" then 30
  else if String.eqb protocolName "rocketpool" then 25
  else if String.eqb protocolName "etherfi" then 25
  else if String.eqb protocolName "morpho" then 20
  else 15.

Definition getRiskMultiplier (tolerance : RiskTolerance) (risk : R) : R :=
  match tolerance with
  | conservative => Rmax 0.5 (1 - risk / 50)
  | aggressive => Rmin 1.5 (1 + risk / 100)
  | moderate => Rmax 0.7 (1 - risk / 100)
  end.

Definition getPerformanceMultiplier (return_ : R) : R :=
  let baseline := 7 in
  let excess := return_ - baseline in
  1 + tanh (excess / 5) * 0.3.

(** First loop of [optimizeAllocation]. *)
Definition riskAdjustedReturns (marketData : MarketData) : Map R :=
  fold_left
    (fun acc entry =>
       let '(protocolName, apr) := entry in
       let risk := or_else (get protocolName (protocolRisks marketData)) 0 in
       let riskAdjustedReturn := apr * (1 - risk / 100) in
       set protocolName riskAdjustedReturn acc)
    (protocolAPRs marketData) [].

(** [entries.sort(([,a], [,b]) => b - a)]: stable, descending. *)
Fixpoint insertDesc (x : string * R) (l : list (string * R))
  : list (string * R) :=
  match l with
  | [] => [x]
  | y :: l' =>
      if Rgt_dec (snd y) (snd x) then y :: insertDesc x l' else x :: y :: l'
  end.

Definition sortDesc (l : list (string * R)) : list (string * R) :=
  fold_right insertDesc [] l.

(** Product computed at the head of the loop body, before clamping. *)
Definition rawAllocation (tolerance : RiskTolerance) (marketData : MarketData)
           (protocolName : string) (return_ : R) : R :=
  let baseAllocation := getBaseAllocation protocolName in
  let riskMultiplier :=
    getRiskMultiplier tolerance
      (or_else (get protocolName (protocolRisks marketData)) 0) in
  let performanceMultiplier := getPerformanceMultiplier return_ in
  baseAllocation * riskMultiplier * performanceMultiplier.

(** Loop of [calculateOptimalAllocations] over the sorted protocols. *)
Fixpoint allocationLoop (tolerance : RiskTolerance) (marketData : MarketData)
         (sortedProtocols : list (string * R))
         (remainingAllocation : R) (allocations : Map R) : Map R :=
  match sortedProtocols with
  | [] => allocations
  | (protocolName, return_) :: rest =>
      let allocation :=
        rawAllocation tolerance marketData protocolName return_ in
      let allocation := Rmin allocation remainingAllocation in
      allocationLoop tolerance marketData rest
        (remainingAllocation - allocation)
        (set protocolName allocation allocations)
  end.

(** The entries appended by [allocationLoop], as a plain list.  A proof
    device: [allocationLoop_appends] shows the loop adds exactly these
    entries when the protocol names are distinct. *)
Fixpoint appended (tolerance : RiskTolerance) (marketData : MarketData)
         (sortedProtocols : list (string * R)) (remainingAllocation : R)
  : list (string * R) :=
  match sortedProtocols with
  | [] => []
  | (protocolName, return_) :: rest =>
      let allocation :=
        Rmin (rawAllocation tolerance marketData protocolName return_)
             remainingAllocation in
      (protocolName, allocation)
        :: appended tolerance marketData rest
             (remainingAllocation - allocation)
  end.

Definition calculateOptimalAllocations (tolerance : RiskTolerance)
           (returns : Map R) (marketData : MarketData) : Map R :=
  allocationLoop tolerance marketData (sortDesc returns) 100 [].

Definition calculateExpectedAPR (allocations aprs : Map R) : R :=
  fold_left
    (fun weightedAPR entry =>
       let '(protocol, allocation) := entry in
       let apr := or_else (get protocol aprs) 0 in
       weightedAPR + (allocation / 100) * apr)
    allocations 0.

(** Mean of the risk map; on an empty map the source divides 0 by 0. *)
Definition calculateOverallRisk (risks : Map R) : R :=
  fold_left Rplus (values risks) 0 / INR (size risks).

Definition adjustGasThreshold (env : option R) (currentGasPrice : R) : R :=
  let base := baseThreshold env in
  if ltb currentGasPrice (base * 0.5) then base * 1.2
  else if gtb currentGasPrice (base * 1.5) then base * 0.8
  else base.

Definition optimizeAllocation (env : option R)
           (currentStrategy : OptimizationStrategy)
           (marketData : MarketData) : OptimizationStrategy :=
  let returns := riskAdjustedReturns marketData in
  let newAllocations :=
    calculateOptimalAllocations (riskTolerance currentStrategy)
      returns marketData in
  {| targetAllocations := newAllocations;
     expectedAPR :=
       calculateExpectedAPR newAllocations (protocolAPRs marketData);
     strategyRiskScore := calculateOverallRisk (protocolRisks marketData);
     rebalanceThreshold := rebalanceThreshold currentStrategy;
     maxGasPrice := adjustGasThreshold env (gasPrice marketData);
     riskTolerance := riskTolerance currentStrategy |}.

(** Strategy installed by the constructor. *)
Definition defaultStrategy (env : option R) (tolerance : RiskTolerance)
  : OptimizationStrategy :=
  {| targetAllocations :=
       fromEntries [("lido", 35); ("rocketpool", 25);
                    ("etherfi", 25); ("morpho", 15)];
     expectedAPR := 8;
     strategyRiskScore := 3;
     rebalanceThreshold := 0.05;
     maxGasPrice := baseThreshold env;
     riskTolerance := tolerance |}.

End Optimizer.

(* ================================================================= *)
(** ** The optimizer object: decision gate, planner, position store *)

(** Fields of a [YieldOptimizer] instance.  Transaction objects are shared
    between the array returned by [executeRebalance] and the
    [pendingTransactions] map, so they live in [txObjects] and both hold
    references (indices) into it. *)
Record YieldOptimizer := {
  currentStrategy : OptimizationStrategy;
  positions : Map PortfolioPosition;
  pendingTransactions : Map nat;
  txObjects : list RebalanceTransaction
}.

(** What the object obtains from outside: the blockchain service (whose
    methods catch every error and answer [null], [false] or a fallback) and
    the clock and random source behind a transaction id.  [W] is the state
    of the outside world. *)
Record Services (W : Type) := {
  getGasPrice : W -> R * W;
  executeUnstake : string -> Z -> W -> option string * W;
  executeStake : string -> Z -> W -> option string * W;
  waitForTransaction : string -> W -> bool * W;
  newTxId : W -> string * W
}.

Arguments getGasPrice {W}.
Arguments executeUnstake {W}.
Arguments executeStake {W}.
Arguments waitForTransaction {W}.
Arguments newTxId {W}.

Module Gate.

Definition calculateRebalanceNeed (this : YieldOptimizer)
           (newStrategy : OptimizationStrategy) : R :=
  let totalDifference :=
    fold_left
      (fun totalDifference entry =>
         let '(protocol, targetPercentage) := entry in
         let currentPercentage :=
           or_else (option_map currentPercentage
                      (get protocol (positions this))) 0 in
         totalDifference + Rabs (targetPercentage - currentPercentage))
      (targetAllocations newStrategy) 0 in
  totalDifference / 100.

Definition checkGasConditions {W} (svc : Services W) (this : YieldOptimizer)
           (w : W) : bool * W :=
  let '(gasPrice, w) := getGasPrice svc w in
  (leb gasPrice (maxGasPrice (currentStrategy this)), w).

Definition checkRiskThresholds (this : YieldOptimizer)
           (newStrategy : OptimizationStrategy) : bool :=
  let maxRiskScore :=
    match riskTolerance (currentStrategy this) with
    | conservative => 4
    | aggressive => 8
    | moderate => 6
    end in
  leb (strategyRiskScore newStrategy) maxRiskScore.

Definition shouldRebalance {W} (svc : Services W) (this : YieldOptimizer)
           (newStrategy : OptimizationStrategy) (w : W) : bool * W :=
  let rebalanceNeeded := calculateRebalanceNeed this newStrategy in
  let '(gasConditionsMet, w) := checkGasConditions svc this w in
  let riskAcceptable := checkRiskThresholds this newStrategy in
  (gtb rebalanceNeeded (rebalanceThreshold (currentStrategy this))
   && gasConditionsMet && riskAcceptable, w).

End Gate.

Module Planner.

Definition getTotalPortfolioValue (positions : Map PortfolioPosition) : Z :=
  fold_left (fun total position => (total + currentAmount position)%Z)
            (values positions) 0%Z.

(** First loop of [calculateRequiredMovements]: the pair
    (surpluses, deficits). *)
Definition classify (positions : Map PortfolioPosition)
           (targets : Map R) (totalValue : Z) : Map Z * Map Z :=
  fold_left
    (fun acc entry =>
       let '(surpluses, deficits) := acc in
       let '(protocol, targetPercentage) := entry in
       match get protocol positions with
       | None => (surpluses, deficits)
       | Some position =>
           let targetAmount :=
             Z.quot (totalValue * Math_round (targetPercentage * 100)) 10000 in
           let difference := (targetAmount - currentAmount position)%Z in
           if (0 <? difference)%Z then
             (surpluses, set protocol difference deficits)
           else if (difference <? 0)%Z then
             (set protocol (- difference)%Z surpluses, deficits)
           else (surpluses, deficits)
       end)
    targets ([], []).

(** Inner loop.  The source iterates over the live [deficits] map while it
    updates and deletes the entry under the cursor; entries ahead of the
    cursor are never touched, so the iteration sees the entries the map had
    when the loop started ([entries]). *)
Fixpoint matchDeficits (fromProtocol : string) (entries : list (string * Z))
         (remainingSurplus : Z) (deficits : Map Z) (movements : list Movement)
  : Map Z * list Movement :=
  match entries with
  | [] => (deficits, movements)
  | (toProtocol, deficitAmount) :: rest =>
      if (remainingSurplus =? 0)%Z then (deficits, movements)
      else
        let moveAmount :=
          if (remainingSurplus <? deficitAmount)%Z then remainingSurplus
          else deficitAmount in
        let movements :=
          movements ++ [{| from := fromProtocol; to := toProtocol;
                           amount := moveAmount |}] in
        let remainingSurplus := (remainingSurplus - moveAmount)%Z in
        let deficits :=
          set toProtocol (deficitAmount - moveAmount)%Z deficits in
        let deficits :=
          match get toProtocol deficits with
          | Some 0%Z => delete toProtocol deficits
          | _ => deficits
          end in
        matchDeficits fromProtocol rest remainingSurplus deficits movements
  end.

Definition matchSurpluses (surpluses deficits : Map Z)
  : Map Z * list Movement :=
  fold_left
    (fun acc entry =>
       let '(deficits, movements) := acc in
       let '(fromProtocol, surplusAmount) := entry in
       matchDeficits fromProtocol deficits surplusAmount deficits movements)
    surpluses (deficits, []).

Definition calculateRequiredMovements (positions : Map PortfolioPosition)
           (newStrategy : OptimizationStrategy) (totalValue : Z)
  : list Movement :=
  let '(surpluses, deficits) :=
    classify positions (targetAllocations newStrategy) totalValue in
  snd (matchSurpluses surpluses deficits).

End Planner.

Module Store.

Definition withCurrentAmount (p : PortfolioPosition) (a : Z)
  : PortfolioPosition :=
  {| protocol := protocol p; currentAmount := a;
     targetAmount := targetAmount p;
     currentPercentage := currentPercentage p;
     targetPercentage := targetPercentage p;
     lstTokenBalance := lstTokenBalance p;
     pendingWithdrawals := pendingWithdrawals p |}.

Definition withCurrentPercentage (p : PortfolioPosition) (c : R)
  : PortfolioPosition :=
  {| protocol := protocol p; currentAmount := currentAmount p;
     targetAmount := targetAmount p;
     currentPercentage := c;
     targetPercentage := targetPercentage p;
     lstTokenBalance := lstTokenBalance p;
     pendingWithdrawals := pendingWithdrawals p |}.

Definition updatePositionPercentages (positions : Map PortfolioPosition)
  : Map PortfolioPosition :=
  let totalValue := Planner.getTotalPortfolioValue positions in
  if (totalValue =? 0)%Z then positions
  else
    map (fun entry =>
           let '(k, position) := entry in
           (k, withCurrentPercentage position
                 (Number (Z.quot (currentAmount position * 10000) totalValue)
                  / 100)))
        positions.

(** [fromPosition] and [toPosition] are references to the objects held by
    the map: the second update acts on the object as the first left it,
    which matters when both names are the same. *)
Definition updatePositionAmounts (fromProtocol toProtocol : string)
           (amount : Z) (positions : Map PortfolioPosition)
  : Map PortfolioPosition :=
  let positions :=
    match get fromProtocol positions with
    | Some fromPosition =>
        set fromProtocol
            (withCurrentAmount fromPosition
               (currentAmount fromPosition - amount)%Z) positions
    | None => positions
    end in
  let positions :=
    match get toProtocol positions with
    | Some toPosition =>
        set toProtocol
            (withCurrentAmount toPosition
               (currentAmount toPosition + amount)%Z) positions
    | None => positions
    end in
  updatePositionPercentages positions.

End Store.

(* ================================================================= *)
(** ** Rebalance executor *)

Module Executor.

(** Observable effects performed on behalf of a transaction (named by its
    reference): writes of its [status] field and calls to the blockchain
    service, with the answer received. *)
Inductive Event :=
| StatusSet (tx : nat) (s : Status)
| Unstaked (tx : nat) (protocolName : string) (amount : Z)
           (answer : option string)
| Staked (tx : nat) (protocolName : string) (amount : Z)
         (answer : option string)
| Waited (tx : nat) (hash : string) (answer : bool).

Definition eventTx (e : Event) : nat :=
  match e with
  | StatusSet tx _ | Unstaked tx _ _ _ | Staked tx _ _ _ | Waited tx _ _ => tx
  end.

Definition eventsOf (tx : nat) (events : list Event) : list Event :=
  filter (fun e => Nat.eqb (eventTx e) tx) events.

(** The statuses written to a transaction, in order. *)
Definition statusHistory (tx : nat) (events : list Event) : list Status :=
  flat_map (fun e => match e with
                     | StatusSet tx' s => if Nat.eqb tx' tx then [s] else []
                     | _ => []
                     end) events.

(** [!hash] for a [string | null]: [null] and the empty string. *)
Definition isFalsy (hash : option string) : bool :=
  match hash with
  | None => true
  | Some h => String.eqb h ""
  end.

Fixpoint modifyNth {A} (n : nat) (f : A -> A) (l : list A) : list A :=
  match l, n with
  | [], _ => []
  | x :: l', O => f x :: l'
  | x :: l', S n' => x :: modifyNth n' f l'
  end.

Definition withStatus (s : Status) (t : RebalanceTransaction)
  : RebalanceTransaction :=
  {| id := id t; fromProtocol := fromProtocol t; toProtocol := toProtocol t;
     txAmount := txAmount t; txGasPrice := txGasPrice t;
     estimatedGas := estimatedGas t; status := s; txHash := txHash t |}.

Definition withTxHash (h : string) (t : RebalanceTransaction)
  : RebalanceTransaction :=
  {| id := id t; fromProtocol := fromProtocol t; toProtocol := toProtocol t;
     txAmount := txAmount t; txGasPrice := txGasPrice t;
     estimatedGas := estimatedGas t; status := status t; txHash := Some h |}.

Definition withTxObjects (l : list RebalanceTransaction)
           (this : YieldOptimizer) : YieldOptimizer :=
  {| currentStrategy := currentStrategy this; positions := positions this;
     pendingTransactions := pendingTransactions this; txObjects := l |}.

Definition withPositions (ps : Map PortfolioPosition)
           (this : YieldOptimizer) : YieldOptimizer :=
  {| currentStrategy := currentStrategy this; positions := ps;
     pendingTransactions := pendingTransactions this;
     txObjects := txObjects this |}.

Definition withPending (m : Map nat) (this : YieldOptimizer)
  : YieldOptimizer :=
  {| currentStrategy := currentStrategy this; positions := positions this;
     pendingTransactions := m; txObjects := txObjects this |}.

Definition withCurrentStrategy (st : OptimizationStrategy)
           (this : YieldOptimizer) : YieldOptimizer :=
  {| currentStrategy := st; positions := positions this;
     pendingTransactions := pendingTransactions this;
     txObjects := txObjects this |}.

(** The transactions behind a list of references. *)
Definition deref (objects : list RebalanceTransaction) (refs : list nat)
  : list RebalanceTransaction :=
  flat_map (fun r => match nth_error objects r with
                     | Some t => [t]
                     | None => []
                     end) refs.

Section WithServices.

Context {W : Type} (svc : Services W).

(** Computations of the executor: they read and write the object and the
    outside world, may throw, and emit events. *)
Definition M (A : Type) : Type :=
  YieldOptimizer -> W -> (A + string) * YieldOptimizer * W * list Event.

Definition ret {A} (a : A) : M A := fun this w => (inl a, this, w, []).

Definition bind {A B} (m : M A) (k : A -> M B) : M B :=
  fun this w =>
    match m this w with
    | (inl a, this1, w1, ev1) =>
        let '(r, this2, w2, ev2) := k a this1 w1 in (r, this2, w2, ev1 ++ ev2)
    | (inr err, this1, w1, ev1) => (inr err, this1, w1, ev1)
    end.

Definition throw {A} (message : string) : M A :=
  fun this w => (inr message, this, w, []).

Definition tryCatch {A} (body : M A) (handler : string -> M A) : M A :=
  fun this w =>
    match body this w with
    | (inl a, this1, w1, ev1) => (inl a, this1, w1, ev1)
    | (inr err, this1, w1, ev1) =>
        let '(r, this2, w2, ev2) := handler err this1 w1 in
        (r, this2, w2, ev1 ++ ev2)
    end.

Notation "x <- m ;; k" := (bind m (fun x => k))
  (at level 61, m at next level, right associativity).
Notation "m ;;; k" := (bind m (fun _ => k))
  (at level 61, right associativity).

Definition setStatus (transaction : nat) (s : Status) : M unit :=
  fun this w =>
    (inl tt,
     withTxObjects (modifyNth transaction (withStatus s) (txObjects this)) this,
     w, [StatusSet transaction s]).

Definition setTxHash (transaction : nat) (h : string) : M unit :=
  fun this w =>
    (inl tt,
     withTxObjects (modifyNth transaction (withTxHash h) (txObjects this)) this,
     w, []).

Definition unstake (transaction : nat) (protocolName : string) (amount : Z)
  : M (option string) :=
  fun this w =>
    let '(answer, w) := executeUnstake svc protocolName amount w in
    (inl answer, this, w, [Unstaked transaction protocolName amount answer]).

Definition stake (transaction : nat) (protocolName : string) (amount : Z)
  : M (option string) :=
  fun this w =>
    let '(answer, w) := executeStake svc protocolName amount w in
    (inl answer, this, w, [Staked transaction protocolName amount answer]).

Definition wait (transaction : nat) (hash : string) : M bool :=
  fun this w =>
    let '(answer, w) := waitForTransaction svc hash w in
    (inl answer, this, w, [Waited transaction hash answer]).

Definition modifyPositions
           (f : Map PortfolioPosition -> Map PortfolioPosition) : M unit :=
  fun this w => (inl tt, withPositions (f (positions this)) this, w, []).

(** [executeMovement].  The blockchain service never throws, and neither
    does [updatePositionAmounts] (bigint arithmetic, with the division
    guarded by the test for a zero total), so the only exceptions reaching
    the [catch] clause are the three thrown in the body. *)
Definition executeMovement (movement : Movement) (transaction : nat)
  : M unit :=
  tryCatch
    (setStatus transaction executing ;;;
     unstakeTxHash <- unstake transaction (from movement) (amount movement) ;;
     match unstakeTxHash with
     | Some unstakeHash =>
         if isFalsy unstakeTxHash then
           throw ("Failed to unstake from " ++ from movement)
         else
           unstakeSuccess <- wait transaction unstakeHash ;;
           if negb unstakeSuccess then
             throw ("Unstake transaction failed: " ++ unstakeHash)
           else
             stakeTxHash <- stake transaction (to movement)
                                  (amount movement) ;;
             match stakeTxHash with
             | Some stakeHash =>
                 if isFalsy stakeTxHash then
                   throw ("Failed to stake to " ++ to movement)
                 else
                   setTxHash transaction stakeHash ;;;
                   stakeSuccess <- wait transaction stakeHash ;;
                   if stakeSuccess then
                     setStatus transaction completed ;;;
                     modifyPositions
                       (Store.updatePositionAmounts (from movement) (to movement)
                                              (amount movement))
                   else setStatus transaction failed
             | None => throw ("Failed to stake to " ++ to movement)
             end
     | None => throw ("Failed to unstake from " ++ from movement)
     end)
    (fun _ => setStatus transaction failed).

(** Creation of the transaction object, with status [pending]; the result
    is the reference to it. *)
Definition newTransaction (movement : Movement) : M nat :=
  fun this w =>
    let '(txId, w) := newTxId svc w in
    let '(gas, w) := getGasPrice svc w in
    let transaction :=
      {| id := txId; fromProtocol := from movement;
         toProtocol := to movement; txAmount := amount movement;
         txGasPrice := gas; estimatedGas := 0%Z; status := pending;
         txHash := None |} in
    let ref := List.length (txObjects this) in
    (inl ref,
     withPending (set txId ref (pendingTransactions this))
       (withTxObjects (txObjects this ++ [transaction]) this),
     w, [StatusSet ref pending]).

(** The loop of [executeRebalance]; [transactions] is the array built so
    far. *)
Fixpoint executeMovements (movements : list Movement)
         (transactions : list nat) : M (list nat) :=
  match movements with
  | [] => ret transactions
  | movement :: rest =>
      transaction <- newTransaction movement ;;
      executeMovement movement transaction ;;;
      executeMovements rest (transactions ++ [transaction])
  end.

Definition executeRebalance (newStrategy : OptimizationStrategy)
  : M (list RebalanceTransaction) :=
  fun this w =>
    let totalValue := Planner.getTotalPortfolioValue (positions this) in
    let movements :=
      Planner.calculateRequiredMovements (positions this) newStrategy totalValue in
    (transactions <- executeMovements movements [] ;;
     fun this w =>
       (inl (deref (txObjects this) transactions),
        withCurrentStrategy newStrategy this, w, []))
      this w.

End WithServices.

(** The five courses a movement can take, as the events emitted for its
    transaction and the status it ends with. *)
Inductive MovementTrace (mv : Movement) (tx : nat)
  : list Event -> Status -> Prop :=
| UnstakeRefused answer :
    isFalsy answer = true ->
    MovementTrace mv tx
      [StatusSet tx executing;
       Unstaked tx (from mv) (amount mv) answer;
       StatusSet tx failed] failed
| UnstakeUnconfirmed h :
    isFalsy (Some h) = false ->
    MovementTrace mv tx
      [StatusSet tx executing;
       Unstaked tx (from mv) (amount mv) (Some h);
       Waited tx h false;
       StatusSet tx failed] failed
| StakeRefused h answer :
    isFalsy (Some h) = false -> isFalsy answer = true ->
    MovementTrace mv tx
      [StatusSet tx executing;
       Unstaked tx (from mv) (amount mv) (Some h);
       Waited tx h true;
       Staked tx (to mv) (amount mv) answer;
       StatusSet tx failed] failed
| StakeUnconfirmed h h' :
    isFalsy (Some h) = false -> isFalsy (Some h') = false ->
    MovementTrace mv tx
      [StatusSet tx executing;
       Unstaked tx (from mv) (amount mv) (Some h);
       Waited tx h true;
       Staked tx (to mv) (amount mv) (Some h');
       Waited tx h' false;
       StatusSet tx failed] failed
| MovementCompleted h h' :
    isFalsy (Some h) = false -> isFalsy (Some h') = false ->
    MovementTrace mv tx
      [StatusSet tx executing;
       Unstaked tx (from mv) (amount mv) (Some h);
       Waited tx h true;
       Staked tx (to mv) (amount mv) (Some h');
       Waited tx h' true;
       StatusSet tx completed] completed.

(** The transaction still describes the same movement. *)
Definition sameMovement (t t' : RebalanceTransaction) : Prop :=
  id t' = id t /\ fromProtocol t' = fromProtocol t /\
  toProtocol t' = toProtocol t /\ txAmount t' = txAmount t.

End Executor.

(* ================================================================= *)
(** ** Data service: the configured protocols *)

Module DataService.

(** [getAvailableProtocols]; the addresses come from the environment and
    fall back to the empty string. *)
Definition getAvailableProtocols : list StakingProtocol :=
  [ {| name := "lido"; address := ""; type := lido;
       currentAPR := 8.1; exchangeRate := 1.0; totalStaked := 0%Z;
       riskScore := 1.0; gasEfficiency := 85; withdrawalDelay := 1;
       maxAllocation := 40 |};
    {| name := "etherfi"; address := ""; type := etherfi;
       currentAPR := 8.4; exchangeRate := 1.0; totalStaked := 0%Z;
       riskScore := 2.0; gasEfficiency := 80; withdrawalDelay := 7;
       maxAllocation := 30 |};
    {| name := "rocketpool"; address := ""; type := rocketpool;
       currentAPR := 7.9; exchangeRate := 1.1; totalStaked := 0%Z;
       riskScore := 1.5; gasEfficiency := 75; withdrawalDelay := 1;
       maxAllocation := 35 |};
    {| name := "morpho"; address := ""; type := morpho;
       currentAPR := 9.2; exchangeRate := 1.05; totalStaked := 0%Z;
       riskScore := 3.0; gasEfficiency := 70; withdrawalDelay := 0;
       maxAllocation := 25 |} ].

End DataService.

(* ================================================================= *)
(** ** Risk analyzer: concentration risk *)

Module RiskAnalyzer.

Definition totalTVL (protocols : list StakingProtocol) : R :=
  fold_left (fun sum p => sum + Number (totalStaked p)) protocols 0.

Definition calculateConcentrationRisk (protocols : list StakingProtocol) : R :=
  if Req_dec_T (totalTVL protocols) 0 then 0
  else
    let hhi :=
      fold_left
        (fun hhi protocol =>
           let share := Number (totalStaked protocol) / totalTVL protocols in
           hhi + share * share)
        protocols 0 in
    hhi * 10.

End RiskAnalyzer.

(* ================================================================= *)
(** ** Properties stated by the specification, and invariants *)

Module Spec.

(** No protocol's target allocation exceeds its configured cap. *)
Definition within_caps (protocols : list StakingProtocol)
           (allocations : Map R) : Prop :=
  forall p a,
    In p protocols -> get (name p) allocations = Some a ->
    a <= maxAllocation p.

(** A protocol with a yield entry and no risk entry gets its
    risk-adjusted return computed at the default risk [d]. *)
Definition missing_risk_defaults_to (d : R) (md : MarketData) : Prop :=
  forall n apr,
    get n (protocolAPRs md) = Some apr ->
    get n (protocolRisks md) = None ->
    get n (Optimizer.riskAdjustedReturns md) = Some (apr * (1 - d / 100)).

(** The strategy is invalid in the sense of the specification: targets
    sum to more than 100, or some target names a protocol without a
    position. *)
Definition invalid_strategy (positions : Map PortfolioPosition)
           (strategy : OptimizationStrategy) : Prop :=
  100 < sumR (values (targetAllocations strategy)) \/
  exists p, In p (keys (targetAllocations strategy)) /\
            get p positions = None.

(** The strategy with the targets of unknown protocols removed. *)
Definition restrictToPositions (positions : Map PortfolioPosition)
           (strategy : OptimizationStrategy) : OptimizationStrategy :=
  {| targetAllocations :=
       filter (fun entry =>
                 match get (fst entry) positions with
                 | Some _ => true
                 | None => false
                 end)
              (targetAllocations strategy);
     expectedAPR := expectedAPR strategy;
     strategyRiskScore := strategyRiskScore strategy;
     rebalanceThreshold := rebalanceThreshold strategy;
     maxGasPrice := maxGasPrice strategy;
     riskTolerance := riskTolerance strategy |}.

(** Herfindahl-Hirschman index of the staked-value shares: the sum of the
    squared fractions of the total staked value. *)
Definition shares (protocols : list StakingProtocol) : list R :=
  map (fun p => IZR (totalStaked p)
                / sumR (map (fun q => IZR (totalStaked q)) protocols))
      protocols.

Definition HHI (protocols : list StakingProtocol) : R :=
  sumR (map (fun share => share * share) (shares protocols)).

(** The transaction state machine of the specification:
    pending -> executing -> completed | failed. *)
Inductive transition : Status -> Status -> Prop :=
| start_executing : transition pending executing
| complete : transition executing completed
| fail : transition executing failed.

Definition terminal (s : Status) : Prop := s = completed \/ s = failed.

(** A history of statuses in which each status follows from the one
    before by a transition. *)
Fixpoint chained (history : list Status) : Prop :=
  match history with
  | s :: ((s' :: _) as rest) => transition s s' /\ chained rest
  | _ => True
  end.

Definition positive (z : Z) : Prop := (0 < z)%Z.

(** What the classification loop guarantees about its two maps. *)
Definition classified (positions : Map PortfolioPosition)
           (sd : Map Z * Map Z) : Prop :=
  NoDup (keys (fst sd)) /\ NoDup (keys (snd sd)) /\
  Forall positive (values (fst sd)) /\ Forall positive (values (snd sd)) /\
  (forall k, In k (keys (fst sd)) \/ In k (keys (snd sd)) ->
             get k positions <> None).

(** The fields of a position that a movement leaves alone. *)
Definition untouchedFields (p : PortfolioPosition) :=
  (protocol p, targetAmount p, targetPercentage p,
   lstTokenBalance p, pendingWithdrawals p).

(** Surplus and deficit of a portfolio against a target map, read off the
    positions and the targets alone.  The amount a protocol should hold is
    its target percentage, in whole basis points, of the total value
    (bigint division truncates); what a held protocol has above that
    amount is its surplus, what it lacks is its deficit.  A target whose
    protocol has no position counts for nothing. *)
Definition targetAmountOf (totalValue : Z) (targetPercentage : R) : Z :=
  Z.quot (totalValue * Math_round (targetPercentage * 100)) 10000.

Definition surplusOf (positions : Map PortfolioPosition) (totalValue : Z)
           (entry : string * R) : Z :=
  match get (fst entry) positions with
  | Some position =>
      Z.max 0 (currentAmount position - targetAmountOf totalValue (snd entry))
  | None => 0%Z
  end.

Definition deficitOf (positions : Map PortfolioPosition) (totalValue : Z)
           (entry : string * R) : Z :=
  match get (fst entry) positions with
  | Some position =>
      Z.max 0 (targetAmountOf totalValue (snd entry) - currentAmount position)
  | None => 0%Z
  end.

Definition totalSurplus (positions : Map PortfolioPosition)
           (targets : Map R) (totalValue : Z) : Z :=
  sumZ (map (surplusOf positions totalValue) targets).

Definition totalDeficit (positions : Map PortfolioPosition)
           (targets : Map R) (totalValue : Z) : Z :=
  sumZ (map (deficitOf positions totalValue) targets).

End Spec.

(* ================================================================= *)
(** ** Concrete inputs used by the witnesses and counterexamples *)

Module Inputs.

Definition lidoProtocol : StakingProtocol :=
  {| name := "lido"; address := ""; type := lido;
     currentAPR := 8.1; exchangeRate := 1.0; totalStaked := 0%Z;
     riskScore := 1.0; gasEfficiency := 85; withdrawalDelay := 1;
     maxAllocation := 40 |}.

Definition etherfiProtocol : StakingProtocol :=
  {| name := "etherfi"; address := ""; type := etherfi;
     currentAPR := 8.4; exchangeRate := 1.0; totalStaked := 0%Z;
     riskScore := 2.0; gasEfficiency := 80; withdrawalDelay := 7;
     maxAllocation := 30 |}.

(** A position as [initializePositions] builds it, holding [amount] at
    [percentage] percent of the portfolio. *)
Definition position (p : StakingProtocol) (amount : Z) (percentage : R)
  : PortfolioPosition :=
  {| protocol := p; currentAmount := amount; targetAmount := 0%Z;
     currentPercentage := percentage; targetPercentage := 0;
     lstTokenBalance := 0%Z; pendingWithdrawals := 0%Z |}.

(** Positions lido 70 / etherfi 30 of a portfolio worth 100. *)
Definition positions_70_30 : Map PortfolioPosition :=
  [("lido", position lidoProtocol 70 70);
   ("etherfi", position etherfiProtocol 30 30)].

(** Targets lido 40 / etherfi 60. *)
Definition strategy_40_60 : OptimizationStrategy :=
  {| targetAllocations := [("lido", 40); ("etherfi", 60)];
     expectedAPR := 8; strategyRiskScore := 3; rebalanceThreshold := 0.05;
     maxGasPrice := 50; riskTolerance := moderate |}.

(** Targets summing to 130, one of them for a protocol without position. *)
Definition strategy_130 : OptimizationStrategy :=
  {| targetAllocations := [("lido", 40); ("etherfi", 80); ("aave", 10)];
     expectedAPR := 8; strategyRiskScore := 3; rebalanceThreshold := 0.05;
     maxGasPrice := 50; riskTolerance := moderate |}.

(** Two protocols with equal staked value. *)
Definition twoEqualProtocols : list StakingProtocol :=
  [ {| name := "lido"; address := ""; type := lido;
       currentAPR := 8.1; exchangeRate := 1.0; totalStaked := 5%Z;
       riskScore := 1.0; gasEfficiency := 85; withdrawalDelay := 1;
       maxAllocation := 40 |};
    {| name := "etherfi"; address := ""; type := etherfi;
       currentAPR := 8.4; exchangeRate := 1.0; totalStaked := 5%Z;
       riskScore := 2.0; gasEfficiency := 80; withdrawalDelay := 7;
       maxAllocation := 30 |} ].

(** A blockchain service that reports a gas price of 42 gwei, refuses every
    withdrawal from lido and accepts and confirms everything else. *)
Definition lidoRefusing : Services unit :=
  {| getGasPrice := fun w => (42, w);
     executeUnstake := fun protocolName _ w =>
       (if String.eqb protocolName "lido" then None else Some "0xa1", w);
     executeStake := fun _ _ w => (Some "0xb2", w);
     waitForTransaction := fun _ w => (true, w);
     newTxId := fun w => ("rebalance_0_abc", w) |}.

(** The object right after construction (default strategy, moderate
    tolerance) with everything held in lido. *)
Definition allInLido : YieldOptimizer :=
  {| currentStrategy := Optimizer.defaultStrategy None moderate;
     positions := [("lido", position lidoProtocol 100 100);
                   ("etherfi", position etherfiProtocol 0 0)];
     pendingTransactions := [];
     txObjects := [] |}.

(** The same object with positions that sit exactly on the targets of a
    two-protocol strategy. *)
Definition onTarget : YieldOptimizer :=
  {| currentStrategy :=
       {| targetAllocations := [("lido", 70); ("etherfi", 30)];
          expectedAPR := 8; strategyRiskScore := 3;
          rebalanceThreshold := 0.05; maxGasPrice := 50;
          riskTolerance := moderate |};
     positions := positions_70_30;
     pendingTransactions := [];
     txObjects := [] |}.

(** Snapshot with one protocol: etherfi at 12% yield and risk 0. *)
Definition md_etherfi : MarketData :=
  {| gasPrice := 42; ethPrice := 2340;
     protocolAPRs := [("etherfi", 12)];
     protocolRisks := [("etherfi", 0)] |}.

(** Snapshot with a yield entry for lido and no risk entry at all. *)
Definition md_partial : MarketData :=
  {| gasPrice := 42; ethPrice := 2340;
     protocolAPRs := [("lido", 10)];
     protocolRisks := [] |}.

(** Snapshot with a yield entry for lido only and a risk entry for etherfi
    only. *)
Definition md_mismatched : MarketData :=
  {| gasPrice := 42; ethPrice := 2340;
     protocolAPRs := [("lido", 10)];
     protocolRisks := [("etherfi", 3)] |}.

End Inputs.

(* ================================================================= *)
(** ** Risk analyzer: the remaining scores *)

Record RiskAssessment := {
  overallRisk : R;
  assessedProtocolRisks : Map R;
  concentrationRisk : R;
  liquidityRisk : R;
  smartContractRisk : R;
  recommendations : list string
}.

Module Analyzer.

Definition calculateProtocolRisk (protocol : StakingProtocol) : R :=
  let risk := riskScore protocol in
  let risk := risk + withdrawalDelay protocol * 0.1 in
  let risk := risk + (100 - gasEfficiency protocol) * 0.02 in
  Rmin risk 10.

Definition calculateLiquidityRisk (protocols : list StakingProtocol) : R :=
  let total :=
    fold_left (fun sum p => sum + Number (totalStaked p)) protocols 0 in
  if Req_dec_T total 0 then 0
  else
    let weightedDelay :=
      fold_left
        (fun weightedDelay protocol =>
           let weight := Number (totalStaked protocol) / total in
           weightedDelay + withdrawalDelay protocol * weight)
        protocols 0 in
    Rmin (weightedDelay / 3) 10.

(** The maturity constant chosen by the chain of name tests. *)
Definition contractRisk (protocolName : string) : R :=
  if String.eqb protocolName "lido" then 1
  else if String.eqb protocolName "rocketpool" then 1.5
  else if String.eqb protocolName "etherfi" then 2.5
  else if String.eqb protocolName "morpho" then 3
  else 2.

Definition calculateSmartContractRisk (protocols : list StakingProtocol) : R :=
  let total :=
    fold_left (fun sum p => sum + Number (totalStaked p)) protocols 0 in
  if Req_dec_T total 0 then 0
  else
    fold_left
      (fun weightedRisk protocol =>
         let weight := Number (totalStaked protocol) / total in
         weightedRisk + contractRisk (name protocol) * weight)
      protocols 0.

Definition calculateOverallRisk
           (averageRisk concentration liquidity smartContract : R) : R :=
  averageRisk * 0.4 + concentration * 0.2 + liquidity * 0.2
  + smartContract * 0.2.

(** [array.join(", ")]. *)
Definition join (l : list string) : string := String.concat ", " l.

Section Formatting.

(** Rendering of numbers in template strings: [x.toFixed(1)] and the
    default conversion of a number to a string. *)
Variable toFixed1 : R -> string.
Variable toString : R -> string.

Definition generateRecommendations
           (overall concentration liquidity smartContract : R)
           (protocols : list StakingProtocol) : list string :=
  let recommendations :=
    if gtb overall 7 then
      ["High risk detected - consider reducing position sizes"]
    else if gtb overall 5 then
      ["Moderate risk - monitor positions closely"]
    else if ltb overall 2 then
      ["Very low risk - consider taking on more yield opportunities"]
    else [] in
  let recommendations :=
    if gtb concentration 6 then
      recommendations
        ++ ["Portfolio too concentrated - diversify across more protocols"]
    else recommendations in
  let recommendations :=
    if gtb liquidity 5 then
      recommendations
        ++ ["High liquidity risk - increase allocation to protocols with shorter withdrawal delays"]
    else recommendations in
  let recommendations :=
    if gtb smartContract 6 then
      recommendations
        ++ ["High smart contract risk - reduce exposure to newer protocols"]
    else recommendations in
  let highRiskProtocols :=
    filter (fun p => gtb (calculateProtocolRisk p) 7) protocols in
  let recommendations :=
    if Nat.ltb 0 (List.length highRiskProtocols) then
      recommendations
        ++ [("Consider reducing exposure to high-risk protocols: "
               ++ join (map name highRiskProtocols))%string]
    else recommendations in
  let total :=
    fold_left (fun sum p => sum + Number (totalStaked p)) protocols 0 in
  if gtb total 0 then
    fold_left
      (fun recommendations protocol =>
         let allocation := Number (totalStaked protocol) / total in
         if gtb allocation (maxAllocation protocol / 100) then
           recommendations
             ++ [(name protocol ++ " allocation ("
                    ++ toFixed1 (allocation * 100)
                    ++ "%) exceeds recommended maximum ("
                    ++ toString (maxAllocation protocol) ++ "%)")%string]
         else recommendations)
      protocols recommendations
  else recommendations.

Definition assessPortfolioRisk (protocols : list StakingProtocol)
  : RiskAssessment :=
  let '(protocolRisks, totalRisk) :=
    fold_left
      (fun acc protocol =>
         let '(protocolRisks, totalRisk) := acc in
         let risk := calculateProtocolRisk protocol in
         (set (name protocol) risk protocolRisks, totalRisk + risk))
      protocols ([], 0) in
  let averageRisk := totalRisk / INR (List.length protocols) in
  let concentration := RiskAnalyzer.calculateConcentrationRisk protocols in
  let liquidity := calculateLiquidityRisk protocols in
  let smartContract := calculateSmartContractRisk protocols in
  let overall :=
    calculateOverallRisk averageRisk concentration liquidity smartContract in
  {| overallRisk := overall;
     assessedProtocolRisks := protocolRisks;
     concentrationRisk := concentration;
     liquidityRisk := liquidity;
     smartContractRisk := smartContract;
     recommendations :=
       generateRecommendations overall concentration liquidity smartContract
                               protocols |}.

End Formatting.

(** [calculateVaR]; the optional arguments default to 1 day and 0.95. *)
Definition calculateVaR (portfolioValue : R) (timeHorizon : option R)
           (confidenceLevel : option R) : R :=
  let timeHorizon := or_else timeHorizon 1 in
  let confidenceLevel := or_else confidenceLevel 0.95 in
  let annualVolatility := 0.15 in
  let dailyVolatility := annualVolatility / sqrt 365 in
  let scaledVolatility := dailyVolatility * sqrt timeHorizon in
  let zScore :=
    if Req_dec_T confidenceLevel 0.95 then 1.65
    else if Req_dec_T confidenceLevel 0.99 then 2.33
    else if Req_dec_T confidenceLevel 0.9 then 1.28
    else 1.65 in
  portfolioValue * scaledVolatility * zScore.

End Analyzer.

(* ================================================================= *)
(** ** The optimizer object: initialisation and metrics *)

Record PerformanceMetrics := {
  totalValue : Z;
  metricsCurrentAPR : R;
  performanceVsBenchmark : R;
  totalFeesEarned : Z;
  totalGasSpent : Z;
  rebalanceCount : nat;
  sharpeRatio : R;
  maxDrawdown : R;
  timeRange : string
}.

(** What [getProtocolData] answers for a protocol it knows. *)
Record ProtocolData := {
  dataAddress : string;
  dataExchangeRate : R;
  dataTotalStaked : Z
}.

Module Lifecycle.

(** [{ ...protocol, ...blockchainData }]. *)
Definition merge (p : StakingProtocol) (d : ProtocolData) : StakingProtocol :=
  {| name := name p; address := dataAddress d; type := type p;
     currentAPR := currentAPR p; exchangeRate := dataExchangeRate d;
     totalStaked := dataTotalStaked d; riskScore := riskScore p;
     gasEfficiency := gasEfficiency p; withdrawalDelay := withdrawalDelay p;
     maxAllocation := maxAllocation p |}.

(** The loop of [initializePositions] over the available protocols;
    [getProtocolData] is the blockchain service's query, which answers
    [null] for a protocol without contract or on any error. *)
Fixpoint createPositions {W} (getProtocolData : string -> W -> option ProtocolData * W)
         (strategy : OptimizationStrategy) (protocols : list StakingProtocol)
         (positions : Map PortfolioPosition) (w : W)
  : Map PortfolioPosition * W :=
  match protocols with
  | [] => (positions, w)
  | protocol :: rest =>
      let '(blockchainData, w) := getProtocolData (name protocol) w in
      match blockchainData with
      | Some data =>
          let position :=
            {| protocol := merge protocol data;
               currentAmount := dataTotalStaked data;
               targetAmount := 0%Z;
               currentPercentage := 0;
               targetPercentage :=
                 or_else (get (name protocol) (targetAllocations strategy)) 0;
               lstTokenBalance := 0%Z;
               pendingWithdrawals := 0%Z |} in
          createPositions getProtocolData strategy rest
            (set (name protocol) position positions) w
      | None => createPositions getProtocolData strategy rest positions w
      end
  end.

Definition initializePositions {W}
           (getProtocolData : string -> W -> option ProtocolData * W)
           (protocols : list StakingProtocol) (this : YieldOptimizer) (w : W)
  : YieldOptimizer * W :=
  let '(positions, w) :=
    createPositions getProtocolData (currentStrategy this) protocols
                    (positions this) w in
  (Executor.withPositions (Store.updatePositionPercentages positions) this, w).

Definition calculateCurrentAPR (this : YieldOptimizer) : R :=
  fold_left
    (fun weightedAPR position =>
       weightedAPR
       + currentPercentage position * currentAPR (protocol position) / 100)
    (values (positions this)) 0.

Definition getPerformanceMetrics (this : YieldOptimizer)
           (range : option string) : PerformanceMetrics :=
  {| totalValue := Planner.getTotalPortfolioValue (positions this);
     metricsCurrentAPR := calculateCurrentAPR this;
     performanceVsBenchmark := 0;
     totalFeesEarned := 0%Z;
     totalGasSpent := 0%Z;
     rebalanceCount := size (pendingTransactions this);
     sharpeRatio := 0;
     maxDrawdown := 0;
     timeRange := or_else range "24h" |}.

End Lifecycle.

(* ================================================================= *)
(** ** Orders and measures used in the further properties *)

Module Measures.

(** Order of the sorted protocols: the earlier entry has the larger or an
    equal risk-adjusted return. *)
Definition byReturn (x y : string * R) : Prop := snd x >= snd y.

(** Risk-adjusted return the optimizer computed for a protocol. *)
Definition returnOf (md : MarketData) (protocolName : string) : R :=
  or_else (get protocolName (Optimizer.riskAdjustedReturns md)) 0.

(** The inner matching loop as a function of the entries alone: the
    deficits left over and the movements emitted.  [matchDeficits_fill]
    shows that the loop computes it. *)
Fixpoint fill (fromProtocol : string) (entries : list (string * Z)) (rem : Z)
  : list (string * Z) * list Movement :=
  match entries with
  | [] => ([], [])
  | (toProtocol, d) :: rest =>
      if (rem =? 0)%Z then (entries, [])
      else
        let moveAmount := if (rem <? d)%Z then rem else d in
        let '(rest', new) := fill fromProtocol rest (rem - moveAmount)%Z in
        ((if (d - moveAmount =? 0)%Z then rest'
          else (toProtocol, (d - moveAmount)%Z) :: rest'),
         {| from := fromProtocol; to := toProtocol; amount := moveAmount |}
           :: new)
  end.

(** The outer matching loop in the same style. *)
Fixpoint fillAll (surpluses deficits : list (string * Z))
  : list (string * Z) * list Movement :=
  match surpluses with
  | [] => (deficits, [])
  | (fromProtocol, surplusAmount) :: rest =>
      let '(rest', new) := fill fromProtocol deficits surplusAmount in
      let '(final, more) := fillAll rest rest' in
      (final, new ++ more)
  end.

(** Total amount the movements take out of, and bring into, a protocol. *)
Definition movedFrom (p : string) (movements : list Movement) : Z :=
  sumZ (map amount (filter (fun m => String.eqb (from m) p) movements)).

Definition movedTo (p : string) (movements : list Movement) : Z :=
  sumZ (map amount (filter (fun m => String.eqb (to m) p) movements)).

(** Entry of a surplus or deficit map, 0 when the protocol has none. *)
Definition valueAt (p : string) (m : Map Z) : Z := or_else (get p m) 0%Z.

(** Components of the outcome of an executor computation. *)
Definition stateAfter {A W}
           (outcome : (A + string) * YieldOptimizer * W * list Executor.Event)
  : YieldOptimizer := snd (fst (fst outcome)).

Definition resultOf {A W}
           (outcome : (A + string) * YieldOptimizer * W * list Executor.Event)
  : A + string := fst (fst (fst outcome)).

(** The position [initializePositions] creates for a protocol from the
    data of the chain. *)
Definition newPosition (strategy : OptimizationStrategy)
           (p : StakingProtocol) (d : ProtocolData) : PortfolioPosition :=
  {| protocol := Lifecycle.merge p d;
     currentAmount := dataTotalStaked d;
     targetAmount := 0%Z;
     currentPercentage := 0;
     targetPercentage :=
       or_else (get (name p) (targetAllocations strategy)) 0;
     lstTokenBalance := 0%Z;
     pendingWithdrawals := 0%Z |}.

(** Whether the chain has data for a protocol. *)
Definition known (data : string -> option ProtocolData)
           (p : StakingProtocol) : bool :=
  match data (name p) with Some _ => true | None => false end.

(** Chain data in which only lido is known, with 7 staked. *)
Definition onlyLido (n : string) : option ProtocolData :=
  if String.eqb n "lido"
  then Some {| dataAddress := "0x1"; dataExchangeRate := 1;
               dataTotalStaked := 7%Z |}
  else None.

(** The object before initialisation. *)
Definition fresh : YieldOptimizer :=
  {| currentStrategy := Optimizer.defaultStrategy None moderate;
     positions := []; pendingTransactions := []; txObjects := [] |}.

(** Last character of a string. *)
Fixpoint lastChar (s : string) : option Ascii.ascii :=
  match s with
  | EmptyString => None
  | String c EmptyString => Some c
  | String _ rest => lastChar rest
  end.

(** The recommendation that warns about smart-contract risk. *)
Definition smartContractWarning : string :=
  "High smart contract risk - reduce exposure to newer protocols".

(** A blockchain service that refuses every withdrawal. *)
Definition allRefusing : Services unit :=
  {| getGasPrice := fun w => (42, w);
     executeUnstake := fun _ _ w => (None, w);
     executeStake := fun _ _ w => (Some "0xb2", w);
     waitForTransaction := fun _ w => (true, w);
     newTxId := fun w => ("rebalance_0_abc", w) |}.

(** A snapshot without protocols. *)
Definition md_empty : MarketData :=
  {| gasPrice := 42; ethPrice := 2340;
     protocolAPRs := []; protocolRisks := [] |}.

End Measures.

(* ================================================================= *)
(** * Proofs *)

Import Optimizer Gate Planner Store Executor DataService RiskAnalyzer Spec Inputs.
Import Analyzer Lifecycle Measures.

(** ** Facts about [Map] *)

Section MapFacts.
Context {V : Type}.
Implicit Types (m : Map V) (k : string) (v : V).

Lemma get_None_notin k m : get k m = None <-> ~ In k (keys m).
Proof.
  induction m as [|[k' v'] m IH]; simpl.
  - tauto.
  - destruct (String.eqb_spec k k') as [->|Hne].
    + split; [discriminate | intros H; exfalso; apply H; now left].
    + rewrite IH. intuition congruence.
Qed.

Lemma get_Some_in k v m : get k m = Some v -> In (k, v) m.
Proof.
  induction m as [|[k' v'] m IH]; simpl; [discriminate|].
  destruct (String.eqb_spec k k') as [->|Hne].
  - intros [= ->]. now left.
  - intros H. right. auto.
Qed.

Lemma in_keys k v m : In (k, v) m -> In k (keys m).
Proof. intros H. apply (in_map fst) in H. exact H. Qed.

Lemma in_get k v m : NoDup (keys m) -> In (k, v) m -> get k m = Some v.
Proof.
  induction m as [|[k' v'] m IH]; simpl; [tauto|].
  intros Hnd [Heq|Hin].
  - injection Heq as -> ->. now rewrite String.eqb_refl.
  - inversion Hnd as [|? ? Hnotin Hnd']; subst.
    destruct (String.eqb_spec k k') as [->|Hne].
    + exfalso. apply Hnotin. eapply in_keys; eauto.
    + auto.
Qed.

Lemma set_fresh k v m : ~ In k (keys m) -> set k v m = m ++ [(k, v)].
Proof.
  induction m as [|[k' v'] m IH]; simpl; [reflexivity|].
  intros H. destruct (String.eqb_spec k k') as [->|Hne].
  - exfalso. apply H. now left.
  - rewrite IH; [reflexivity | tauto].
Qed.

Lemma keys_set_present k v m : In k (keys m) -> keys (set k v m) = keys m.
Proof.
  induction m as [|[k' v'] m IH]; simpl; [tauto|].
  intros H. destruct (String.eqb_spec k k') as [->|Hne]; simpl.
  - reflexivity.
  - f_equal. apply IH. destruct H; [congruence | assumption].
Qed.

Lemma keys_set k v m :
  keys (set k v m) = if in_dec string_dec k (keys m) then keys m
                     else keys m ++ [k].
Proof.
  destruct (in_dec string_dec k (keys m)) as [Hin|Hnin].
  - now apply keys_set_present.
  - rewrite set_fresh by assumption. unfold keys. now rewrite map_app.
Qed.

Lemma NoDup_keys_set k v m : NoDup (keys m) -> NoDup (keys (set k v m)).
Proof.
  intros Hnd. rewrite keys_set.
  destruct (in_dec string_dec k (keys m)) as [Hin|Hnin]; [assumption|].
  apply NoDup_app; [assumption | repeat constructor; simpl; tauto |].
  intros x Hx [<-|[]]. contradiction.
Qed.

Lemma get_set_same k v m : get k (set k v m) = Some v.
Proof.
  induction m as [|[k' v'] m IH]; simpl.
  - now rewrite String.eqb_refl.
  - destruct (String.eqb_spec k k') as [->|Hne]; simpl.
    + now rewrite String.eqb_refl.
    + destruct (String.eqb_spec k k'); [contradiction | assumption].
Qed.

Lemma get_set_other k k0 v m : k0 <> k -> get k0 (set k v m) = get k0 m.
Proof.
  intros Hne. induction m as [|[k' v'] m IH]; simpl.
  - destruct (String.eqb_spec k0 k); [contradiction | reflexivity].
  - destruct (String.eqb_spec k k') as [->|Hne']; simpl.
    + destruct (String.eqb_spec k0 k'); [contradiction | reflexivity].
    + now rewrite IH.
Qed.

End MapFacts.

Lemma NoDup_keys_fold_set {A V} (f : A -> string) (g : Map V -> A -> V)
      (l : list A) (acc : Map V) :
  NoDup (keys acc) ->
  NoDup (keys (fold_left (fun m e => set (f e) (g m e) m) l acc)).
Proof.
  revert acc. induction l as [|e l IH]; simpl; intros acc H; [assumption|].
  apply IH. now apply NoDup_keys_set.
Qed.

(** ** Allocation optimizer *)

Section OptimizerFacts.
Variable tol : RiskTolerance.
Variable md : MarketData.

Lemma allocationLoop_appends l : forall rem acc,
  NoDup (keys l) ->
  (forall k, In k (keys l) -> ~ In k (keys acc)) ->
  allocationLoop tol md l rem acc = acc ++ appended tol md l rem.
Proof.
  induction l as [|[n r] l IH]; simpl; intros rem acc Hnd Hdis.
  - now rewrite app_nil_r.
  - inversion Hnd as [|? ? Hn Hnd']; subst.
    rewrite IH.
    + rewrite set_fresh by (apply Hdis; now left).
      now rewrite <- app_assoc.
    + assumption.
    + intros k Hk. rewrite keys_set.
      destruct (in_dec string_dec n (keys acc)) as [Hin|Hnin].
      * apply Hdis. now right.
      * rewrite in_app_iff. simpl. intros [H|[<-|[]]].
        -- revert H. apply Hdis. now right.
        -- contradiction.
Qed.

Lemma appended_split l : forall rem pre n a post,
  appended tol md l rem = pre ++ (n, a) :: post ->
  exists r, In (n, r) l /\
            a = Rmin (rawAllocation tol md n r) (rem - sumR (values pre)).
Proof.
  induction l as [|[n0 r0] l IH]; simpl; intros rem pre n a post H.
  - destruct pre; discriminate.
  - destruct pre as [|[n1 a1] pre]; simpl in H.
    + injection H as <- <- _. exists r0. split; [now left|].
      simpl. now rewrite Rminus_0_r.
    + injection H as <- <- H.
      destruct (IH _ _ _ _ _ H) as (r & Hin & ->).
      exists r. split; [now right|]. simpl. f_equal. lra.
Qed.

Lemma appended_sum l : forall rem,
  0 <= rem -> sumR (values (appended tol md l rem)) <= rem.
Proof.
  induction l as [|[n r] l IH]; simpl; intros rem Hrem; [assumption|].
  set (a := Rmin (rawAllocation tol md n r) rem).
  assert (Ha : a <= rem) by apply Rmin_r.
  specialize (IH (rem - a)). lra.
Qed.

End OptimizerFacts.

Lemma insertDesc_perm x l : Permutation (insertDesc x l) (x :: l).
Proof.
  induction l as [|y l IH]; simpl; [reflexivity|].
  destruct (Rgt_dec (snd y) (snd x)); [|reflexivity].
  rewrite IH. apply perm_swap.
Qed.

Lemma sortDesc_perm l : Permutation (sortDesc l) l.
Proof.
  induction l as [|x l IH]; simpl; [constructor|].
  rewrite insertDesc_perm. now constructor.
Qed.

Lemma riskAdjustedReturns_NoDup md : NoDup (keys (riskAdjustedReturns md)).
Proof.
  unfold riskAdjustedReturns.
  set (risk := fun n => or_else (get n (protocolRisks md)) 0).
  assert (E : forall l acc,
    fold_left (fun acc entry => let '(protocolName, apr) := entry in
       set protocolName (apr * (1 - risk protocolName / 100)) acc) l acc
    = fold_left (fun m e => set (fst e)
         ((fun _ e => snd e * (1 - risk (fst e) / 100)) m e) m) l acc).
  { induction l as [|[n a] l IH]; simpl; intros acc; [reflexivity|]. apply IH. }
  unfold risk in E. rewrite E.
  apply NoDup_keys_fold_set. constructor.
Qed.

Lemma sortDesc_NoDup l : NoDup (keys l) -> NoDup (keys (sortDesc l)).
Proof.
  intros H. eapply Permutation_NoDup; [|exact H].
  unfold keys. apply Permutation_map. symmetry. apply sortDesc_perm.
Qed.

(** The allocation map is the list of clamped entries, in sorted order. *)
Lemma calculateOptimalAllocations_appended tol md :
  calculateOptimalAllocations tol (riskAdjustedReturns md) md
  = appended tol md (sortDesc (riskAdjustedReturns md)) 100.
Proof.
  unfold calculateOptimalAllocations.
  rewrite allocationLoop_appends; [reflexivity | | intros k _ []].
  apply sortDesc_NoDup, riskAdjustedReturns_NoDup.
Qed.

(** C6: for every market snapshot (and every current strategy and
    environment), the target allocations of the strategy returned by
    [optimizeAllocation] sum to at most 100. *)
Theorem optimizeAllocation_sum_le_100 env cur md :
  sumR (values (targetAllocations (optimizeAllocation env cur md))) <= 100.
Proof.
  simpl. rewrite calculateOptimalAllocations_appended.
  apply appended_sum. lra.
Qed.

(** C1 (amended): every allocation of the returned strategy is the minimum
    of the raw allocation (base allocation x risk multiplier x performance
    multiplier, at the protocol's risk-adjusted return) and the percentage
    left by the protocols placed before it; no per-protocol cap enters. *)
Theorem allocation_clamped_to_raw_and_remaining env cur md pre n a post :
  targetAllocations (optimizeAllocation env cur md) = pre ++ (n, a) :: post ->
  exists r,
    get n (riskAdjustedReturns md) = Some r /\
    a = Rmin (rawAllocation (riskTolerance cur) md n r)
             (100 - sumR (values pre)).
Proof.
  simpl. rewrite calculateOptimalAllocations_appended. intros H.
  destruct (appended_split _ _ _ _ _ _ _ _ H) as (r & Hin & Ha).
  exists r. split; [|exact Ha].
  apply in_get; [apply riskAdjustedReturns_NoDup|].
  eapply Permutation_in; [apply sortDesc_perm | exact Hin].
Qed.

Lemma allocation_clamped_witness :
  exists r,
    get "etherfi" (riskAdjustedReturns md_etherfi) = Some r /\
    Rmin (rawAllocation moderate md_etherfi "etherfi" (12 * (1 - 0 / 100))) 100
    = Rmin (rawAllocation moderate md_etherfi "etherfi" r)
           (100 - sumR (values [])).
Proof.
  apply (allocation_clamped_to_raw_and_remaining
           None (defaultStrategy None moderate) md_etherfi
           [] "etherfi" _ []).
  reflexivity.
Defined.

Lemma exp_1_gt : 9 / 4 < exp 1.
Proof.
  assert (H : 1 + 1 / 2 < exp (1 / 2)) by (apply exp_ineq1; lra).
  replace 1 with (1 / 2 + 1 / 2) by lra.
  rewrite exp_plus. nra.
Qed.

Lemma tanh_1_gt : 2 / 3 < tanh 1.
Proof.
  unfold tanh, sinh, cosh. rewrite exp_Ropp.
  pose proof exp_1_gt as He.
  set (e := exp 1) in *.
  assert (Hi : e * / e = 1) by (apply Rinv_r; lra).
  assert (Hp : 0 < / e) by (apply Rinv_0_lt_compat; lra).
  set (ei := / e) in *.
  assert (E : (e - ei) / 2 / ((e + ei) / 2)
              = 2 / 3 + (e - 5 * ei) / (3 * (e + ei))) by (field; lra).
  rewrite E.
  assert (0 < (e - 5 * ei) / (3 * (e + ei)))
    by (apply Rdiv_lt_0_compat; nra).
  lra.
Qed.

(** C1 (as stated) fails: under the default moderate tolerance, etherfi at
    12% yield and risk 0 receives 25 x 1 x (1 + 0.3 tanh 1) > 30.7, above
    its configured cap of 30. *)
Lemma allocation_exceeds_cap :
  ~ within_caps getAvailableProtocols
      (targetAllocations
         (optimizeAllocation None (defaultStrategy None moderate) md_etherfi)).
Proof.
  intros H. unfold within_caps, getAvailableProtocols in H.
  specialize (H _ _ (or_intror (or_introl eq_refl)) eq_refl).
  simpl in H. unfold rawAllocation, getRiskMultiplier,
    getPerformanceMultiplier, getBaseAllocation in H. simpl in H.
  replace ((12 * (1 - 0 / 100) - 7) / 5) with 1 in H by lra.
  pose proof tanh_1_gt as Ht.
  revert H. unfold Rmin, Rmax.
  repeat destruct Rle_dec; lra.
Qed.

(** Lookup in the map of risk-adjusted returns. *)
Lemma get_riskAdjustedReturns md n :
  NoDup (keys (protocolAPRs md)) ->
  get n (riskAdjustedReturns md)
  = option_map
      (fun apr => apr * (1 - or_else (get n (protocolRisks md)) 0 / 100))
      (get n (protocolAPRs md)).
Proof.
  unfold riskAdjustedReturns.
  assert (G : forall l acc, NoDup (keys l) ->
    get n (fold_left
      (fun acc entry => let '(protocolName, apr) := entry in
         set protocolName
           (apr * (1 - or_else (get protocolName (protocolRisks md)) 0 / 100))
           acc) l acc)
    = match get n l with
      | Some apr =>
          Some (apr * (1 - or_else (get n (protocolRisks md)) 0 / 100))
      | None => get n acc
      end).
  { induction l as [|[k v] l IH]; simpl; intros acc Hnd; [reflexivity|].
    inversion Hnd as [|? ? Hk Hnd']; subst.
    rewrite IH by assumption.
    destruct (String.eqb_spec n k) as [->|Hne].
    - apply get_None_notin in Hk. rewrite Hk. apply get_set_same.
    - destruct (get n l); [reflexivity|]. now apply get_set_other. }
  intros Hnd. rewrite G by assumption.
  destruct (get n (protocolAPRs md)); reflexivity.
Qed.

Lemma appended_keys tol md l : forall rem,
  keys (appended tol md l rem) = keys l.
Proof.
  induction l as [|[n r] l IH]; simpl; intros rem; [reflexivity|].
  now rewrite IH.
Qed.

(** Every protocol with a risk-adjusted return has an allocation entry. *)
Lemma targetAllocations_has_entry env cur md n r :
  get n (riskAdjustedReturns md) = Some r ->
  exists pre a post,
    targetAllocations (optimizeAllocation env cur md) = pre ++ (n, a) :: post.
Proof.
  intros Hget. simpl. rewrite calculateOptimalAllocations_appended.
  set (out := appended _ _ _ _).
  assert (Hin : In n (keys out)).
  { unfold out. rewrite appended_keys.
    eapply Permutation_in.
    - unfold keys. apply Permutation_map. symmetry. apply sortDesc_perm.
    - eapply in_keys. apply get_Some_in. exact Hget. }
  unfold keys in Hin. apply in_map_iff in Hin.
  destruct Hin as ([n' a] & Hn & Hin). simpl in Hn. subst n'.
  apply in_split in Hin. destruct Hin as (pre & post & ->).
  now exists pre, a, post.
Qed.

(** C2 (amended): a protocol with a yield entry and no risk entry is
    processed at the default risk 0 (not 1): its risk-adjusted return is
    [apr * (1 - 0/100)], its allocation exists and uses the risk multiplier
    at 0.  A protocol without a yield entry is not processed at all,
    whatever its risk entry: it gets no risk-adjusted return and no
    allocation (no yield 0 is substituted for it).  All functions involved
    are total, so a partial snapshot always yields a strategy. *)
Theorem missing_risk_defaults_to_zero env cur md :
  NoDup (keys (protocolAPRs md)) ->
  missing_risk_defaults_to 0 md /\
  (forall n apr,
     get n (protocolAPRs md) = Some apr ->
     get n (protocolRisks md) = None ->
     exists pre a post,
       targetAllocations (optimizeAllocation env cur md)
       = pre ++ (n, a) :: post /\
       a = Rmin (getBaseAllocation n
                 * getRiskMultiplier (riskTolerance cur) 0
                 * getPerformanceMultiplier (apr * (1 - 0 / 100)))
                (100 - sumR (values pre))) /\
  (forall n,
     get n (protocolAPRs md) = None ->
     get n (riskAdjustedReturns md) = None /\
     get n (targetAllocations (optimizeAllocation env cur md)) = None).
Proof.
  intros Hnd.
  assert (D : missing_risk_defaults_to 0 md).
  { intros n apr Ha Hr. rewrite get_riskAdjustedReturns by assumption.
    now rewrite Ha, Hr. }
  split; [exact D|]. split.
  - intros n apr Ha Hr.
    pose proof (D n apr Ha Hr) as Hret.
    destruct (targetAllocations_has_entry env cur md n _ Hret)
      as (pre & a & post & E).
    exists pre, a, post. split; [exact E|].
    pose proof E as E'. simpl in E'.
    rewrite calculateOptimalAllocations_appended in E'.
    destruct (appended_split _ _ _ _ _ _ _ _ E') as (r & Hin & ->).
    assert (Hr' : get n (riskAdjustedReturns md) = Some r).
    { apply in_get; [apply riskAdjustedReturns_NoDup|].
      eapply Permutation_in; [apply sortDesc_perm | exact Hin]. }
    rewrite Hret in Hr'. injection Hr' as <-.
    unfold rawAllocation. now rewrite Hr.
  - intros n Ha.
    assert (Hnone : get n (riskAdjustedReturns md) = None).
    { rewrite get_riskAdjustedReturns by assumption. now rewrite Ha. }
    split; [exact Hnone|].
    apply get_None_notin. simpl.
    rewrite calculateOptimalAllocations_appended, appended_keys.
    intros Hin. apply get_None_notin in Hnone. apply Hnone.
    eapply Permutation_in; [|exact Hin].
    unfold keys. apply Permutation_map, sortDesc_perm.
Qed.

Lemma missing_risk_defaults_to_zero_witness :
  missing_risk_defaults_to 0 md_mismatched /\
  (forall n apr,
     get n (protocolAPRs md_mismatched) = Some apr ->
     get n (protocolRisks md_mismatched) = None ->
     exists pre a post,
       targetAllocations
         (optimizeAllocation None (defaultStrategy None moderate)
            md_mismatched)
       = pre ++ (n, a) :: post /\
       a = Rmin (getBaseAllocation n
                 * getRiskMultiplier moderate 0
                 * getPerformanceMultiplier (apr * (1 - 0 / 100)))
                (100 - sumR (values pre))) /\
  (forall n,
     get n (protocolAPRs md_mismatched) = None ->
     get n (riskAdjustedReturns md_mismatched) = None /\
     get n (targetAllocations
              (optimizeAllocation None (defaultStrategy None moderate)
                 md_mismatched)) = None).
Proof.
  apply (missing_risk_defaults_to_zero
           None (defaultStrategy None moderate) md_mismatched).
  simpl. repeat constructor. simpl. tauto.
Defined.

(** C2 (as stated) fails: with yields {lido: 10} and an empty risk map the
    risk-adjusted return of lido is 10 * (1 - 0/100) = 10, not the 9.9 that
    a default risk of 1 would give. *)
Lemma missing_risk_is_not_one : ~ missing_risk_defaults_to 1 md_partial.
Proof.
  intros H. specialize (H "lido" 10 eq_refl eq_refl).
  simpl in H. injection H as H. lra.
Qed.

(** ** Risk analyzer *)

Lemma fold_left_Rplus {A} (f : A -> R) (l : list A) : forall acc,
  fold_left (fun s x => s + f x) l acc = acc + sumR (map f l).
Proof.
  induction l as [|x l IH]; simpl; intros acc; [lra|].
  rewrite IH. lra.
Qed.

Lemma totalTVL_sum ps : totalTVL ps = sumR (map (fun q => IZR (totalStaked q)) ps).
Proof. unfold totalTVL, Number. rewrite fold_left_Rplus. lra. Qed.

Lemma calculateConcentrationRisk_HHI ps :
  totalTVL ps <> 0 -> calculateConcentrationRisk ps = HHI ps * 10.
Proof.
  intros Hne. unfold calculateConcentrationRisk.
  destruct (Req_dec_T (totalTVL ps) 0) as [E|_]; [contradiction|].
  rewrite (fold_left_Rplus
             (fun p => Number (totalStaked p) / totalTVL ps
                       * (Number (totalStaked p) / totalTVL ps))).
  unfold HHI, shares, Number. rewrite map_map, totalTVL_sum. lra.
Qed.

Lemma sumR_app l1 l2 : sumR (l1 ++ l2) = sumR l1 + sumR l2.
Proof. induction l1 as [|x l1 IH]; simpl; lra. Qed.

Lemma sumR_map_const {A} (f : A -> R) (c : R) (l : list A) :
  Forall (fun x => f x = c) l -> sumR (map f l) = INR (List.length l) * c.
Proof.
  induction 1 as [|x l Hx _ IH].
  - simpl. lra.
  - change (sumR (map f (x :: l))) with (f x + sumR (map f l)).
    change (List.length (x :: l)) with (S (List.length l)).
    rewrite IH, Hx, S_INR. lra.
Qed.

(** C9: on a non-empty protocol list with positive total staked value the
    concentration risk is the Herfindahl-Hirschman index of the staked-value
    shares times 10; it is 10 when one protocol holds everything, and 10/N
    when the N protocols hold equal amounts. *)
Theorem concentration_risk_is_HHI_times_10 (ps : list StakingProtocol) :
  ps <> [] -> 0 < totalTVL ps ->
  calculateConcentrationRisk ps = HHI ps * 10 /\
  (forall pre p post,
     ps = pre ++ p :: post ->
     Forall (fun q => totalStaked q = 0%Z) (pre ++ post) ->
     calculateConcentrationRisk ps = 10) /\
  (forall a,
     Forall (fun q => totalStaked q = a) ps ->
     calculateConcentrationRisk ps = 10 / INR (List.length ps)).
Proof.
  intros Hne Hpos.
  assert (E : calculateConcentrationRisk ps = HHI ps * 10)
    by (apply calculateConcentrationRisk_HHI; lra).
  split; [exact E|]. rewrite E. clear E.
  rewrite totalTVL_sum in Hpos. unfold HHI, shares. rewrite map_map.
  set (T := sumR (map (fun q => IZR (totalStaked q)) ps)) in *.
  split.
  - intros pre p post -> Hz.
    apply Forall_app in Hz. destruct Hz as [Hpre Hpost].
    assert (Z0 : forall l, Forall (fun q => totalStaked q = 0%Z) l ->
              sumR (map (fun q => IZR (totalStaked q)) l) = 0
              /\ sumR (map (fun x => IZR (totalStaked x) / T
                                     * (IZR (totalStaked x) / T)) l) = 0).
    { intros l Hl. split.
      - rewrite (sumR_map_const _ 0); [lra|].
        eapply Forall_impl; [|exact Hl]. simpl. now intros q ->.
      - rewrite (sumR_map_const _ 0); [lra|].
        eapply Forall_impl; [|exact Hl]. simpl. intros q ->. lra. }
    destruct (Z0 _ Hpre) as [Tpre Spre]. destruct (Z0 _ Hpost) as [Tpost Spost].
    assert (HT : T = IZR (totalStaked p)).
    { unfold T. rewrite map_app, sumR_app. simpl. lra. }
    rewrite map_app, sumR_app. simpl. rewrite Spre, Spost, <- HT.
    field. lra.
  - intros a Ha.
    assert (HT : T = INR (List.length ps) * IZR a).
    { unfold T. apply sumR_map_const.
      eapply Forall_impl; [|exact Ha]. simpl. now intros q ->. }
    assert (Hn : 0 < INR (List.length ps)).
    { apply lt_0_INR. destruct ps; [contradiction | simpl; lia]. }
    assert (Hz : IZR a <> 0) by (intros Hz; rewrite Hz in HT; lra).
    rewrite (sumR_map_const _ (IZR a / T * (IZR a / T))).
    + rewrite HT. field. split; lra.
    + eapply Forall_impl; [|exact Ha]. simpl. now intros q ->.
Qed.

(** ** Movement planner *)

Section MapMiddle.
Context {V : Type}.
Implicit Types (m done rest : Map V) (k : string).

Lemma get_middle k d done rest :
  ~ In k (keys done) -> get k (done ++ (k, d) :: rest) = Some d.
Proof.
  induction done as [|[k' v'] done IH]; simpl; intros H.
  - now rewrite String.eqb_refl.
  - destruct (String.eqb_spec k k') as [->|Hne]; [tauto|]. apply IH. tauto.
Qed.

Lemma set_middle k v d done rest :
  ~ In k (keys done) ->
  set k v (done ++ (k, d) :: rest) = done ++ (k, v) :: rest.
Proof.
  induction done as [|[k' v'] done IH]; simpl; intros H.
  - now rewrite String.eqb_refl.
  - destruct (String.eqb_spec k k') as [->|Hne]; [tauto|].
    rewrite IH; tauto.
Qed.

Lemma delete_middle k d done rest :
  ~ In k (keys done) -> delete k (done ++ (k, d) :: rest) = done ++ rest.
Proof.
  induction done as [|[k' v'] done IH]; simpl; intros H.
  - now rewrite String.eqb_refl.
  - destruct (String.eqb_spec k k') as [->|Hne]; [tauto|].
    rewrite IH; tauto.
Qed.

Lemma keys_app m1 m2 : keys (m1 ++ m2) = keys m1 ++ keys m2.
Proof. apply map_app. Qed.

Lemma values_app m1 m2 : values (m1 ++ m2) = values m1 ++ values m2.
Proof. apply map_app. Qed.

End MapMiddle.

Lemma sumZ_app l1 l2 : sumZ (l1 ++ l2) = (sumZ l1 + sumZ l2)%Z.
Proof. induction l1 as [|x l1 IH]; simpl; lia. Qed.

Lemma sumZ_positive_nonneg l : Forall positive l -> (0 <= sumZ l)%Z.
Proof. unfold positive. induction 1; simpl; lia. Qed.

Lemma Forall_values_set (P : Z -> Prop) k v (m : Map Z) :
  P v -> Forall P (values m) -> Forall P (values (set k v m)).
Proof.
  intros Hv. induction m as [|[k' v'] m IH]; simpl; intros H.
  - repeat constructor. exact Hv.
  - inversion H; subst.
    destruct (String.eqb k k'); simpl; constructor; auto.
Qed.

(** What one run of the inner loop does to the deficits and to the list of
    movements. *)
Lemma matchDeficits_run fromProtocol : forall entries done rem moves,
  NoDup (keys (done ++ entries)) ->
  Forall positive (values entries) ->
  (0 <= rem)%Z ->
  exists done' new,
    matchDeficits fromProtocol entries rem (done ++ entries) moves
    = (done ++ done', moves ++ new) /\
    sumZ (map amount new) = Z.min rem (sumZ (values entries)) /\
    sumZ (values done') = (sumZ (values entries) - sumZ (map amount new))%Z /\
    Forall positive (values done') /\
    NoDup (keys (done ++ done')) /\
    incl (keys done') (keys entries) /\
    Forall (fun m => positive (amount m) /\ from m = fromProtocol
                     /\ In (to m) (keys entries)) new.
Proof.
  induction entries as [|[toP d] rest IH]; intros done rem moves Hnd Hpos Hrem.
  - exists [], []. simpl. rewrite !app_nil_r in *.
    split; [reflexivity|]. split; [lia|]. split; [reflexivity|].
    split; [constructor|]. split; [assumption|].
    split; [apply incl_refl | constructor].
  - inversion Hpos as [|? ? Hd Hpos']; subst.
    pose proof (sumZ_positive_nonneg _ Hpos') as Hsum.
    unfold positive in Hd.
    assert (HtoP : ~ In toP (keys done)).
    { rewrite keys_app in Hnd. simpl in Hnd.
      apply NoDup_remove_2 in Hnd. rewrite in_app_iff in Hnd. tauto. }
    simpl matchDeficits.
    destruct (Z.eqb_spec rem 0) as [->|Hne].
    + exists ((toP, d) :: rest), []. rewrite app_nil_r.
      split; [reflexivity|]. split; [simpl; lia|]. split; [simpl; lia|].
      split; [assumption|]. split; [assumption|].
      split; [apply incl_refl | constructor].
    + rewrite set_middle, get_middle by assumption.
      destruct (Z.ltb_spec rem d) as [Hlt|Hge].
      * (* the surplus ends inside this deficit, which stays in the map *)
        assert (Hd' : (d - rem)%Z <> 0%Z) by lia.
        assert (Ekeep :
          match (d - rem)%Z with
          | 0%Z => delete toP (done ++ (toP, (d - rem)%Z) :: rest)
          | _ => done ++ (toP, (d - rem)%Z) :: rest
          end = (done ++ [(toP, (d - rem)%Z)]) ++ rest).
        { rewrite <- app_assoc. simpl.
          destruct (d - rem)%Z; [contradiction | reflexivity | reflexivity]. }
        rewrite Ekeep. clear Ekeep.
        destruct (IH (done ++ [(toP, (d - rem)%Z)]) (rem - rem)%Z
                     (moves ++ [{| from := fromProtocol; to := toP;
                                   amount := rem |}]))
          as (done' & new & E & Hs & Hv & Hp & Hn & Hi & Hm).
        { rewrite <- app_assoc. simpl. rewrite keys_app in *. exact Hnd. }
        { assumption. }
        { lia. }
        exists ((toP, (d - rem)%Z) :: done'),
               ({| from := fromProtocol; to := toP; amount := rem |} :: new).
        rewrite E. rewrite <- !app_assoc. simpl.
        split; [reflexivity|]. split; [lia|]. split; [lia|].
        split; [constructor; [unfold positive; lia | exact Hp]|].
        split; [rewrite <- app_assoc in Hn; exact Hn|].
        split.
        -- intros k [<-|Hk]; [now left | right; apply Hi, Hk].
        -- constructor.
           ++ simpl. split; [unfold positive; lia|]. split; [reflexivity|].
              now left.
           ++ eapply Forall_impl; [|exact Hm]. simpl. tauto.
      * (* this deficit is filled and leaves the map *)
        replace (d - d)%Z with 0%Z by lia.
        rewrite delete_middle by assumption.
        destruct (IH done (rem - d)%Z
                     (moves ++ [{| from := fromProtocol; to := toP;
                                   amount := d |}]))
          as (done' & new & E & Hs & Hv & Hp & Hn & Hi & Hm).
        { rewrite keys_app in *. simpl in Hnd.
          eapply NoDup_remove_1. exact Hnd. }
        { assumption. }
        { lia. }
        exists done',
               ({| from := fromProtocol; to := toP; amount := d |} :: new).
        rewrite E. rewrite <- !app_assoc. simpl.
        split; [reflexivity|]. split; [lia|]. split; [lia|].
        split; [exact Hp|]. split; [exact Hn|].
        split.
        -- intros k Hk. right. apply Hi, Hk.
        -- constructor.
           ++ simpl. split; [exact Hd|]. split; [reflexivity | now left].
           ++ eapply Forall_impl; [|exact Hm]. simpl. tauto.
Qed.

(** The outer loop, from any deficits map and list of movements. *)
Lemma matchSurpluses_run : forall surpluses deficits moves,
  NoDup (keys deficits) ->
  Forall positive (values deficits) ->
  Forall positive (values surpluses) ->
  exists deficits' new,
    fold_left
      (fun acc entry =>
         let '(deficits, movements) := acc in
         let '(fromProtocol, surplusAmount) := entry in
         matchDeficits fromProtocol deficits surplusAmount deficits movements)
      surpluses (deficits, moves)
    = (deficits', moves ++ new) /\
    sumZ (map amount new)
    = Z.min (sumZ (values surpluses)) (sumZ (values deficits)) /\
    Forall (fun m => positive (amount m) /\ In (from m) (keys surpluses)
                     /\ In (to m) (keys deficits)) new.
Proof.
  induction surpluses as [|[fromP sAmt] rest IH];
    intros deficits moves Hnd Hd Hs.
  - exists deficits, []. simpl. rewrite app_nil_r.
    pose proof (sumZ_positive_nonneg _ Hd).
    split; [reflexivity|]. split; [lia | constructor].
  - inversion Hs as [|? ? Hs0 Hs']; subst. unfold positive in Hs0.
    pose proof (sumZ_positive_nonneg _ Hd) as Hdsum.
    pose proof (sumZ_positive_nonneg _ Hs') as Hssum.
    destruct (matchDeficits_run fromP deficits [] sAmt moves)
      as (d1 & new1 & E1 & Hsum1 & Hval1 & Hp1 & Hn1 & Hi1 & Hm1);
      [assumption | assumption | lia |].
    simpl in E1, Hn1. simpl fold_left. rewrite E1.
    destruct (IH d1 (moves ++ new1) Hn1 Hp1 Hs')
      as (d2 & new2 & E2 & Hsum2 & Hm2).
    exists d2, (new1 ++ new2).
    split; [rewrite app_assoc; exact E2|]. split.
    + rewrite map_app, sumZ_app, Hsum1, Hsum2, Hval1, Hsum1. simpl. lia.
    + apply Forall_app. split.
      * eapply Forall_impl; [|exact Hm1]. simpl.
        intros m (Ha & Hf & Ht). split; [exact Ha|]. split; [now left | exact Ht].
      * eapply Forall_impl; [|exact Hm2]. simpl.
        intros m (Ha & Hf & Ht). split; [exact Ha|].
        split; [now right | apply Hi1, Ht].
Qed.

Lemma in_keys_set {V} k k0 (v : V) (m : Map V) :
  In k0 (keys (set k v m)) -> k0 = k \/ In k0 (keys m).
Proof.
  rewrite keys_set. destruct (in_dec string_dec k (keys m)); [tauto|].
  rewrite in_app_iff. simpl. intuition.
Qed.

Lemma classify_classified positions targets totalValue :
  classified positions (classify positions targets totalValue).
Proof.
  unfold classify.
  assert (G : forall acc, classified positions acc ->
    classified positions
      (fold_left
         (fun acc entry =>
            let '(surpluses, deficits) := acc in
            let '(protocol, targetPercentage) := entry in
            match get protocol positions with
            | None => (surpluses, deficits)
            | Some position =>
                let targetAmount :=
                  Z.quot (totalValue * Math_round (targetPercentage * 100))
                         10000 in
                let difference := (targetAmount - currentAmount position)%Z in
                if (0 <? difference)%Z then
                  (surpluses, set protocol difference deficits)
                else if (difference <? 0)%Z then
                  (set protocol (- difference)%Z surpluses, deficits)
                else (surpluses, deficits)
            end) targets acc)).
  { induction targets as [|[p t] targets IH]; intros [su de] Hc;
      [exact Hc|].
    simpl fold_left. apply IH.
    destruct Hc as (N1 & N2 & P1 & P2 & K). simpl in *.
    destruct (get p positions) as [pos|] eqn:Ep;
      [|repeat split; assumption].
    cbv zeta.
    set (diff := (Z.quot (totalValue * Math_round (t * 100)) 10000
                  - currentAmount pos)%Z).
    destruct (Z.ltb_spec 0 diff) as [Hpos|Hnpos].
    - unfold classified. simpl.
      split; [assumption|]. split; [now apply NoDup_keys_set|].
      split; [assumption|]. split; [now apply Forall_values_set|].
      intros k [Hk|Hk]; [apply K; now left|].
      apply in_keys_set in Hk. destruct Hk as [->|Hk]; [congruence|].
      apply K. now right.
    - destruct (Z.ltb_spec diff 0) as [Hneg|Hz].
      + unfold classified. simpl.
        split; [now apply NoDup_keys_set|]. split; [assumption|].
        split; [apply Forall_values_set; [unfold positive; lia | assumption]|].
        split; [assumption|].
        intros k [Hk|Hk]; [|apply K; now right].
        apply in_keys_set in Hk. destruct Hk as [->|Hk]; [congruence|].
        apply K. now left.
      + repeat split; assumption. }
  apply G. unfold classified. simpl.
  repeat split; try constructor. intros k [[]|[]].
Qed.

(** The planner's movements, described through the classification. *)
Lemma calculateRequiredMovements_run positions strategy totalValue :
  let sd := classify positions (targetAllocations strategy) totalValue in
  let movements := calculateRequiredMovements positions strategy totalValue in
  sumZ (map amount movements)
  = Z.min (sumZ (values (fst sd))) (sumZ (values (snd sd))) /\
  Forall (fun m => positive (amount m) /\ In (from m) (keys (fst sd))
                   /\ In (to m) (keys (snd sd))) movements.
Proof.
  intros sd movements. subst movements. unfold calculateRequiredMovements.
  pose proof (classify_classified positions (targetAllocations strategy)
                totalValue) as Hc.
  fold sd in Hc. fold sd. destruct sd as [su de].
  destruct Hc as (N1 & N2 & P1 & P2 & K). simpl in *.
  destruct (matchSurpluses_run su de [] N2 P2 P1) as (d' & new & E & Hs & Hm).
  unfold matchSurpluses. rewrite E. simpl. split; assumption.
Qed.

(** The two maps built by the classification loop hold, in total, the
    surplus and the deficit of the portfolio against the targets. *)
Lemma classify_totals positions targets totalValue :
  NoDup (keys targets) ->
  let sd := classify positions targets totalValue in
  sumZ (values (fst sd)) = totalSurplus positions targets totalValue /\
  sumZ (values (snd sd)) = totalDeficit positions targets totalValue.
Proof.
  unfold classify, totalSurplus, totalDeficit.
  assert (G : forall l acc,
    NoDup (keys l) ->
    (forall k, In k (keys (fst acc)) \/ In k (keys (snd acc)) ->
               ~ In k (keys l)) ->
    let sd :=
      fold_left
        (fun acc entry =>
           let '(surpluses, deficits) := acc in
           let '(protocol, targetPercentage) := entry in
           match get protocol positions with
           | None => (surpluses, deficits)
           | Some position =>
               let targetAmount :=
                 Z.quot (totalValue * Math_round (targetPercentage * 100))
                        10000 in
               let difference := (targetAmount - currentAmount position)%Z in
               if (0 <? difference)%Z then
                 (surpluses, set protocol difference deficits)
               else if (difference <? 0)%Z then
                 (set protocol (- difference)%Z surpluses, deficits)
               else (surpluses, deficits)
           end) l acc in
    sumZ (values (fst sd))
    = (sumZ (values (fst acc))
       + sumZ (map (surplusOf positions totalValue) l))%Z /\
    sumZ (values (snd sd))
    = (sumZ (values (snd acc))
       + sumZ (map (deficitOf positions totalValue) l))%Z).
  { induction l as [|[p t] l IH]; intros [su de] Hnd Hfresh.
    - simpl. lia.
    - simpl in Hnd. inversion Hnd as [|? ? Hp Hnd']; subst.
      simpl fold_left.
      change (sumZ (map (surplusOf positions totalValue) ((p, t) :: l)))
        with (surplusOf positions totalValue (p, t)
              + sumZ (map (surplusOf positions totalValue) l))%Z.
      change (sumZ (map (deficitOf positions totalValue) ((p, t) :: l)))
        with (deficitOf positions totalValue (p, t)
              + sumZ (map (deficitOf positions totalValue) l))%Z.
      unfold surplusOf at 1, deficitOf at 1, targetAmountOf. simpl fst.
      simpl snd.
      assert (Hsu : ~ In p (keys su)).
      { intros Hin. apply (Hfresh p); [now left | now left]. }
      assert (Hde : ~ In p (keys de)).
      { intros Hin. apply (Hfresh p); [now right | now left]. }
      assert (Hrest : forall k, In k (keys su) \/ In k (keys de) ->
                                ~ In k (keys l)).
      { intros k Hk Hin. apply (Hfresh k Hk). now right. }
      destruct (get p positions) as [pos|] eqn:Ep.
      + cbv zeta.
        set (diff := (Z.quot (totalValue * Math_round (t * 100)) 10000
                      - currentAmount pos)%Z).
        destruct (Z.ltb_spec 0 diff) as [Hpos|Hnpos].
        * destruct (IH (su, set p diff de) Hnd') as [E1 E2].
          { simpl. intros k [Hk|Hk]; [apply Hrest; now left|].
            apply in_keys_set in Hk. destruct Hk as [->|Hk];
              [exact Hp | apply Hrest; now right]. }
          cbv zeta in E1, E2. rewrite E1, E2. simpl fst. simpl snd.
          rewrite (set_fresh _ _ _ Hde), values_app, sumZ_app. simpl.
          subst diff. lia.
        * destruct (Z.ltb_spec diff 0) as [Hneg|Hz].
          -- destruct (IH (set p (- diff)%Z su, de) Hnd') as [E1 E2].
             { simpl. intros k [Hk|Hk]; [|apply Hrest; now right].
               apply in_keys_set in Hk. destruct Hk as [->|Hk];
                 [exact Hp | apply Hrest; now left]. }
             cbv zeta in E1, E2. rewrite E1, E2. simpl fst. simpl snd.
             rewrite (set_fresh _ _ _ Hsu), values_app, sumZ_app. simpl.
             subst diff. lia.
          -- destruct (IH (su, de) Hnd' Hrest) as [E1 E2].
             cbv zeta in E1, E2. rewrite E1, E2. simpl fst. simpl snd. subst diff. lia.
      + destruct (IH (su, de) Hnd' Hrest) as [E1 E2].
        cbv zeta in E1, E2. rewrite E1, E2. simpl fst. simpl snd. lia. }
  intros Hnd. apply (G targets ([], []) Hnd). simpl. intros k [[]|[]].
Qed.

(** C5: for a target map with one entry per protocol, the amounts of the
    planned movements add up to the minimum of the total surplus and the
    total deficit of the held protocols against their targets (both read
    off the positions and the targets), and no movement has amount 0. *)
Theorem movement_conservation positions strategy totalValue :
  NoDup (keys (targetAllocations strategy)) ->
  let movements := calculateRequiredMovements positions strategy totalValue in
  sumZ (map amount movements)
  = Z.min (totalSurplus positions (targetAllocations strategy) totalValue)
          (totalDeficit positions (targetAllocations strategy) totalValue) /\
  Forall (fun m => amount m <> 0%Z) movements.
Proof.
  intros Hnd movements.
  destruct (calculateRequiredMovements_run positions strategy totalValue)
    as [Hsum Hall].
  destruct (classify_totals positions (targetAllocations strategy)
              totalValue Hnd) as [Esu Ede].
  split.
  - subst movements. rewrite Hsum. cbv zeta. now rewrite Esu, Ede.
  - eapply Forall_impl; [|exact Hall]. simpl.
    intros m (Hp & _). unfold positive in Hp. lia.
Qed.

Lemma movement_conservation_witness :
  let movements :=
    calculateRequiredMovements positions_70_30 strategy_40_60
      (getTotalPortfolioValue positions_70_30) in
  sumZ (map amount movements)
  = Z.min (totalSurplus positions_70_30 (targetAllocations strategy_40_60)
             (getTotalPortfolioValue positions_70_30))
          (totalDeficit positions_70_30 (targetAllocations strategy_40_60)
             (getTotalPortfolioValue positions_70_30)) /\
  Forall (fun m => amount m <> 0%Z) movements.
Proof.
  apply (movement_conservation positions_70_30 strategy_40_60
           (getTotalPortfolioValue positions_70_30)).
  simpl. repeat constructor; simpl; intuition discriminate.
Defined.

Lemma Math_round_IZR z : Math_round (IZR z) = z.
Proof.
  unfold Math_round. symmetry. apply Int_part_spec. lra.
Qed.

(** Scenario C of the specification: total value 100, targets 40 / 60,
    holdings 70 / 30: exactly one movement, of 30. *)
Example scenario_C :
  calculateRequiredMovements positions_70_30 strategy_40_60
    (getTotalPortfolioValue positions_70_30)
  = [{| from := "lido"; to := "etherfi"; amount := 30 |}].
Proof.
  unfold calculateRequiredMovements, classify. simpl.
  replace (40 * 100) with (IZR 4000) by lra.
  replace (60 * 100) with (IZR 6000) by lra.
  rewrite !Math_round_IZR. reflexivity.
Qed.

(** In the same scenario lido holds 30 above its target and etherfi 30
    below: total surplus and total deficit are both 30. *)
Example scenario_C_totals :
  totalSurplus positions_70_30 (targetAllocations strategy_40_60)
    (getTotalPortfolioValue positions_70_30) = 30%Z /\
  totalDeficit positions_70_30 (targetAllocations strategy_40_60)
    (getTotalPortfolioValue positions_70_30) = 30%Z.
Proof.
  unfold totalSurplus, totalDeficit, surplusOf, deficitOf, targetAmountOf.
  simpl.
  replace (40 * 100) with (IZR 4000) by lra.
  replace (60 * 100) with (IZR 6000) by lra.
  rewrite !Math_round_IZR. split; reflexivity.
Qed.

Lemma classify_restrict positions targets totalValue :
  classify positions
    (filter (fun entry => match get (fst entry) positions with
                          | Some _ => true
                          | None => false
                          end) targets) totalValue
  = classify positions targets totalValue.
Proof.
  unfold classify. generalize (@nil (string * Z), @nil (string * Z)).
  induction targets as [|[p t] targets IH]; intros acc; [reflexivity|].
  simpl filter. simpl fold_left at 2. destruct acc as [su de].
  destruct (get p positions) as [pos|] eqn:Ep.
  - simpl fold_left. rewrite Ep. apply IH.
  - apply IH.
Qed.

(** C4 (amended): no strategy is rejected.  Targets naming a protocol
    without a position are skipped: the movements planned are those of the
    strategy restricted to the protocols with positions, and every movement
    runs between two protocols that have positions.  The sum of the targets
    is not examined. *)
Theorem unknown_protocols_are_skipped positions strategy totalValue :
  calculateRequiredMovements positions strategy totalValue
  = calculateRequiredMovements positions
      (restrictToPositions positions strategy) totalValue /\
  Forall (fun m => get (from m) positions <> None
                   /\ get (to m) positions <> None)
         (calculateRequiredMovements positions strategy totalValue).
Proof.
  split.
  - unfold calculateRequiredMovements, restrictToPositions. simpl.
    now rewrite classify_restrict.
  - destruct (calculateRequiredMovements_run positions strategy totalValue)
      as [_ Hall].
    destruct (classify_classified positions (targetAllocations strategy)
                totalValue) as (_ & _ & _ & _ & K).
    eapply Forall_impl; [|exact Hall]. simpl.
    intros m (_ & Hf & Ht). split; apply K; [now left | now right].
Qed.

(** C4 (as stated) fails: with positions lido 70 / etherfi 30 and targets
    lido 40, etherfi 80, aave 10 (sum 130, aave unknown) the planner still
    emits the movement lido -> etherfi of 30. *)
Lemma invalid_strategy_is_planned :
  invalid_strategy positions_70_30 strategy_130 /\
  100 < sumR (values (targetAllocations strategy_130)) /\
  get "aave" positions_70_30 = None /\
  calculateRequiredMovements positions_70_30 strategy_130
    (getTotalPortfolioValue positions_70_30)
  = [{| from := "lido"; to := "etherfi"; amount := 30 |}].
Proof.
  split; [left; simpl; lra|]. split; [simpl; lra|]. split; [reflexivity|].
  - unfold calculateRequiredMovements, classify. simpl.
    replace (40 * 100) with (IZR 4000) by lra.
    replace (80 * 100) with (IZR 8000) by lra.
    rewrite !Math_round_IZR. reflexivity.
Qed.

(** ** Position store *)

Lemma fold_left_Zplus {A} (f : A -> Z) (l : list A) : forall acc,
  fold_left (fun s x => (s + f x)%Z) l acc = (acc + sumZ (map f l))%Z.
Proof.
  induction l as [|x l IH]; simpl; intros acc; [lia|].
  rewrite IH. lia.
Qed.

Lemma getTotalPortfolioValue_sum positions :
  getTotalPortfolioValue positions
  = sumZ (map (fun e => currentAmount (snd e)) positions).
Proof.
  unfold getTotalPortfolioValue, values.
  rewrite fold_left_Zplus, map_map. lia.
Qed.

Lemma total_set k p p' (m : Map PortfolioPosition) :
  get k m = Some p ->
  getTotalPortfolioValue (set k p' m)
  = (getTotalPortfolioValue m - currentAmount p + currentAmount p')%Z.
Proof.
  rewrite !getTotalPortfolioValue_sum.
  induction m as [|[k0 p0] m IH]; simpl; [discriminate|].
  destruct (String.eqb_spec k k0) as [->|Hne]; simpl.
  - intros [= ->]. lia.
  - intros H. rewrite IH by assumption. lia.
Qed.

Lemma get_map_values {V} (f : V -> V) k (m : Map V) :
  get k (map (fun e => let '(k0, v) := e in (k0, f v)) m)
  = option_map f (get k m).
Proof.
  induction m as [|[k0 v] m IH]; simpl; [reflexivity|].
  destruct (String.eqb k k0); [reflexivity | exact IH].
Qed.

Lemma updatePositionPercentages_get k positions :
  exists f,
    (forall p, currentAmount (f p) = currentAmount p
               /\ untouchedFields (f p) = untouchedFields p) /\
    get k (updatePositionPercentages positions)
    = option_map f (get k positions).
Proof.
  unfold updatePositionPercentages.
  destruct (getTotalPortfolioValue positions =? 0)%Z.
  - exists (fun p => p). split; [now split|]. now destruct (get k positions).
  - eexists. split; [|apply (get_map_values _ k positions)].
    intros p. split; reflexivity.
Qed.

Lemma updatePositionPercentages_total positions :
  getTotalPortfolioValue (updatePositionPercentages positions)
  = getTotalPortfolioValue positions.
Proof.
  unfold updatePositionPercentages.
  destruct (getTotalPortfolioValue positions =? 0)%Z; [reflexivity|].
  rewrite !getTotalPortfolioValue_sum, map_map.
  apply f_equal, map_ext. now intros [k p].
Qed.

(** C10: when both protocols of a movement have positions, the update
    subtracts the amount from the source position and adds it to the
    destination position, leaves the amount of every other position and the
    remaining fields of all positions as they were, and so keeps the total
    portfolio value. *)
Theorem updatePositionAmounts_frame fromP toP amt positions pf pt :
  get fromP positions = Some pf ->
  get toP positions = Some pt ->
  let positions' := updatePositionAmounts fromP toP amt positions in
  (forall k,
     option_map currentAmount (get k positions')
     = option_map
         (fun p => (currentAmount p
                    - (if String.eqb k fromP then amt else 0)
                    + (if String.eqb k toP then amt else 0))%Z)
         (get k positions)) /\
  (fromP <> toP ->
   option_map currentAmount (get fromP positions')
   = Some (currentAmount pf - amt)%Z /\
   option_map currentAmount (get toP positions')
   = Some (currentAmount pt + amt)%Z) /\
  (forall k, k <> fromP -> k <> toP ->
     option_map currentAmount (get k positions')
     = option_map currentAmount (get k positions)) /\
  (forall k,
     option_map untouchedFields (get k positions')
     = option_map untouchedFields (get k positions)) /\
  getTotalPortfolioValue positions' = getTotalPortfolioValue positions.
Proof.
  intros Hf Ht positions'. subst positions'. unfold updatePositionAmounts.
  rewrite Hf.
  set (m1 := set fromP (withCurrentAmount pf (currentAmount pf - amt)%Z)
                 positions).
  assert (Ht1 : exists pt1, get toP m1 = Some pt1 /\
            currentAmount pt1
            = (currentAmount pt - (if String.eqb toP fromP then amt else 0))%Z
            /\ untouchedFields pt1 = untouchedFields pt).
  { unfold m1. destruct (String.eqb_spec toP fromP) as [->|Hne].
    - rewrite get_set_same. eexists. split; [reflexivity|]. simpl.
      rewrite Hf in Ht. injection Ht as ->. now split.
    - rewrite get_set_other by assumption. exists pt.
      split; [assumption|]. split; [lia | reflexivity]. }
  destruct Ht1 as (pt1 & Ht1 & Hamt1 & Hfr1). rewrite Ht1.
  set (m2 := set toP (withCurrentAmount pt1 (currentAmount pt1 + amt)%Z) m1).
  assert (A : forall k,
     option_map currentAmount (get k m2)
     = option_map
         (fun p => (currentAmount p
                    - (if String.eqb k fromP then amt else 0)
                    + (if String.eqb k toP then amt else 0))%Z)
         (get k positions)).
  { intros k. unfold m2.
    destruct (String.eqb_spec k toP) as [->|HkT].
    - rewrite get_set_same, Ht. simpl. f_equal. lia.
    - rewrite get_set_other by assumption. unfold m1.
      destruct (String.eqb_spec k fromP) as [->|HkF].
      + rewrite get_set_same, Hf. simpl. f_equal. lia.
      + rewrite get_set_other by assumption.
        destruct (get k positions); simpl; [f_equal; lia | reflexivity]. }
  assert (U : forall k,
     option_map untouchedFields (get k m2)
     = option_map untouchedFields (get k positions)).
  { intros k. unfold m2.
    destruct (String.eqb_spec k toP) as [->|HkT].
    - rewrite get_set_same, Ht. simpl. f_equal. exact Hfr1.
    - rewrite get_set_other by assumption. unfold m1.
      destruct (String.eqb_spec k fromP) as [->|HkF].
      + now rewrite get_set_same, Hf.
      + now rewrite get_set_other by assumption. }
  assert (A' : forall k,
     option_map currentAmount (get k (updatePositionPercentages m2))
     = option_map currentAmount (get k m2)).
  { intros k. destruct (updatePositionPercentages_get k m2) as (f & Hfp & ->).
    destruct (get k m2); simpl; [|reflexivity]. f_equal. apply Hfp. }
  split; [intros k; now rewrite A', A|]. split.
  - intros Hne. rewrite !A', !A, Hf, Ht. simpl.
    rewrite !String.eqb_refl.
    destruct (String.eqb_spec fromP toP); [contradiction|].
    destruct (String.eqb_spec toP fromP); [congruence|].
    split; f_equal; lia.
  - split.
    + intros k HkF HkT. rewrite A', A.
      destruct (String.eqb_spec k fromP); [contradiction|].
      destruct (String.eqb_spec k toP); [contradiction|].
      destruct (get k positions); simpl; [f_equal; lia | reflexivity].
    + split.
      * intros k. rewrite <- U.
        destruct (updatePositionPercentages_get k m2) as (f & Hfp & ->).
        destruct (get k m2); simpl; [|reflexivity]. f_equal. apply Hfp.
      * rewrite updatePositionPercentages_total. unfold m2.
        rewrite (total_set _ _ _ _ Ht1). unfold m1.
        rewrite (total_set _ _ _ _ Hf). simpl. lia.
Qed.

(** ** Rebalance executor *)

Section ModifyNth.
Context {A : Type} (f : A -> A).

Lemma length_modifyNth n (l : list A) :
  List.length (modifyNth n f l) = List.length l.
Proof.
  revert n. induction l as [|x l IH]; intros [|n]; simpl; auto.
Qed.

Lemma nth_error_modifyNth_same n (l : list A) :
  nth_error (modifyNth n f l) n = option_map f (nth_error l n).
Proof.
  revert n. induction l as [|x l IH]; intros [|n]; simpl; auto.
Qed.

Lemma nth_error_modifyNth_other n m (l : list A) :
  m <> n -> nth_error (modifyNth n f l) m = nth_error l m.
Proof.
  revert n m.
  induction l as [|x l IH]; intros [|n] [|m] H; simpl; auto; congruence.
Qed.

End ModifyNth.

Section ExecutorFacts.
Context {W : Type} (svc : Services W).

(** One movement: the call returns normally, emits one of the five
    traces, and touches no transaction but its own. *)
Lemma executeMovement_run mv ref this w t :
  nth_error (txObjects this) ref = Some t ->
  exists this' w' trace X t',
    executeMovement svc mv ref this w = (inl tt, this', w', trace) /\
    MovementTrace mv ref trace X /\
    List.length (txObjects this') = List.length (txObjects this) /\
    nth_error (txObjects this') ref = Some t' /\
    status t' = X /\ sameMovement t t' /\
    (forall r, r <> ref ->
       nth_error (txObjects this') r = nth_error (txObjects this) r).
Proof.
  intros Ht.
  unfold executeMovement, tryCatch, bind, setStatus, unstake, wait, stake,
    throw, setTxHash, modifyPositions.
  destruct (executeUnstake svc (from mv) (amount mv) w) as [r1 w1] eqn:E1.
  assert (Fin : forall (objs : list RebalanceTransaction) g,
            nth_error objs ref = Some (g t) -> sameMovement t (g t) ->
            List.length objs = List.length (txObjects this) ->
            (forall r, r <> ref -> nth_error objs r
                                   = nth_error (txObjects this) r) ->
            forall X,
            nth_error (modifyNth ref (withStatus X) objs) ref
            = Some (withStatus X (g t)) /\
            sameMovement t (withStatus X (g t)) /\
            List.length (modifyNth ref (withStatus X) objs)
            = List.length (txObjects this) /\
            (forall r, r <> ref ->
               nth_error (modifyNth ref (withStatus X) objs) r
               = nth_error (txObjects this) r)).
  { intros objs g Hg Hs Hl Ho X.
    rewrite nth_error_modifyNth_same, Hg, length_modifyNth.
    split; [reflexivity|]. split; [exact Hs|]. split; [exact Hl|].
    intros r Hr. rewrite nth_error_modifyNth_other by assumption. auto. }
  pose proof (Fin (txObjects this) (fun x => x) Ht
                  (conj eq_refl (conj eq_refl (conj eq_refl eq_refl)))
                  eq_refl (fun _ _ => eq_refl) executing)
    as (G1 & S1 & L1 & O1).
  destruct r1 as [h1|]; simpl.
  2:{ destruct (Fin _ (withStatus executing) G1 S1 L1 O1 failed)
        as (G & S & L & O).
      do 5 eexists. split; [reflexivity|]. simpl.
      split; [now apply UnstakeRefused|]. split; [exact L|].
      split; [exact G|]. split; [reflexivity|]. split; [exact S | exact O]. }
  destruct (String.eqb h1 "") eqn:Eh1; simpl.
  { destruct (Fin _ (withStatus executing) G1 S1 L1 O1 failed)
      as (G & S & L & O).
    do 5 eexists. split; [reflexivity|]. simpl.
    split; [apply UnstakeRefused; exact Eh1|]. split; [exact L|].
    split; [exact G|]. split; [reflexivity|]. split; [exact S | exact O]. }
  destruct (waitForTransaction svc h1 w1) as [ok1 w2] eqn:E2.
  destruct ok1; simpl.
  2:{ destruct (Fin _ (withStatus executing) G1 S1 L1 O1 failed)
        as (G & S & L & O).
      do 5 eexists. split; [reflexivity|]. simpl.
      split; [apply UnstakeUnconfirmed; exact Eh1|]. split; [exact L|].
      split; [exact G|]. split; [reflexivity|]. split; [exact S | exact O]. }
  destruct (executeStake svc (to mv) (amount mv) w2) as [r2 w3] eqn:E3.
  destruct r2 as [h2|]; simpl.
  2:{ destruct (Fin _ (withStatus executing) G1 S1 L1 O1 failed)
        as (G & S & L & O).
      do 5 eexists. split; [reflexivity|]. simpl.
      split; [now apply StakeRefused|]. split; [exact L|].
      split; [exact G|]. split; [reflexivity|]. split; [exact S | exact O]. }
  destruct (String.eqb h2 "") eqn:Eh2; simpl.
  { destruct (Fin _ (withStatus executing) G1 S1 L1 O1 failed)
      as (G & S & L & O).
    do 5 eexists. split; [reflexivity|]. simpl.
    split; [apply StakeRefused; [exact Eh1 | exact Eh2]|]. split; [exact L|].
    split; [exact G|]. split; [reflexivity|]. split; [exact S | exact O]. }
  assert (G2 : nth_error (modifyNth ref (withTxHash h2)
                 (modifyNth ref (withStatus executing) (txObjects this))) ref
               = Some (withTxHash h2 (withStatus executing t))).
  { now rewrite nth_error_modifyNth_same, G1. }
  assert (L2 : List.length (modifyNth ref (withTxHash h2)
                 (modifyNth ref (withStatus executing) (txObjects this)))
               = List.length (txObjects this)).
  { now rewrite length_modifyNth. }
  assert (O2 : forall r, r <> ref ->
            nth_error (modifyNth ref (withTxHash h2)
              (modifyNth ref (withStatus executing) (txObjects this))) r
            = nth_error (txObjects this) r).
  { intros r Hr. rewrite nth_error_modifyNth_other by assumption. auto. }
  destruct (waitForTransaction svc h2 w3) as [ok2 w4] eqn:E4.
  destruct ok2; simpl.
  - destruct (Fin _ (fun x => withTxHash h2 (withStatus executing x))
                  G2 S1 L2 O2 completed) as (G & S & L & O).
    do 5 eexists. split; [reflexivity|]. simpl.
    split; [apply MovementCompleted; [exact Eh1 | exact Eh2]|].
    split; [exact L|].
    split; [exact G|]. split; [reflexivity|]. split; [exact S | exact O].
  - destruct (Fin _ (fun x => withTxHash h2 (withStatus executing x))
                  G2 S1 L2 O2 failed) as (G & S & L & O).
    do 5 eexists. split; [reflexivity|]. simpl.
    split; [apply StakeUnconfirmed; [exact Eh1 | exact Eh2]|].
    split; [exact L|].
    split; [exact G|]. split; [reflexivity|]. split; [exact S | exact O].
Qed.

Lemma eventsOf_app ref l1 l2 :
  eventsOf ref (l1 ++ l2) = eventsOf ref l1 ++ eventsOf ref l2.
Proof. apply filter_app. Qed.

Lemma eventsOf_all ref l :
  Forall (fun e => eventTx e = ref) l -> eventsOf ref l = l.
Proof.
  induction 1 as [|e l He _ IH]; simpl; [reflexivity|].
  rewrite He, Nat.eqb_refl. now f_equal.
Qed.

Lemma eventsOf_none ref l :
  Forall (fun e => eventTx e <> ref) l -> eventsOf ref l = [].
Proof.
  induction 1 as [|e l He _ IH]; simpl; [reflexivity|].
  destruct (Nat.eqb_spec (eventTx e) ref); [contradiction | exact IH].
Qed.

Lemma in_eventsOf ref e l :
  In e l -> eventTx e = ref -> In e (eventsOf ref l).
Proof.
  intros Hin He. apply filter_In. split; [exact Hin|].
  now apply Nat.eqb_eq.
Qed.

Lemma MovementTrace_tagged mv ref trace X :
  MovementTrace mv ref trace X -> Forall (fun e => eventTx e = ref) trace.
Proof. destruct 1; repeat constructor. Qed.

(** The loop: every movement gets a fresh transaction, in order, and the
    events of that transaction are its creation followed by one of the
    five traces. *)
Lemma executeMovements_run mvs : forall acc this w,
  exists this' w' evs,
    executeMovements svc mvs acc this w
    = (inl (acc ++ seq (List.length (txObjects this)) (List.length mvs)),
       this', w', evs) /\
    List.length (txObjects this')
    = (List.length (txObjects this) + List.length mvs)%nat /\
    (forall r, (r < List.length (txObjects this))%nat ->
       nth_error (txObjects this') r = nth_error (txObjects this) r) /\
    Forall (fun e => (List.length (txObjects this) <= eventTx e)%nat) evs /\
    forall i mv,
      nth_error mvs i = Some mv ->
      exists t trace,
        nth_error (txObjects this') (List.length (txObjects this) + i)
        = Some t /\
        fromProtocol t = from mv /\ toProtocol t = to mv /\
        txAmount t = amount mv /\
        eventsOf (List.length (txObjects this) + i) evs
        = StatusSet (List.length (txObjects this) + i) pending :: trace /\
        MovementTrace mv (List.length (txObjects this) + i) trace (status t).
Proof.
  induction mvs as [|mv rest IH]; intros acc this w.
  - exists this, w, []. simpl. rewrite app_nil_r, Nat.add_0_r.
    split; [reflexivity|]. split; [reflexivity|]. split; [reflexivity|].
    split; [constructor|]. intros [|i] mv H; discriminate.
  - set (n := List.length (txObjects this)).
    simpl executeMovements. unfold bind at 1. unfold newTransaction.
    destruct (newTxId svc w) as [txId w0].
    destruct (getGasPrice svc w0) as [gas w1].
    fold n.
    set (t0 := {| id := txId; fromProtocol := from mv;
                  toProtocol := to mv; txAmount := amount mv;
                  txGasPrice := gas; estimatedGas := 0%Z;
                  status := pending; txHash := None |}).
    set (this0 := withPending _ _).
    assert (H0 : nth_error (txObjects this0) n = Some t0).
    { unfold this0. simpl. rewrite nth_error_app2 by (unfold n; lia).
      unfold n. now rewrite Nat.sub_diag. }
    assert (L0 : List.length (txObjects this0) = S n).
    { unfold this0. simpl. rewrite length_app. simpl. unfold n. lia. }
    destruct (executeMovement_run mv n this0 w1 t0 H0)
      as (this1 & w2 & trace & X & t1 & E1 & Htr & L1 & G1 & S1 & Same & O1).
    unfold bind. rewrite E1.
    destruct (IH (acc ++ [n]) this1 w2)
      as (this2 & w3 & evs2 & E2 & L2 & Old2 & Tag2 & Each2).
    rewrite L1, L0 in *.
    rewrite E2. exists this2, w3, ([StatusSet n pending] ++ trace ++ evs2).
    pose proof (MovementTrace_tagged _ _ _ _ Htr) as Tagged.
    split; [|split; [|split; [|split]]].
    + rewrite <- app_assoc. reflexivity.
    + simpl. lia.
    + intros r Hr. rewrite Old2 by lia. rewrite O1 by lia.
      unfold this0. simpl. apply nth_error_app1. exact Hr.
    + constructor; [simpl; lia|]. apply Forall_app. split.
      * eapply Forall_impl; [|exact Tagged]. simpl. intros e ->. lia.
      * eapply Forall_impl; [|exact Tag2]. simpl. intros e He. lia.
    + intros [|i] mv' Hmv; simpl in Hmv.
      * injection Hmv as <-. rewrite Nat.add_0_r.
        exists t1, trace. rewrite Old2 by lia.
        destruct Same as (_ & Sf & St & Sa).
        split; [exact G1|]. split; [exact Sf|]. split; [exact St|].
        split; [exact Sa|]. split.
        -- rewrite !eventsOf_app. simpl. rewrite Nat.eqb_refl.
           rewrite (eventsOf_all n trace Tagged).
           rewrite (eventsOf_none n evs2).
           ++ now rewrite app_nil_r.
           ++ eapply Forall_impl; [|exact Tag2]. simpl. intros e He. lia.
        -- rewrite S1. exact Htr.
      * destruct (Each2 i mv' Hmv) as (t & tr & Gt & Hf & Ht & Ha & Ev & MT).
        replace (S n + i)%nat with (n + S i)%nat in * by lia.
        exists t, tr.
        split; [exact Gt|]. split; [exact Hf|]. split; [exact Ht|].
        split; [exact Ha|]. split; [|exact MT].
        rewrite !eventsOf_app. simpl.
        destruct (Nat.eqb_spec n (n + S i)); [lia|].
        rewrite (eventsOf_none (n + S i) trace); [exact Ev|].
        eapply Forall_impl; [|exact Tagged]. simpl. intros e ->. lia.
Qed.

Lemma MovementTrace_refused mv ref trace X p a answer :
  MovementTrace mv ref trace X ->
  In (Unstaked ref p a answer) (StatusSet ref pending :: trace) ->
  isFalsy answer = true ->
  X = failed /\
  forall p' a' answer',
    ~ In (Staked ref p' a' answer') (StatusSet ref pending :: trace).
Proof.
  intros MT Hin Hf.
  destruct MT as [ans Hans | h Hh | h ans Hh Hans | h h' Hh Hh' | h h' Hh Hh'];
    simpl in Hin;
    repeat (destruct Hin as [Hin|Hin]; try discriminate Hin);
    try contradiction;
    injection Hin as <- <- <-; try congruence.
  split; [reflexivity|].
  intros p' a' answer' Hs. simpl in Hs.
  repeat (destruct Hs as [Hs|Hs]; try discriminate Hs). contradiction.
Qed.

Lemma MovementTrace_unstake mv ref trace X :
  MovementTrace mv ref trace X ->
  exists answer, In (Unstaked ref (from mv) (amount mv) answer) trace.
Proof. destruct 1; eexists; simpl; eauto. Qed.

Lemma statusHistory_eventsOf ref evs :
  statusHistory ref (eventsOf ref evs) = statusHistory ref evs.
Proof.
  induction evs as [|e evs IH]; simpl; [reflexivity|].
  destruct (Nat.eqb_spec (eventTx e) ref) as [He|He]; simpl.
  - now rewrite IH.
  - rewrite IH. destruct e; simpl in *; try reflexivity.
    destruct (Nat.eqb_spec tx ref); [contradiction | reflexivity].
Qed.

Lemma MovementTrace_history mv ref trace X :
  MovementTrace mv ref trace X ->
  statusHistory ref (StatusSet ref pending :: trace)
  = [pending; executing; X] /\ terminal X.
Proof.
  destruct 1; simpl; rewrite !Nat.eqb_refl; simpl;
    (split; [reflexivity | unfold terminal; tauto]).
Qed.

(** C3: whatever the list of movements, the loop of the executor creates
    and runs one transaction per movement, in order; each movement's
    withdrawal is submitted; and when the service answers a withdrawal with
    no reference, that movement's transaction ends as failed and no deposit
    is submitted for it. *)
Theorem failed_withdrawal_is_local mvs this w :
  exists this' w' evs,
    executeMovements svc mvs [] this w
    = (inl (seq (List.length (txObjects this)) (List.length mvs)),
       this', w', evs) /\
    forall i mv,
      nth_error mvs i = Some mv ->
      exists t,
        nth_error (txObjects this') (List.length (txObjects this) + i)
        = Some t /\
        fromProtocol t = from mv /\ toProtocol t = to mv /\
        txAmount t = amount mv /\
        (exists answer,
           In (Unstaked (List.length (txObjects this) + i)
                        (from mv) (amount mv) answer) evs) /\
        (forall p a answer,
           In (Unstaked (List.length (txObjects this) + i) p a answer) evs ->
           isFalsy answer = true ->
           status t = failed /\
           forall p' a' answer',
             ~ In (Staked (List.length (txObjects this) + i) p' a' answer')
                  evs).
Proof.
  destruct (executeMovements_run mvs [] this w)
    as (this' & w' & evs & E & _ & _ & _ & Each).
  exists this', w', evs. split; [exact E|].
  intros i mv Hmv.
  destruct (Each i mv Hmv) as (t & trace & Gt & Hf & Ht & Ha & Ev & MT).
  set (ref := (List.length (txObjects this) + i)%nat) in *.
  exists t. split; [exact Gt|]. split; [exact Hf|]. split; [exact Ht|].
  split; [exact Ha|]. split.
  - destruct (MovementTrace_unstake _ _ _ _ MT) as (answer & Hin).
    exists answer.
    assert (Hin' : In (Unstaked ref (from mv) (amount mv) answer)
                      (eventsOf ref evs)) by (rewrite Ev; now right).
    apply filter_In in Hin'. tauto.
  - intros p a answer Hin Hfalsy.
    apply (in_eventsOf ref) in Hin; [|reflexivity]. rewrite Ev in Hin.
    destruct (MovementTrace_refused _ _ _ _ _ _ _ MT Hin Hfalsy) as [HX Hno].
    split; [exact HX|].
    intros p' a' answer' Hs.
    apply (in_eventsOf ref) in Hs; [|reflexivity]. rewrite Ev in Hs.
    exact (Hno _ _ _ Hs).
Qed.

(** C7: for every transaction created by the executor, the statuses
    written to it are pending, executing and then completed or failed, in
    this order: every step is a transition of the state machine, the last
    status is the one the transaction keeps, it is terminal, and no status
    is written after a terminal one. *)
Theorem status_follows_state_machine mvs this w :
  exists this' w' evs,
    executeMovements svc mvs [] this w
    = (inl (seq (List.length (txObjects this)) (List.length mvs)),
       this', w', evs) /\
    forall i,
      (i < List.length mvs)%nat ->
      exists t,
        nth_error (txObjects this') (List.length (txObjects this) + i)
        = Some t /\
        let history :=
          statusHistory (List.length (txObjects this) + i) evs in
        (history = [pending; executing; completed]
         \/ history = [pending; executing; failed]) /\
        chained history /\
        last history pending = status t /\
        terminal (status t) /\
        (forall before s after,
           history = before ++ s :: after -> terminal s -> after = []).
Proof.
  destruct (executeMovements_run mvs [] this w)
    as (this' & w' & evs & E & _ & _ & _ & Each).
  exists this', w', evs. split; [exact E|].
  intros i Hi.
  destruct (nth_error mvs i) as [mv|] eqn:Hmv;
    [|apply nth_error_None in Hmv; lia].
  destruct (Each i mv Hmv) as (t & trace & Gt & _ & _ & _ & Ev & MT).
  set (ref := (List.length (txObjects this) + i)%nat) in *.
  exists t. split; [exact Gt|].
  cbv zeta. rewrite <- statusHistory_eventsOf, Ev.
  destruct (MovementTrace_history _ _ _ _ MT) as [-> Hterm].
  assert (Hchain : chained [pending; executing; status t]).
  { simpl. split; [constructor|]. split; [|exact I].
    destruct Hterm as [-> | ->]; constructor. }
  split; [destruct Hterm as [-> | ->]; tauto|].
  split; [exact Hchain|]. split; [reflexivity|]. split; [exact Hterm|].
  intros before s after Hsplit Hs.
  destruct before as [|b0 [|b1 [|b2 [|b3 before]]]]; simpl in Hsplit;
    injection Hsplit; intros; subst;
    try reflexivity;
    try (destruct Hs; discriminate);
    try (destruct before; discriminate).
Qed.

End ExecutorFacts.

(** [executeRebalance] runs the loop on the planned movements, returns
    the transaction objects it created and installs the new strategy. *)
Lemma executeRebalance_run {W} (svc : Services W) newStrategy this w :
  let movements :=
    calculateRequiredMovements (positions this) newStrategy
      (getTotalPortfolioValue (positions this)) in
  exists this1 w' evs,
    executeMovements svc movements [] this w
    = (inl (seq (List.length (txObjects this)) (List.length movements)),
       this1, w', evs) /\
    executeRebalance svc newStrategy this w
    = (inl (deref (txObjects this1)
                  (seq (List.length (txObjects this))
                       (List.length movements))),
       withCurrentStrategy newStrategy this1, w', evs).
Proof.
  intros movements.
  destruct (executeMovements_run svc movements [] this w)
    as (this1 & w' & evs & E & _).
  exists this1, w', evs. split; [exact E|].
  unfold executeRebalance, bind. fold movements. simpl in E. rewrite E.
  now rewrite app_nil_r.
Qed.

(** Scenario D of the specification on a concrete service: the withdrawal
    from lido is refused, the movement out of etherfi still completes. *)
Example scenario_D :
  let '(_, this', _, _) :=
    executeMovements lidoRefusing
      [{| from := "lido"; to := "etherfi"; amount := 30 |};
       {| from := "etherfi"; to := "lido"; amount := 5 |}]
      [] onTarget tt in
  map status (txObjects this') = [failed; completed].
Proof. reflexivity. Qed.

(** ** Rebalance decision gate *)

Lemma calculateRebalanceNeed_on_target this strategy :
  (forall p t,
     In (p, t) (targetAllocations strategy) ->
     or_else (option_map currentPercentage (get p (positions this))) 0 = t) ->
  calculateRebalanceNeed this strategy = 0.
Proof.
  intros H. unfold calculateRebalanceNeed.
  assert (G : forall l acc,
    (forall p t, In (p, t) l ->
       or_else (option_map currentPercentage (get p (positions this))) 0 = t) ->
    fold_left
      (fun totalDifference entry =>
         let '(protocol, targetPercentage) := entry in
         totalDifference
         + Rabs (targetPercentage
                 - or_else (option_map currentPercentage
                              (get protocol (positions this))) 0))
      l acc = acc).
  { induction l as [|[p t] l IH]; simpl; intros acc Hl; [reflexivity|].
    rewrite IH by (intros; apply Hl; now right).
    rewrite (Hl p t) by now left.
    rewrite Rminus_diag, Rabs_R0. lra. }
  rewrite G by exact H. lra.
Qed.

(** C8 (amended): called with the active strategy as candidate,
    [shouldRebalance] answers false when every target of that strategy
    equals the current percentage of the protocol's position (0 when it has
    none) and the rebalance threshold is not negative; the rebalance need
    is then 0. *)
Theorem shouldRebalance_current_on_target {W} (svc : Services W) this w :
  (forall p t,
     In (p, t) (targetAllocations (currentStrategy this)) ->
     or_else (option_map currentPercentage (get p (positions this))) 0 = t) ->
  0 <= rebalanceThreshold (currentStrategy this) ->
  calculateRebalanceNeed this (currentStrategy this) = 0 /\
  fst (shouldRebalance svc this (currentStrategy this) w) = false.
Proof.
  intros Htargets Hthreshold.
  pose proof (calculateRebalanceNeed_on_target _ _ Htargets) as Hneed.
  split; [exact Hneed|].
  unfold shouldRebalance, checkGasConditions. rewrite Hneed.
  destruct (getGasPrice svc w) as [gas w']. simpl.
  unfold gtb. destruct (Rgt_dec 0 (rebalanceThreshold (currentStrategy this)));
    [lra | reflexivity].
Qed.

Lemma shouldRebalance_current_on_target_witness :
  calculateRebalanceNeed onTarget (currentStrategy onTarget) = 0 /\
  fst (shouldRebalance lidoRefusing onTarget (currentStrategy onTarget) tt)
  = false.
Proof.
  apply (shouldRebalance_current_on_target lidoRefusing onTarget tt).
  - simpl. intros p t [H|[H|[]]]; injection H as <- <-; reflexivity.
  - simpl. lra.
Defined.

(** C8 (as stated) fails: right after construction, with the default
    strategy (lido 35, rocketpool 25, etherfi 25, morpho 15) active and the
    whole portfolio held in lido, the need is 1.3 > 0.05, the gas price 42
    is below the limit 50 and the risk score 3 is below 6, so the gate
    answers true for the active strategy itself. *)
Lemma shouldRebalance_current_can_be_true :
  fst (shouldRebalance lidoRefusing allInLido (currentStrategy allInLido) tt)
  = true.
Proof.
  unfold shouldRebalance, checkGasConditions, checkRiskThresholds,
    calculateRebalanceNeed. simpl.
  unfold gtb, leb, Rabs.
  repeat destruct Rcase_abs; try lra;
    repeat destruct Rgt_dec; repeat destruct Rle_dec;
    try reflexivity; exfalso; lra.
Qed.

(** ** Remaining witnesses *)

Lemma concentration_risk_witness :
  calculateConcentrationRisk twoEqualProtocols = 10 / INR 2.
Proof.
  destruct (concentration_risk_is_HHI_times_10 twoEqualProtocols)
    as (_ & _ & Hequal).
  - discriminate.
  - unfold totalTVL, Number. simpl. lra.
  - apply (Hequal 5%Z). repeat constructor.
Defined.

Lemma updatePositionAmounts_frame_witness :
  getTotalPortfolioValue
    (updatePositionAmounts "lido" "etherfi" 30 positions_70_30)
  = getTotalPortfolioValue positions_70_30.
Proof.
  exact (proj2 (proj2 (proj2 (proj2
           (updatePositionAmounts_frame "lido" "etherfi" 30 positions_70_30
              _ _ eq_refl eq_refl))))).
Defined.

(* ================================================================= *)
(** * Further properties of the code *)

(** ** Allocation optimizer: multipliers *)

Lemma tanh_range x : -1 < tanh x < 1.
Proof.
  unfold tanh, sinh, cosh.
  pose proof (exp_pos x) as Ha. pose proof (exp_pos (- x)) as Hb.
  set (a := exp x) in *. set (b := exp (- x)) in *.
  assert (E1 : (a - b) / 2 / ((a + b) / 2) = 1 - 2 * b / (a + b))
    by (field; lra).
  assert (E2 : (a - b) / 2 / ((a + b) / 2) = -1 + 2 * a / (a + b))
    by (field; lra).
  assert (0 < 2 * b / (a + b)) by (apply Rdiv_lt_0_compat; lra).
  assert (0 < 2 * a / (a + b)) by (apply Rdiv_lt_0_compat; lra).
  split; [rewrite E2 | rewrite E1]; lra.
Qed.

Lemma tanh_increasing x y : x < y -> tanh x < tanh y.
Proof.
  intros Hxy. unfold tanh, sinh, cosh. rewrite !exp_Ropp.
  pose proof (exp_pos x) as Ha. pose proof (exp_pos y) as Hb.
  pose proof (exp_increasing x y Hxy) as Hab.
  set (a := exp x) in *. set (b := exp y) in *.
  assert (E : (b - / b) / 2 / ((b + / b) / 2)
              - (a - / a) / 2 / ((a + / a) / 2)
              = 2 * (b * b - a * a) / ((a * a + 1) * (b * b + 1))).
  { field. repeat split; nra. }
  assert (0 < 2 * (b * b - a * a) / ((a * a + 1) * (b * b + 1)))
    by (apply Rdiv_lt_0_compat; nra).
  lra.
Qed.

(** X1: the performance multiplier stays strictly between 0.7 and 1.3, is
    exactly 1 at the baseline return 7, and grows with the return. *)
Theorem getPerformanceMultiplier_range :
  (forall r, 0.7 < getPerformanceMultiplier r < 1.3) /\
  getPerformanceMultiplier 7 = 1 /\
  (forall r1 r2, r1 < r2 ->
     getPerformanceMultiplier r1 < getPerformanceMultiplier r2).
Proof.
  unfold getPerformanceMultiplier. split; [|split].
  - intros r. pose proof (tanh_range ((r - 7) / 5)). lra.
  - replace ((7 - 7) / 5) with 0 by lra.
    assert (E : tanh 0 = 0).
    { unfold tanh, sinh. rewrite Ropp_0, exp_0. lra. }
    rewrite E. lra.
  - intros r1 r2 H.
    assert (tanh ((r1 - 7) / 5) < tanh ((r2 - 7) / 5))
      by (apply tanh_increasing; lra).
    lra.
Qed.

(** X2: the risk multiplier never drops below 0.5 (conservative) or 0.7
    (moderate) and never exceeds 1.5 (aggressive); for a risk score between
    0 and 10 it lies in [0.8, 1] (conservative), [0.9, 1] (moderate) and
    [1, 1.1] (aggressive). *)
Theorem getRiskMultiplier_range :
  (forall risk, 0.5 <= getRiskMultiplier conservative risk) /\
  (forall risk, 0.7 <= getRiskMultiplier moderate risk) /\
  (forall risk, getRiskMultiplier aggressive risk <= 1.5) /\
  (forall risk, 0 <= risk <= 10 ->
     0.8 <= getRiskMultiplier conservative risk <= 1 /\
     0.9 <= getRiskMultiplier moderate risk <= 1 /\
     1 <= getRiskMultiplier aggressive risk <= 1.1).
Proof.
  unfold getRiskMultiplier, Rmax, Rmin.
  repeat split; intros; repeat destruct Rle_dec; lra.
Qed.

(** ** Allocation optimizer: the returned strategy *)

Lemma in_keys_set_iff {V} k k0 (v : V) (m : Map V) :
  In k0 (keys (set k v m)) <-> k0 = k \/ In k0 (keys m).
Proof.
  rewrite keys_set. destruct (in_dec string_dec k (keys m)) as [Hin|Hnin].
  - split; [tauto|]. intros [->|H]; assumption.
  - rewrite in_app_iff. simpl. intuition.
Qed.

Lemma riskAdjustedReturns_keys md n :
  In n (keys (riskAdjustedReturns md)) <-> In n (keys (protocolAPRs md)).
Proof.
  unfold riskAdjustedReturns.
  assert (G : forall l acc,
    In n (keys (fold_left
      (fun acc entry => let '(protocolName, apr) := entry in
         set protocolName
           (apr * (1 - or_else (get protocolName (protocolRisks md)) 0 / 100))
           acc) l acc))
    <-> In n (keys acc) \/ In n (keys l)).
  { induction l as [|[k v] l IH]; simpl; intros acc; [tauto|].
    rewrite IH, in_keys_set_iff. intuition. }
  rewrite G. simpl. tauto.
Qed.

Lemma targetAllocations_keys env cur md :
  keys (targetAllocations (optimizeAllocation env cur md))
  = keys (sortDesc (riskAdjustedReturns md)).
Proof.
  simpl. rewrite calculateOptimalAllocations_appended. apply appended_keys.
Qed.

(** X3: the returned allocation map has one entry for each protocol of the
    snapshot's yield map and no entry for any other protocol. *)
Theorem optimizer_allocates_exactly_the_snapshot_protocols env cur md :
  NoDup (keys (targetAllocations (optimizeAllocation env cur md))) /\
  forall n,
    In n (keys (targetAllocations (optimizeAllocation env cur md)))
    <-> In n (keys (protocolAPRs md)).
Proof.
  rewrite targetAllocations_keys. split.
  - apply sortDesc_NoDup, riskAdjustedReturns_NoDup.
  - intros n. rewrite <- riskAdjustedReturns_keys.
    split; apply Permutation_in; unfold keys; apply Permutation_map;
      [|symmetry]; apply sortDesc_perm.
Qed.

Lemma insertDesc_sorted x l :
  StronglySorted byReturn l -> StronglySorted byReturn (insertDesc x l).
Proof.
  induction 1 as [|y l Hs IH Hy]; simpl.
  - repeat constructor.
  - destruct (Rgt_dec (snd y) (snd x)) as [Hgt|Hle].
    + constructor; [exact IH|].
      eapply Permutation_Forall; [symmetry; apply insertDesc_perm|].
      constructor; [unfold byReturn; lra | exact Hy].
    + constructor; [constructor; assumption|].
      constructor; [unfold byReturn; lra|].
      eapply Forall_impl; [|exact Hy]. unfold byReturn. intros z Hz. lra.
Qed.

Lemma sortDesc_sorted l : StronglySorted byReturn (sortDesc l).
Proof.
  induction l as [|x l IH]; simpl; [constructor|].
  now apply insertDesc_sorted.
Qed.

Lemma appended_sorted tol md l : forall rem,
  StronglySorted byReturn l ->
  (forall n r, In (n, r) l -> returnOf md n = r) ->
  StronglySorted (fun x y => returnOf md (fst x) >= returnOf md (fst y))
                 (appended tol md l rem).
Proof.
  induction l as [|[n r] l IH]; simpl; intros rem Hs Hret; [constructor|].
  inversion Hs as [|? ? Hs' Hall]; subst.
  constructor; [apply IH; auto|].
  apply Forall_forall. intros [n' a'] Hin. simpl.
  assert (Hk : In n' (keys l)).
  { rewrite <- (appended_keys tol md l
                  (rem - Rmin (rawAllocation tol md n r) rem)).
    eapply in_keys. exact Hin. }
  unfold keys in Hk. apply in_map_iff in Hk.
  destruct Hk as ([n'' r'] & Hn & Hin'). simpl in Hn. subst n''.
  rewrite Forall_forall in Hall. specialize (Hall _ Hin').
  unfold byReturn in Hall. simpl in Hall.
  rewrite (Hret n r) by now left. rewrite (Hret n' r') by now right.
  exact Hall.
Qed.

(** X4: the allocation map lists the protocols by non-increasing
    risk-adjusted return: every entry belongs to a protocol whose
    risk-adjusted return is at least that of each later entry. *)
Theorem allocations_ordered_by_return env cur md :
  StronglySorted (fun x y => returnOf md (fst x) >= returnOf md (fst y))
                 (targetAllocations (optimizeAllocation env cur md)).
Proof.
  simpl. rewrite calculateOptimalAllocations_appended.
  apply appended_sorted; [apply sortDesc_sorted|].
  intros n r Hin. unfold returnOf.
  rewrite (in_get n r); [reflexivity | apply riskAdjustedReturns_NoDup|].
  eapply Permutation_in; [apply sortDesc_perm | exact Hin].
Qed.

Lemma rawAllocation_nonneg tol md n r :
  tol <> aggressive -> 0 <= rawAllocation tol md n r.
Proof.
  intros Htol. unfold rawAllocation.
  assert (Hp : 0.7 < getPerformanceMultiplier r).
  { unfold getPerformanceMultiplier.
    pose proof (tanh_range ((r - 7) / 5)). lra. }
  set (risk := or_else (get n (protocolRisks md)) 0).
  assert (Hb : 15 <= getBaseAllocation n).
  { unfold getBaseAllocation.
    destruct (String.eqb n "lido"); [lra|].
    destruct (String.eqb n "rocketpool"); [lra|].
    destruct (String.eqb n "etherfi"); [lra|].
    destruct (String.eqb n "morpho"); lra. }
  assert (Hr : 0.5 <= getRiskMultiplier tol risk).
  { destruct tol; simpl; [apply Rmax_l | | contradiction].
    eapply Rle_trans; [|apply Rmax_l]. lra. }
  apply Rmult_le_pos; [apply Rmult_le_pos|]; lra.
Qed.

Lemma appended_bounds tol md l : forall rem,
  (forall n r, 0 <= rawAllocation tol md n r) ->
  0 <= rem ->
  Forall (fun e => 0 <= snd e <= rem) (appended tol md l rem).
Proof.
  induction l as [|[n r] l IH]; simpl; intros rem Hraw Hrem; [constructor|].
  set (a := Rmin (rawAllocation tol md n r) rem).
  assert (Ha : 0 <= a <= rem).
  { unfold a. split; [apply Rmin_glb; auto | apply Rmin_r]. }
  constructor; [simpl; lra|].
  eapply Forall_impl; [|apply (IH (rem - a) Hraw); lra].
  simpl. intros e He. lra.
Qed.

(** X5: under the conservative and the moderate tolerance every target
    allocation of the returned strategy lies between 0 and 100. *)
Theorem allocations_between_0_and_100 env cur md :
  riskTolerance cur <> aggressive ->
  Forall (fun e => 0 <= snd e <= 100)
         (targetAllocations (optimizeAllocation env cur md)).
Proof.
  intros Htol. simpl. rewrite calculateOptimalAllocations_appended.
  apply appended_bounds; [|lra].
  intros n r. now apply rawAllocation_nonneg.
Qed.

Lemma allocations_between_0_and_100_witness :
  Forall (fun e => 0 <= snd e <= 100)
         (targetAllocations
            (optimizeAllocation None (defaultStrategy None moderate)
                                md_etherfi)).
Proof.
  apply allocations_between_0_and_100. discriminate.
Defined.

(** X6: for a positive base threshold the adjusted gas threshold stays
    within 20% of the base, and it never rises when the current gas price
    rises: cheap gas gives the highest ceiling, expensive gas the lowest. *)
Theorem adjustGasThreshold_band_and_direction env :
  0 < baseThreshold env ->
  (forall g, 0.8 * baseThreshold env <= adjustGasThreshold env g
             <= 1.2 * baseThreshold env) /\
  (forall g1 g2, g1 <= g2 ->
     adjustGasThreshold env g2 <= adjustGasThreshold env g1).
Proof.
  intros Hb. unfold adjustGasThreshold, ltb, gtb.
  set (b := baseThreshold env) in *. split.
  - intros g. destruct Rlt_dec; [lra|]. destruct Rgt_dec; lra.
  - intros g1 g2 Hg.
    repeat destruct Rlt_dec; repeat destruct Rgt_dec; lra.
Qed.

Lemma adjustGasThreshold_witness :
  (forall g, 0.8 * baseThreshold None <= adjustGasThreshold None g
             <= 1.2 * baseThreshold None) /\
  (forall g1 g2, g1 <= g2 ->
     adjustGasThreshold None g2 <= adjustGasThreshold None g1).
Proof.
  apply adjustGasThreshold_band_and_direction. simpl. lra.
Defined.

Lemma calculateExpectedAPR_sum allocations aprs :
  calculateExpectedAPR allocations aprs
  = sumR (map (fun e => snd e / 100 * or_else (get (fst e) aprs) 0)
              allocations).
Proof.
  unfold calculateExpectedAPR.
  assert (G : forall l acc,
    fold_left
      (fun weightedAPR entry =>
         let '(protocol, allocation) := entry in
         weightedAPR + allocation / 100 * or_else (get protocol aprs) 0)
      l acc
    = acc + sumR (map (fun e => snd e / 100 * or_else (get (fst e) aprs) 0)
                      l)).
  { induction l as [|[n a] l IH]; simpl; intros acc; [lra|].
    rewrite IH. lra. }
  rewrite G. lra.
Qed.

(** X7: under the conservative and the moderate tolerance, when every
    yield of the snapshot lies between 0 and [A], the expected yield of the
    returned strategy lies between 0 and [A] as well. *)
Theorem expectedAPR_within_snapshot_yields env cur md A :
  riskTolerance cur <> aggressive ->
  0 <= A ->
  Forall (fun apr => 0 <= apr <= A) (values (protocolAPRs md)) ->
  0 <= expectedAPR (optimizeAllocation env cur md) <= A.
Proof.
  intros Htol HA Haprs.
  assert (Hb : Forall (fun e => 0 <= snd e <= 100)
                 (calculateOptimalAllocations (riskTolerance cur)
                    (riskAdjustedReturns md) md)).
  { rewrite calculateOptimalAllocations_appended.
    apply appended_bounds; [|lra].
    intros n r. now apply rawAllocation_nonneg. }
  assert (Hsum : sumR (values (calculateOptimalAllocations
                    (riskTolerance cur) (riskAdjustedReturns md) md)) <= 100).
  { rewrite calculateOptimalAllocations_appended. apply appended_sum. lra. }
  simpl expectedAPR.
  set (result := calculateOptimalAllocations _ _ _) in *.
  rewrite calculateExpectedAPR_sum.
  assert (Hapr : forall n, 0 <= or_else (get n (protocolAPRs md)) 0 <= A).
  { intros n. destruct (get n (protocolAPRs md)) as [v|] eqn:E; simpl;
      [|lra].
    apply get_Some_in in E. apply (in_map snd) in E.
    rewrite Forall_forall in Haprs. exact (Haprs _ E). }
  clearbody result.
  assert (G : 0 <= sumR (map (fun e => snd e / 100
                 * or_else (get (fst e) (protocolAPRs md)) 0) result)
              <= A * (sumR (values result) / 100)).
  { clear Hsum. induction Hb as [|[n a] l Ha _ IH]; simpl; [lra|].
    simpl in Ha. specialize (Hapr n). nra. }
  split; [lra|]. nra.
Qed.

Lemma expectedAPR_witness :
  0 <= expectedAPR (optimizeAllocation None (defaultStrategy None moderate)
                                       md_etherfi) <= 12.
Proof.
  apply expectedAPR_within_snapshot_yields.
  - discriminate.
  - lra.
  - simpl. repeat constructor; lra.
Defined.

(** X8: for a snapshot without protocols the returned strategy has an
    empty allocation map and expected yield 0. *)
Theorem empty_snapshot_gives_empty_strategy env cur md :
  protocolAPRs md = [] ->
  targetAllocations (optimizeAllocation env cur md) = [] /\
  expectedAPR (optimizeAllocation env cur md) = 0.
Proof.
  intros H. unfold optimizeAllocation, riskAdjustedReturns. rewrite H.
  simpl. split; reflexivity.
Qed.

Lemma empty_snapshot_witness :
  targetAllocations (optimizeAllocation None (defaultStrategy None moderate)
                                        md_empty) = [] /\
  expectedAPR (optimizeAllocation None (defaultStrategy None moderate)
                                  md_empty) = 0.
Proof. apply empty_snapshot_gives_empty_strategy. reflexivity. Defined.

Lemma fold_left_Rplus_values (l : list R) : forall acc,
  fold_left Rplus l acc = acc + sumR l.
Proof.
  induction l as [|x l IH]; simpl; intros acc; [lra|]. rewrite IH. lra.
Qed.

(** X9: the risk score of the returned strategy is the mean of the
    snapshot's risk values whatever the allocations are: when the risk map
    is not empty and its values lie between [lo] and [hi], so does the
    score. *)
Theorem strategy_risk_is_mean_of_snapshot env cur md lo hi :
  protocolRisks md <> [] ->
  Forall (fun risk => lo <= risk <= hi) (values (protocolRisks md)) ->
  strategyRiskScore (optimizeAllocation env cur md)
  = sumR (values (protocolRisks md)) / INR (size (protocolRisks md)) /\
  lo <= strategyRiskScore (optimizeAllocation env cur md) <= hi.
Proof.
  intros Hne Hall. simpl. unfold Optimizer.calculateOverallRisk.
  rewrite fold_left_Rplus_values, Rplus_0_l.
  split; [reflexivity|].
  assert (Hn : 0 < INR (size (protocolRisks md))).
  { apply lt_0_INR. destruct (protocolRisks md); [contradiction|].
    simpl. lia. }
  assert (G : INR (size (protocolRisks md)) * lo
              <= sumR (values (protocolRisks md))
              <= INR (size (protocolRisks md)) * hi).
  { unfold size, values. clear Hne Hn.
    induction (protocolRisks md) as [|[n r] l IH]; [simpl; lra|].
    inversion Hall as [|? ? Hr Hall']; subst. specialize (IH Hall').
    change (List.length ((n, r) :: l)) with (S (List.length l)).
    rewrite S_INR. simpl in *. lra. }
  set (N := INR (size (protocolRisks md))) in *.
  set (S := sumR (values (protocolRisks md))) in *.
  split.
  - apply Rmult_le_reg_r with N; [exact Hn|].
    unfold Rdiv. rewrite Rmult_assoc, Rinv_l by lra. lra.
  - apply Rmult_le_reg_r with N; [exact Hn|].
    unfold Rdiv. rewrite Rmult_assoc, Rinv_l by lra. lra.
Qed.

Lemma strategy_risk_witness :
  strategyRiskScore
    (optimizeAllocation None (defaultStrategy None moderate) md_etherfi)
  = sumR (values (protocolRisks md_etherfi))
    / INR (size (protocolRisks md_etherfi)) /\
  0 <= strategyRiskScore
         (optimizeAllocation None (defaultStrategy None moderate) md_etherfi)
    <= 10.
Proof.
  apply strategy_risk_is_mean_of_snapshot.
  - discriminate.
  - simpl. repeat constructor; lra.
Defined.

(** ** Position store: percentages *)

Lemma updatePositionPercentages_map positions :
  getTotalPortfolioValue positions <> 0%Z ->
  updatePositionPercentages positions
  = map (fun entry =>
           (fst entry,
            withCurrentPercentage (snd entry)
              (Number (Z.quot (currentAmount (snd entry) * 10000)
                              (getTotalPortfolioValue positions)) / 100)))
        positions.
Proof.
  intros Hne. unfold updatePositionPercentages.
  destruct (Z.eqb_spec (getTotalPortfolioValue positions) 0);
    [contradiction|].
  apply map_ext. now intros [k p].
Qed.

(** X10: recomputing the percentages twice is the same as recomputing them
    once. *)
Theorem updatePositionPercentages_idempotent positions :
  updatePositionPercentages (updatePositionPercentages positions)
  = updatePositionPercentages positions.
Proof.
  destruct (Z.eq_dec (getTotalPortfolioValue positions) 0) as [Hz|Hnz].
  - unfold updatePositionPercentages at 2. rewrite Hz. simpl.
    unfold updatePositionPercentages. now rewrite Hz.
  - rewrite (updatePositionPercentages_map (updatePositionPercentages _))
      by (now rewrite updatePositionPercentages_total).
    rewrite updatePositionPercentages_total.
    rewrite (updatePositionPercentages_map positions) by assumption.
    rewrite map_map. apply map_ext. now intros [k p].
Qed.

Lemma sumZ_quot_bounds (T : Z) (l : list Z) :
  (0 < T)%Z -> Forall (fun a => (0 <= a)%Z) l ->
  (sumZ (map (fun a => Z.quot (a * 10000) T) l) * T
   <= sumZ l * 10000)%Z /\
  (sumZ l * 10000
   <= (sumZ (map (fun a => Z.quot (a * 10000) T) l)
       + Z.of_nat (List.length l)) * T)%Z.
Proof.
  intros HT. induction 1 as [|a l Ha _ IH].
  - simpl. lia.
  - destruct IH as (IH1 & IH2).
    change (List.length (a :: l)) with (S (List.length l)).
    rewrite Nat2Z.inj_succ.
    assert (Hq : Z.quot (a * 10000) T = (a * 10000 / T)%Z)
      by (apply Z.quot_div_nonneg; lia).
    pose proof (Z.mul_div_le (a * 10000) T HT) as Hlo.
    pose proof (Z.mul_succ_div_gt (a * 10000) T HT) as Hhi.
    simpl map. simpl sumZ. rewrite Hq. split; nia.
Qed.

Lemma sumR_hundredths {A} (f : A -> Z) (l : list A) :
  sumR (map (fun x => IZR (f x) / 100) l) = IZR (sumZ (map f l)) / 100.
Proof.
  induction l as [|x l IH]; simpl; [lra|]. rewrite plus_IZR, IH. lra.
Qed.

(** X11: when no position holds a negative amount and the total is
    positive, the recomputed percentages are hundredths of a percent
    rounded down: each lies between 0 and 100, and together they add up to
    at most 100 and to at least 100 minus one hundredth per position. *)
Theorem updatePositionPercentages_bounds positions :
  Forall (fun p => (0 <= currentAmount p)%Z) (values positions) ->
  (0 < getTotalPortfolioValue positions)%Z ->
  let percentages :=
    map currentPercentage (values (updatePositionPercentages positions)) in
  Forall (fun c => 0 <= c <= 100) percentages /\
  sumR percentages <= 100 /\
  100 - INR (size positions) / 100 <= sumR percentages.
Proof.
  intros Hnn Hpos percentages. subst percentages.
  set (T := getTotalPortfolioValue positions) in *.
  rewrite updatePositionPercentages_map by (fold T; lia). fold T.
  unfold values. rewrite !map_map. simpl.
  set (amounts := map (fun e => currentAmount (snd e)) positions).
  assert (HT : T = sumZ amounts)
    by (unfold T, amounts; apply getTotalPortfolioValue_sum).
  assert (Hnn' : Forall (fun a => (0 <= a)%Z) amounts).
  { unfold amounts. unfold values in Hnn. rewrite Forall_map in *.
    exact Hnn. }
  destruct (sumZ_quot_bounds T amounts Hpos Hnn') as (Hlo & Hhi).
  assert (Hlen : List.length amounts = size positions)
    by (unfold amounts, size; apply length_map).
  assert (Esum :
    sumR (map (fun x => Number (Z.quot (currentAmount (snd x) * 10000) T)
                        / 100) positions)
    = IZR (sumZ (map (fun a => Z.quot (a * 10000) T) amounts)) / 100).
  { unfold amounts, Number. rewrite map_map.
    apply (sumR_hundredths
             (fun x => Z.quot (currentAmount (snd x) * 10000) T)). }
  set (Q := sumZ (map (fun a => Z.quot (a * 10000) T) amounts)) in *.
  assert (HQ : (Q <= 10000)%Z) by nia.
  assert (HQ' : (10000 - Z.of_nat (size positions) <= Q)%Z).
  { rewrite <- Hlen. nia. }
  split; [|split].
  - apply Forall_forall. intros c Hc. apply in_map_iff in Hc.
    destruct Hc as ([k p] & <- & Hin). simpl. unfold Number.
    assert (Ha : (0 <= currentAmount p)%Z).
    { rewrite Forall_forall in Hnn. apply Hnn.
      apply (in_map snd) in Hin. exact Hin. }
    assert (Hin' : In (currentAmount p) amounts).
    { unfold amounts.
      apply (in_map (fun e => currentAmount (snd e))) in Hin. exact Hin. }
    assert (Hle : (currentAmount p <= T)%Z).
    { rewrite HT. clear - Hin' Hnn'.
      induction Hnn' as [|a l Ha0 Hl IH]; [contradiction|].
      pose proof (sumZ_positive_nonneg l) as Hs.
      assert (0 <= sumZ l)%Z.
      { clear - Hl. induction Hl; simpl; lia. }
      destruct Hin' as [->|Hin]; simpl; [lia|]. specialize (IH Hin). lia. }
    assert (Hq' : Z.quot (currentAmount p * 10000) T
                  = (currentAmount p * 10000 / T)%Z)
      by (apply Z.quot_div_nonneg; lia).
    rewrite Hq'.
    pose proof (Z.div_pos (currentAmount p * 10000) T ltac:(lia) Hpos).
    assert ((currentAmount p * 10000 / T <= 10000)%Z).
    { apply Z.div_le_upper_bound; [exact Hpos | nia]. }
    split.
    + apply Rmult_le_pos; [apply IZR_le; lia | lra].
    + apply IZR_le in H0. lra.
  - rewrite Esum. apply IZR_le in HQ. lra.
  - rewrite Esum. apply IZR_le in HQ'.
    rewrite minus_IZR, <- INR_IZR_INZ in HQ'. lra.
Qed.

Lemma updatePositionPercentages_bounds_witness :
  let percentages :=
    map currentPercentage
        (values (updatePositionPercentages positions_70_30)) in
  Forall (fun c => 0 <= c <= 100) percentages /\
  sumR percentages <= 100 /\
  100 - INR (size positions_70_30) / 100 <= sumR percentages.
Proof.
  apply updatePositionPercentages_bounds.
  - simpl. repeat constructor; simpl; lia.
  - reflexivity.
Defined.

(** ** Rebalance decision gate *)

Lemma calculateRebalanceNeed_sum this strategy :
  calculateRebalanceNeed this strategy
  = sumR (map (fun e =>
                 Rabs (snd e
                       - or_else (option_map currentPercentage
                                    (get (fst e) (positions this))) 0))
              (targetAllocations strategy)) / 100.
Proof.
  unfold calculateRebalanceNeed.
  assert (G : forall l acc,
    fold_left
      (fun totalDifference entry =>
         let '(protocol, targetPercentage) := entry in
         totalDifference
         + Rabs (targetPercentage
                 - or_else (option_map currentPercentage
                              (get protocol (positions this))) 0))
      l acc
    = acc + sumR (map (fun e =>
                 Rabs (snd e
                       - or_else (option_map currentPercentage
                                    (get (fst e) (positions this))) 0)) l)).
  { induction l as [|[p t] l IH]; simpl; intros acc; [lra|].
    rewrite IH. lra. }
  rewrite G. lra.
Qed.

(** X12: the rebalance need is never negative, and it is 0 exactly when
    every target of the candidate equals the current percentage of the
    protocol's position (0 for a protocol without position). *)
Theorem calculateRebalanceNeed_zero_iff this strategy :
  0 <= calculateRebalanceNeed this strategy /\
  (calculateRebalanceNeed this strategy = 0 <->
   forall p t,
     In (p, t) (targetAllocations strategy) ->
     or_else (option_map currentPercentage (get p (positions this))) 0 = t).
Proof.
  rewrite calculateRebalanceNeed_sum.
  set (d := fun e : string * R =>
              Rabs (snd e - or_else (option_map currentPercentage
                                       (get (fst e) (positions this))) 0)).
  assert (G : forall l,
    0 <= sumR (map d l) /\
    (sumR (map d l) = 0 <-> forall e, In e l -> d e = 0)).
  { induction l as [|e l (IH1 & IH2)]; simpl.
    - split; [lra|]. split; [intros _ e [] | reflexivity].
    - pose proof (Rabs_pos (snd e - or_else (option_map currentPercentage
                                       (get (fst e) (positions this))) 0)).
      fold (d e) in H. split; [lra|]. split.
      + intros Hs e' [<-|Hin]; [lra|]. apply IH2; [lra | exact Hin].
      + intros Hall. rewrite (Hall e) by now left.
        assert (sumR (map d l) = 0) by (apply IH2; intros; apply Hall; now right).
        lra. }
  destruct (G (targetAllocations strategy)) as (G1 & G2).
  split; [lra|]. split.
  - intros Hz p t Hin.
    assert (Hd : d (p, t) = 0) by (apply G2; [lra | exact Hin]).
    unfold d in Hd. simpl in Hd.
    assert (t - or_else (option_map currentPercentage
                           (get p (positions this))) 0 = 0).
    { destruct (Req_dec (t - or_else (option_map currentPercentage
                           (get p (positions this))) 0) 0) as [E|E];
        [exact E|]. apply Rabs_no_R0 in E. contradiction. }
    lra.
  - intros Hall.
    assert (sumR (map d (targetAllocations strategy)) = 0).
    { apply G2. intros [p t] Hin. unfold d. simpl.
      rewrite (Hall p t Hin), Rminus_diag. apply Rabs_R0. }
    lra.
Qed.

(** X13: the gate reads the rebalance threshold, the gas ceiling and the
    risk tolerance of the ACTIVE strategy: two candidates with the same
    targets and risk score get the same answer whatever else they carry,
    and no candidate is accepted while the live gas price is above the
    active strategy's ceiling. *)
Theorem shouldRebalance_uses_active_strategy_limits
        {W} (svc : Services W) this w :
  (forall c1 c2,
     targetAllocations c1 = targetAllocations c2 ->
     strategyRiskScore c1 = strategyRiskScore c2 ->
     shouldRebalance svc this c1 w = shouldRebalance svc this c2 w) /\
  (forall c,
     fst (getGasPrice svc w) > maxGasPrice (currentStrategy this) ->
     fst (shouldRebalance svc this c w) = false).
Proof.
  split.
  - intros c1 c2 Ht Hr.
    unfold shouldRebalance, calculateRebalanceNeed, checkRiskThresholds.
    now rewrite Ht, Hr.
  - intros c Hgas. unfold shouldRebalance, checkGasConditions.
    destruct (getGasPrice svc w) as [gas w']. simpl in *.
    unfold leb at 1. destruct (Rle_dec gas _); [lra|].
    now rewrite andb_false_r.
Qed.

(** ** Movement planner: the matching as a function *)

Lemma fill_zero fromP entries : fill fromP entries 0 = (entries, []).
Proof. destruct entries as [|[toP d] rest]; reflexivity. Qed.

Lemma fill_keys fromP : forall entries rem,
  incl (keys (fst (fill fromP entries rem))) (keys entries) /\
  (NoDup (keys entries) -> NoDup (keys (fst (fill fromP entries rem)))).
Proof.
  induction entries as [|[toP d] rest IH]; intros rem; simpl.
  - split; [apply incl_refl | auto].
  - destruct (rem =? 0)%Z; [split; [apply incl_refl | auto]|].
    set (mv := if (rem <? d)%Z then rem else d).
    destruct (IH (rem - mv)%Z) as [Hi Hn].
    destruct (fill fromP rest (rem - mv)) as [lo new]. simpl in *.
    destruct (d - mv =? 0)%Z; simpl.
    + split; [intros k Hk; right; apply Hi, Hk|].
      intros Hnd. inversion Hnd; subst. auto.
    + split; [intros k [<-|Hk]; [now left | right; apply Hi, Hk]|].
      intros Hnd. inversion Hnd as [|? ? Hnot Hnd']; subst.
      constructor; [intros Hk; apply Hnot, Hi, Hk | auto].
Qed.

Lemma matchDeficits_fill fromP : forall entries done rem moves,
  NoDup (keys (done ++ entries)) ->
  matchDeficits fromP entries rem (done ++ entries) moves
  = (done ++ fst (fill fromP entries rem),
     moves ++ snd (fill fromP entries rem)).
Proof.
  induction entries as [|[toP d] rest IH]; intros done rem moves Hnd.
  - simpl. now rewrite !app_nil_r.
  - assert (HtoP : ~ In toP (keys done)).
    { rewrite keys_app in Hnd. simpl in Hnd.
      apply NoDup_remove_2 in Hnd. rewrite in_app_iff in Hnd. tauto. }
    simpl. destruct (rem =? 0)%Z; [simpl; now rewrite app_nil_r|].
    set (mv := if (rem <? d)%Z then rem else d).
    rewrite set_middle, get_middle by assumption.
    destruct (Z.eqb_spec (d - mv) 0) as [E|E].
    + rewrite E. rewrite delete_middle by assumption.
      rewrite IH.
      * destruct (fill fromP rest (rem - mv)) as [lo new]. simpl.
        now rewrite <- app_assoc.
      * rewrite keys_app in *. simpl in Hnd.
        eapply NoDup_remove_1. exact Hnd.
    + assert (Ekeep :
        match (d - mv)%Z with
        | 0%Z => delete toP (done ++ (toP, (d - mv)%Z) :: rest)
        | _ => done ++ (toP, (d - mv)%Z) :: rest
        end = (done ++ [(toP, (d - mv)%Z)]) ++ rest).
      { rewrite <- app_assoc. simpl.
        destruct (d - mv)%Z; [contradiction | reflexivity | reflexivity]. }
      rewrite Ekeep, IH.
      * destruct (fill fromP rest (rem - mv)) as [lo new]. simpl.
        now rewrite <- !app_assoc.
      * rewrite <- app_assoc. simpl. rewrite keys_app in *. exact Hnd.
Qed.

Lemma matchSurpluses_fillAll : forall surpluses deficits moves,
  NoDup (keys deficits) ->
  fold_left
    (fun acc entry =>
       let '(deficits, movements) := acc in
       let '(fromProtocol, surplusAmount) := entry in
       matchDeficits fromProtocol deficits surplusAmount deficits movements)
    surpluses (deficits, moves)
  = (fst (fillAll surpluses deficits),
     moves ++ snd (fillAll surpluses deficits)).
Proof.
  induction surpluses as [|[fromP amt] rest IH]; intros deficits moves Hnd.
  - simpl. now rewrite app_nil_r.
  - simpl fold_left. simpl fillAll.
    pose proof (matchDeficits_fill fromP deficits [] amt moves Hnd) as E.
    simpl in E. rewrite E. clear E.
    destruct (fill_keys fromP deficits amt) as [_ Hn].
    destruct (fill fromP deficits amt) as [lo new]. simpl in Hn. simpl fst.
    simpl snd. rewrite IH by auto.
    destruct (fillAll rest lo) as [final more]. simpl.
    now rewrite app_assoc.
Qed.

(** The planner computes [fillAll] on the two maps of the classification. *)
Lemma calculateRequiredMovements_fillAll positions strategy totalValue :
  calculateRequiredMovements positions strategy totalValue
  = snd (fillAll
           (fst (classify positions (targetAllocations strategy) totalValue))
           (snd (classify positions (targetAllocations strategy) totalValue))).
Proof.
  unfold calculateRequiredMovements.
  destruct (classify_classified positions (targetAllocations strategy)
              totalValue) as (_ & N2 & _).
  destruct (classify positions (targetAllocations strategy) totalValue)
    as [su de]. simpl in *.
  unfold matchSurpluses. now rewrite matchSurpluses_fillAll.
Qed.

Lemma fill_facts fromP : forall entries rem,
  Forall positive (values entries) -> (0 <= rem)%Z ->
  Forall positive (values (fst (fill fromP entries rem))) /\
  (sumZ (map amount (snd (fill fromP entries rem))) <= rem)%Z /\
  Forall (fun m => from m = fromP /\ In (to m) (keys entries))
         (snd (fill fromP entries rem)).
Proof.
  induction entries as [|[toP d] rest IH]; intros rem Hpos Hrem; simpl.
  - repeat split; [constructor | lia | constructor].
  - inversion Hpos as [|? ? Hd Hpos']; subst. unfold positive in Hd.
    destruct (Z.eqb_spec rem 0) as [->|Hne]; simpl;
      [repeat split; [assumption | lia | constructor]|].
    set (mv := if (rem <? d)%Z then rem else d).
    assert (Hmv : (0 < mv <= rem /\ mv <= d)%Z)
      by (unfold mv; destruct (Z.ltb_spec rem d); lia).
    destruct (IH (rem - mv)%Z Hpos' ltac:(lia)) as (P & S & F).
    destruct (fill fromP rest (rem - mv)) as [lo new]. simpl in *.
    split; [|split].
    + destruct (Z.eqb_spec (d - mv) 0); [exact P|].
      simpl. constructor; [unfold positive; lia | exact P].
    + lia.
    + constructor; [simpl; split; [reflexivity | now left]|].
      eapply Forall_impl; [|exact F]. simpl. tauto.
Qed.

Lemma movedTo_none p ms :
  Forall (fun m => to m <> p) ms -> movedTo p ms = 0%Z.
Proof.
  unfold movedTo. induction 1 as [|m ms Hm _ IH]; simpl; [reflexivity|].
  destruct (String.eqb_spec (to m) p); [contradiction | exact IH].
Qed.

Lemma movedFrom_none p ms :
  Forall (fun m => from m <> p) ms -> movedFrom p ms = 0%Z.
Proof.
  unfold movedFrom. induction 1 as [|m ms Hm _ IH]; simpl; [reflexivity|].
  destruct (String.eqb_spec (from m) p); [contradiction | exact IH].
Qed.

Lemma movedFrom_all p ms :
  Forall (fun m => from m = p) ms -> movedFrom p ms = sumZ (map amount ms).
Proof.
  unfold movedFrom. induction 1 as [|m ms Hm _ IH]; simpl; [reflexivity|].
  rewrite Hm, String.eqb_refl. simpl. now rewrite IH.
Qed.

Lemma movedFrom_app p l1 l2 :
  movedFrom p (l1 ++ l2) = (movedFrom p l1 + movedFrom p l2)%Z.
Proof. unfold movedFrom. now rewrite filter_app, map_app, sumZ_app. Qed.

Lemma movedTo_app p l1 l2 :
  movedTo p (l1 ++ l2) = (movedTo p l1 + movedTo p l2)%Z.
Proof. unfold movedTo. now rewrite filter_app, map_app, sumZ_app. Qed.

Lemma valueAt_notin p (m : Map Z) : ~ In p (keys m) -> valueAt p m = 0%Z.
Proof.
  intros H. unfold valueAt. apply get_None_notin in H. now rewrite H.
Qed.

Lemma fill_facts_to fromP : forall entries rem,
  Forall (fun m => In (to m) (keys entries)) (snd (fill fromP entries rem)).
Proof.
  induction entries as [|[toP d] rest IH]; intros rem; simpl.
  - constructor.
  - destruct (rem =? 0)%Z; [constructor|].
    set (mv := if (rem <? d)%Z then rem else d).
    specialize (IH (rem - mv)%Z).
    destruct (fill fromP rest (rem - mv)) as [lo new]. simpl in *.
    constructor; [now left|].
    eapply Forall_impl; [|exact IH]. simpl. tauto.
Qed.

(** Accounting of one run of the inner loop, per destination. *)
Lemma fill_accounting fromP p : forall entries rem,
  NoDup (keys entries) ->
  (movedTo p (snd (fill fromP entries rem))
   + valueAt p (fst (fill fromP entries rem)))%Z
  = valueAt p entries.
Proof.
  induction entries as [|[toP d] rest IH]; intros rem Hnd; simpl.
  - reflexivity.
  - inversion Hnd as [|? ? Hnot Hnd']; subst.
    destruct (rem =? 0)%Z; [reflexivity|].
    set (mv := if (rem <? d)%Z then rem else d).
    specialize (IH (rem - mv)%Z Hnd').
    destruct (fill_keys fromP rest (rem - mv)) as [Hincl _].
    pose proof (fill_facts_to fromP rest (rem - mv)) as Hto.
    destruct (fill fromP rest (rem - mv)) as [lo new]. simpl in *.
    unfold movedTo, valueAt in *. simpl.
    destruct (String.eqb_spec toP p) as [->|Hne].
    + assert (Hnew : sumZ (map amount
                 (filter (fun m => String.eqb (to m) p) new)) = 0%Z).
      { apply (movedTo_none p). eapply Forall_impl; [|exact Hto].
        simpl. intros m Hin E. rewrite E in Hin. contradiction. }
      assert (Hleft : get p lo = None).
      { apply get_None_notin. intros Hk. apply Hnot, Hincl, Hk. }
      rewrite String.eqb_refl. simpl. rewrite Hnew.
      destruct (Z.eqb_spec (d - mv) 0); simpl.
      * rewrite Hleft. simpl. lia.
      * rewrite String.eqb_refl. simpl. lia.
    + destruct (String.eqb_spec p toP); [congruence|].
      destruct (Z.eqb_spec (d - mv) 0); simpl; [exact IH|].
      destruct (String.eqb_spec p toP); [congruence | exact IH].
Qed.

Lemma valueAt_cons p k v (m : list (string * Z)) :
  valueAt p ((k, v) :: m) = if String.eqb p k then v else valueAt p m.
Proof. unfold valueAt. simpl. now destruct (String.eqb p k). Qed.

(** Flows through the whole matching, per protocol. *)
Lemma fillAll_flows : forall surpluses deficits,
  NoDup (keys surpluses) -> NoDup (keys deficits) ->
  Forall positive (values surpluses) -> Forall positive (values deficits) ->
  Forall (fun m => In (from m) (keys surpluses))
         (snd (fillAll surpluses deficits)) /\
  (forall p, (movedFrom p (snd (fillAll surpluses deficits))
              <= valueAt p surpluses)%Z) /\
  (forall p, (movedTo p (snd (fillAll surpluses deficits))
              + valueAt p (fst (fillAll surpluses deficits)))%Z
             = valueAt p deficits).
Proof.
  induction surpluses as [|[fromP amt] rest IH];
    intros deficits Ns Nd Ps Pd.
  - simpl. split; [constructor|]. split; [|intros p; reflexivity].
    intros p. unfold movedFrom, valueAt. simpl. lia.
  - inversion Ns as [|? ? Hnot Ns']; subst.
    inversion Ps as [|? ? Hamt Ps']; subst. unfold positive in Hamt.
    destruct (fill_facts fromP deficits amt Pd ltac:(lia)) as (Plo & Hsum & Hnew).
    destruct (fill_keys fromP deficits amt) as [_ Nlo]. specialize (Nlo Nd).
    pose proof (fun p => fill_accounting fromP p deficits amt Nd) as Hacc.
    simpl fillAll.
    destruct (fill fromP deficits amt) as [lo new]. simpl in *.
    destruct (IH lo Ns' Nlo Ps' Plo) as (Hfrom & Hout & Hin).
    destruct (fillAll rest lo) as [final more]. simpl in *.
    assert (HnewFrom : Forall (fun m => from m = fromP) new)
      by (eapply Forall_impl; [|exact Hnew]; simpl; tauto).
    split; [|split].
    + apply Forall_app. split.
      * eapply Forall_impl; [|exact HnewFrom]. simpl. intros m ->. now left.
      * eapply Forall_impl; [|exact Hfrom]. simpl. intros m Hm. now right.
    + intros p. rewrite movedFrom_app, valueAt_cons.
      destruct (String.eqb_spec p fromP) as [->|Hne].
      * rewrite (movedFrom_all fromP new HnewFrom).
        rewrite (movedFrom_none fromP more); [lia|].
        eapply Forall_impl; [|exact Hfrom]. simpl.
        intros m Hm E. rewrite E in Hm. contradiction.
      * rewrite (movedFrom_none p new).
        -- specialize (Hout p). lia.
        -- eapply Forall_impl; [|exact HnewFrom]. simpl. congruence.
    + intros p. rewrite movedTo_app. specialize (Hacc p). specialize (Hin p).
      lia.
Qed.

(** X14: the planner never takes out of a protocol more than its surplus
    and never brings into a protocol more than its deficit. *)
Theorem movements_respect_surplus_and_deficit positions strategy totalValue p :
  let sd := classify positions (targetAllocations strategy) totalValue in
  let movements := calculateRequiredMovements positions strategy totalValue in
  (movedFrom p movements <= valueAt p (fst sd))%Z /\
  (movedTo p movements <= valueAt p (snd sd))%Z.
Proof.
  intros sd movements. subst movements.
  rewrite calculateRequiredMovements_fillAll. fold sd.
  destruct (classify_classified positions (targetAllocations strategy)
              totalValue) as (N1 & N2 & P1 & P2 & _).
  fold sd in N1, N2, P1, P2.
  destruct (fillAll_flows (fst sd) (snd sd) N1 N2 P1 P2) as (_ & Hout & Hin).
  specialize (Hout p). specialize (Hin p).
  assert (Hleft : (0 <= valueAt p (fst (fillAll (fst sd) (snd sd))))%Z).
  { assert (Hp : Forall positive
                   (values (fst (fillAll (fst sd) (snd sd))))).
    { clear - P1 P2. revert P2. generalize (snd sd).
      induction (fst sd) as [|[fromP amt] rest IH]; intros d Pd;
        [exact Pd|].
      inversion P1 as [|? ? Hamt P1']; subst. unfold positive in Hamt.
      destruct (fill_facts fromP d amt Pd ltac:(lia)) as (Plo & _ & _).
      simpl fillAll. destruct (fill fromP d amt) as [lo new]. simpl in Plo.
      specialize (IH P1' lo Plo).
      destruct (fillAll rest lo) as [final more]. exact IH. }
    unfold valueAt.
    destruct (get p (fst (fillAll (fst sd) (snd sd)))) as [v|] eqn:E;
      simpl; [|lia].
    apply get_Some_in in E. apply (in_map snd) in E.
    rewrite Forall_forall in Hp. specialize (Hp _ E).
    unfold positive in Hp. simpl in Hp. lia. }
  split; [exact Hout | lia].
Qed.

Lemma fill_count fromP : forall entries rem,
  (List.length (snd (fill fromP entries rem))
   + List.length (fst (fill fromP entries rem))
   <= List.length entries
      + match fst (fill fromP entries rem) with [] => 0 | _ => 1 end)%nat.
Proof.
  induction entries as [|[toP d] rest IH]; intros rem; simpl; [lia|].
  destruct (rem =? 0)%Z; [simpl; lia|].
  destruct (Z.ltb_spec rem d) as [Hlt|Hge].
  - replace (rem - rem)%Z with 0%Z by lia. rewrite fill_zero.
    destruct (Z.eqb_spec (d - rem) 0); [lia|]. simpl. lia.
  - replace (d - d)%Z with 0%Z by lia. simpl.
    specialize (IH (rem - d)%Z).
    destruct (fill fromP rest (rem - d)) as [lo new]. simpl in *. lia.
Qed.

Lemma fillAll_count : forall surpluses deficits,
  (List.length (snd (fillAll surpluses deficits))
   + List.length (fst (fillAll surpluses deficits))
   + match surpluses with
     | [] => 0
     | _ => match fst (fillAll surpluses deficits) with [] => 1 | _ => 0 end
     end
   <= List.length deficits + List.length surpluses)%nat.
Proof.
  induction surpluses as [|[fromP amt] rest IH]; intros deficits;
    [simpl; lia|].
  pose proof (fill_count fromP deficits amt) as Hc.
  simpl fillAll. destruct (fill fromP deficits amt) as [lo new].
  specialize (IH lo). simpl in Hc.
  destruct (fillAll rest lo) as [final more] eqn:E. simpl in *.
  rewrite length_app.
  destruct rest as [|r rest'].
  - simpl in E. injection E as <- <-. simpl in *. destruct lo; simpl in *; lia.
  - destruct final, lo; simpl in *; lia.
Qed.

(** X15: the planner emits fewer movements than there are surplus and
    deficit protocols together. *)
Theorem movement_count_bound positions strategy totalValue :
  let sd := classify positions (targetAllocations strategy) totalValue in
  (List.length (calculateRequiredMovements positions strategy totalValue)
   <= List.length (fst sd) + List.length (snd sd) - 1)%nat.
Proof.
  intros sd. rewrite calculateRequiredMovements_fillAll. fold sd.
  pose proof (fillAll_count (fst sd) (snd sd)) as H.
  destruct (fst sd) as [|s0 su]; [simpl; lia|].
  destruct (fst (fillAll (s0 :: su) (snd sd))); simpl in *; lia.
Qed.

Lemma sumZ_positive_zero l : Forall positive l -> sumZ l = 0%Z -> l = [].
Proof.
  intros H. destruct H as [|x l Hx Hl]; [reflexivity|].
  pose proof (sumZ_positive_nonneg l Hl). unfold positive in Hx.
  simpl. lia.
Qed.

(** X16: the planner emits no movement exactly when no protocol is over
    its target or no protocol is under its target. *)
Theorem no_movements_iff_nothing_to_match positions strategy totalValue :
  let sd := classify positions (targetAllocations strategy) totalValue in
  calculateRequiredMovements positions strategy totalValue = []
  <-> fst sd = [] \/ snd sd = [].
Proof.
  intros sd.
  destruct (calculateRequiredMovements_run positions strategy totalValue)
    as [Hsum Hall]. fold sd in Hsum, Hall.
  destruct (classify_classified positions (targetAllocations strategy)
              totalValue) as (_ & _ & P1 & P2 & _).
  fold sd in P1, P2.
  pose proof (sumZ_positive_nonneg _ P1) as H1.
  pose proof (sumZ_positive_nonneg _ P2) as H2.
  split.
  - intros E. rewrite E in Hsum. simpl in Hsum.
    assert (Hz : sumZ (values (fst sd)) = 0%Z \/ sumZ (values (snd sd)) = 0%Z)
      by lia.
    destruct Hz as [Hz|Hz]; [left | right];
      apply sumZ_positive_zero in Hz; try assumption;
      unfold values in Hz; now apply map_eq_nil in Hz.
  - intros Hempty.
    assert (Hz : sumZ (map amount
                   (calculateRequiredMovements positions strategy totalValue))
                 = 0%Z).
    { rewrite Hsum. destruct Hempty as [-> | ->]; simpl; lia. }
    apply sumZ_positive_zero in Hz; [now apply map_eq_nil in Hz|].
    rewrite Forall_map. eapply Forall_impl; [|exact Hall]. simpl. tauto.
Qed.

Lemma classify_disjoint positions targets totalValue :
  NoDup (keys targets) ->
  forall k,
    In k (keys (fst (classify positions targets totalValue))) ->
    In k (keys (snd (classify positions targets totalValue))) -> False.
Proof.
  unfold classify.
  assert (G : forall l acc,
    NoDup (keys l) ->
    (forall k, In k (keys (fst acc)) \/ In k (keys (snd acc)) ->
               ~ In k (keys l)) ->
    (forall k, In k (keys (fst acc)) -> In k (keys (snd acc)) -> False) ->
    forall k,
      In k (keys (fst (fold_left
         (fun acc entry =>
            let '(surpluses, deficits) := acc in
            let '(protocol, targetPercentage) := entry in
            match get protocol positions with
            | None => (surpluses, deficits)
            | Some position =>
                let targetAmount :=
                  Z.quot (totalValue * Math_round (targetPercentage * 100))
                         10000 in
                let difference := (targetAmount - currentAmount position)%Z in
                if (0 <? difference)%Z then
                  (surpluses, set protocol difference deficits)
                else if (difference <? 0)%Z then
                  (set protocol (- difference)%Z surpluses, deficits)
                else (surpluses, deficits)
            end) l acc))) ->
      In k (keys (snd (fold_left
         (fun acc entry =>
            let '(surpluses, deficits) := acc in
            let '(protocol, targetPercentage) := entry in
            match get protocol positions with
            | None => (surpluses, deficits)
            | Some position =>
                let targetAmount :=
                  Z.quot (totalValue * Math_round (targetPercentage * 100))
                         10000 in
                let difference := (targetAmount - currentAmount position)%Z in
                if (0 <? difference)%Z then
                  (surpluses, set protocol difference deficits)
                else if (difference <? 0)%Z then
                  (set protocol (- difference)%Z surpluses, deficits)
                else (surpluses, deficits)
            end) l acc))) -> False).
  { induction l as [|[p t] l IH]; intros [su de] Hnd Hfresh Hdis;
      [exact Hdis|].
    inversion Hnd as [|? ? Hp Hnd']; subst.
    simpl fold_left. simpl in Hfresh, Hdis.
    assert (Hpsu : ~ In p (keys su))
      by (intros H; apply (Hfresh p); [now left | now left]).
    assert (Hpde : ~ In p (keys de))
      by (intros H; apply (Hfresh p); [now right | now left]).
    assert (Hrest : forall k, In k (keys su) \/ In k (keys de) ->
                              ~ In k (keys l))
      by (intros k Hk Hin; apply (Hfresh k Hk); now right).
    destruct (get p positions) as [pos|]; [|apply IH; auto].
    cbv zeta.
    destruct (0 <? _)%Z.
    - apply IH; [assumption | |]; simpl.
      + intros k [Hk|Hk]; [apply Hrest; now left|].
        apply in_keys_set in Hk. destruct Hk as [->|Hk];
          [exact Hp | apply Hrest; now right].
      + intros k Hs Hd. apply in_keys_set in Hd.
        destruct Hd as [->|Hd]; [contradiction | eauto].
    - destruct (_ <? 0)%Z; [|apply IH; auto].
      apply IH; [assumption | |]; simpl.
      + intros k [Hk|Hk]; [|apply Hrest; now right].
        apply in_keys_set in Hk. destruct Hk as [->|Hk];
          [exact Hp | apply Hrest; now left].
      + intros k Hs Hd. apply in_keys_set in Hs.
        destruct Hs as [->|Hs]; [contradiction | eauto]. }
  intros Hnd. apply G; [exact Hnd | simpl; tauto | simpl; tauto].
Qed.

(** X17: when the target map names each protocol once, every planned
    movement runs between two different protocols. *)
Theorem movement_source_differs_from_destination
        positions strategy totalValue :
  NoDup (keys (targetAllocations strategy)) ->
  Forall (fun m => from m <> to m)
         (calculateRequiredMovements positions strategy totalValue).
Proof.
  intros Hnd.
  destruct (calculateRequiredMovements_run positions strategy totalValue)
    as [_ Hall].
  eapply Forall_impl; [|exact Hall]. simpl.
  intros m (_ & Hf & Ht) E. rewrite E in Hf.
  exact (classify_disjoint _ _ _ Hnd _ Hf Ht).
Qed.

Lemma movement_source_differs_witness :
  Forall (fun m => from m <> to m)
         (calculateRequiredMovements positions_70_30 strategy_40_60 100).
Proof.
  apply movement_source_differs_from_destination.
  simpl. repeat constructor; simpl; intuition discriminate.
Defined.

(** ** Rebalance executor: what a whole rebalance does *)

Lemma deref_seq (Q : Movement -> RebalanceTransaction -> Prop) objs :
  forall mvs n,
    (forall i mv, nth_error mvs i = Some mv ->
       exists t, nth_error objs (n + i) = Some t /\ Q mv t) ->
    Forall2 Q mvs (deref objs (seq n (List.length mvs))).
Proof.
  induction mvs as [|mv mvs IH]; intros n H; simpl; [constructor|].
  destruct (H 0%nat mv eq_refl) as (t & Ht & HQ).
  rewrite Nat.add_0_r in Ht. unfold deref in *. simpl. rewrite Ht. simpl.
  constructor; [exact HQ|]. apply IH.
  intros i mv' Hi. destruct (H (S i) mv' Hi) as (t' & Ht' & HQ').
  exists t'. split; [|exact HQ']. now rewrite Nat.add_succ_comm.
Qed.

(** X18: a rebalance always returns normally, with one transaction per
    planned movement, in the order of the plan, each describing its
    movement and ending as completed or failed; and it installs the new
    strategy whatever the outcomes. *)
Theorem executeRebalance_returns_one_transaction_per_movement
        {W} (svc : Services W) newStrategy this w :
  exists txs,
    resultOf (executeRebalance svc newStrategy this w) = inl txs /\
    Forall2 (fun mv t =>
               fromProtocol t = from mv /\ toProtocol t = to mv /\
               txAmount t = amount mv /\ terminal (status t))
            (calculateRequiredMovements (positions this) newStrategy
               (getTotalPortfolioValue (positions this)))
            txs /\
    currentStrategy (stateAfter (executeRebalance svc newStrategy this w))
    = newStrategy.
Proof.
  set (movements := calculateRequiredMovements (positions this) newStrategy
                      (getTotalPortfolioValue (positions this))).
  destruct (executeMovements_run svc movements [] this w)
    as (this1 & w' & evs & E & _ & _ & _ & Each).
  assert (ER : executeRebalance svc newStrategy this w
               = (inl (deref (txObjects this1)
                         (seq (List.length (txObjects this))
                              (List.length movements))),
                  withCurrentStrategy newStrategy this1, w', evs)).
  { unfold executeRebalance, bind. fold movements. simpl in E. rewrite E.
    now rewrite app_nil_r. }
  rewrite ER. eexists. split; [reflexivity|]. split; [|reflexivity].
  apply deref_seq. intros i mv Hmv.
  destruct (Each i mv Hmv) as (t & trace & Gt & Hf & Ht & Ha & _ & MT).
  exists t. split; [exact Gt|].
  split; [exact Hf|]. split; [exact Ht|]. split; [exact Ha|].
  destruct MT; unfold terminal; tauto.
Qed.

Lemma keys_map_values {V} (f : string * V -> V) (m : Map V) :
  keys (map (fun e => (fst e, f e)) m) = keys m.
Proof. unfold keys. rewrite map_map. reflexivity. Qed.

Lemma updatePositionPercentages_keys positions :
  keys (updatePositionPercentages positions) = keys positions.
Proof.
  unfold updatePositionPercentages.
  destruct (getTotalPortfolioValue positions =? 0)%Z; [reflexivity|].
  unfold keys. rewrite map_map. apply map_ext. now intros [k p].
Qed.

Lemma updatePositionAmounts_keeps fromP toP amt positions :
  get fromP positions <> None -> get toP positions <> None ->
  keys (updatePositionAmounts fromP toP amt positions) = keys positions /\
  getTotalPortfolioValue (updatePositionAmounts fromP toP amt positions)
  = getTotalPortfolioValue positions.
Proof.
  intros Hf Ht. unfold updatePositionAmounts.
  destruct (get fromP positions) as [pf|] eqn:Ef; [|contradiction].
  set (m1 := set fromP _ positions).
  assert (K1 : keys m1 = keys positions).
  { apply keys_set_present. eapply in_keys. apply get_Some_in. exact Ef. }
  assert (Ht1 : In toP (keys m1)).
  { rewrite K1. destruct (get toP positions) as [pt|] eqn:Et;
      [|contradiction]. eapply in_keys. apply get_Some_in. exact Et. }
  destruct (get toP m1) as [pt1|] eqn:Et1;
    [|apply get_None_notin in Et1; contradiction].
  rewrite updatePositionPercentages_keys, updatePositionPercentages_total.
  split.
  - rewrite keys_set_present by assumption. exact K1.
  - rewrite (total_set _ _ _ _ Et1). unfold m1.
    rewrite (total_set _ _ _ _ Ef). simpl.
    assert (currentAmount pt1
            = if String.eqb toP fromP then (currentAmount pf - amt)%Z
              else currentAmount pt1).
    { destruct (String.eqb_spec toP fromP) as [->|Hne]; [|reflexivity].
      unfold m1 in Et1. rewrite get_set_same in Et1.
      now injection Et1 as <-. }
    lia.
Qed.

(** What one movement does to the rest of the object. *)
Lemma executeMovement_store {W} (svc : Services W) mv ref this w :
  let this' := stateAfter (executeMovement svc mv ref this w) in
  currentStrategy this' = currentStrategy this /\
  pendingTransactions this' = pendingTransactions this /\
  (positions this' = positions this \/
   positions this'
   = updatePositionAmounts (from mv) (to mv) (amount mv) (positions this)
   /\ isFalsy (fst (executeUnstake svc (from mv) (amount mv) w)) = false).
Proof.
  unfold stateAfter, executeMovement, tryCatch, bind, setStatus, unstake,
    wait, stake, throw, setTxHash, modifyPositions.
  destruct (executeUnstake svc (from mv) (amount mv) w) as [r1 w1].
  destruct r1 as [h1|]; simpl; [|tauto].
  destruct (String.eqb h1 "") eqn:Eh1; simpl; [tauto|].
  destruct (waitForTransaction svc h1 w1) as [ok1 w2].
  destruct ok1; simpl; [|tauto].
  destruct (executeStake svc (to mv) (amount mv) w2) as [r2 w3].
  destruct r2 as [h2|]; simpl; [|tauto].
  destruct (String.eqb h2 ""); simpl; [tauto|].
  destruct (waitForTransaction svc h2 w3) as [ok2 w4].
  destruct ok2; simpl; tauto.
Qed.

Lemma size_set_bounds {V} k (v : V) (m : Map V) :
  (size m <= size (set k v m) <= S (size m))%nat.
Proof.
  unfold size. induction m as [|[k' v'] m IH]; simpl; [lia|].
  destruct (String.eqb k k'); simpl; lia.
Qed.

(** The loop, seen from the position store and the map of transactions. *)
Lemma executeMovements_store {W} (svc : Services W) mvs :
  forall acc this w,
    Forall (fun mv => get (from mv) (positions this) <> None
                      /\ get (to mv) (positions this) <> None) mvs ->
    exists this',
      stateAfter (executeMovements svc mvs acc this w) = this' /\
      keys (positions this') = keys (positions this) /\
      getTotalPortfolioValue (positions this')
      = getTotalPortfolioValue (positions this) /\
      currentStrategy this' = currentStrategy this /\
      (size (pendingTransactions this) <= size (pendingTransactions this')
       <= size (pendingTransactions this) + List.length mvs)%nat.
Proof.
  induction mvs as [|mv rest IH]; intros acc this w Hall.
  - exists this. simpl.
    split; [reflexivity|]. split; [reflexivity|]. split; [reflexivity|].
    split; [reflexivity|]. lia.
  - inversion Hall as [|? ? [Hf Ht] Hrest]; subst.
    unfold stateAfter. simpl executeMovements.
    unfold bind at 1. unfold newTransaction.
    destruct (newTxId svc w) as [txId w0].
    destruct (getGasPrice svc w0) as [gas w1].
    set (this0 := withPending _ _).
    pose proof (executeMovement_store svc mv
                  (List.length (txObjects this)) this0 w1) as Hst.
    unfold stateAfter in Hst.
    unfold bind.
    destruct (executeMovement svc mv (List.length (txObjects this)) this0 w1)
      as [[[r1 this1] w2] ev1] eqn:E1.
    simpl in Hst. destruct Hst as (Hcs & Hpend & Hpos).
    assert (Hkeep : keys (positions this1) = keys (positions this)
                    /\ getTotalPortfolioValue (positions this1)
                       = getTotalPortfolioValue (positions this)).
    { destruct Hpos as [-> | [-> _]]; [now split|].
      unfold this0. simpl. now apply updatePositionAmounts_keeps. }
    destruct Hkeep as [Hk Htot].
    assert (Hpsz : (size (pendingTransactions this)
                    <= size (pendingTransactions this1)
                    <= S (size (pendingTransactions this)))%nat).
    { rewrite Hpend. unfold this0. simpl. apply size_set_bounds. }
    assert (Hcs' : currentStrategy this1 = currentStrategy this)
      by (rewrite Hcs; reflexivity).
    destruct r1 as [u|err].
    + assert (Hrest' : Forall (fun mv => get (from mv) (positions this1) <> None
                          /\ get (to mv) (positions this1) <> None) rest).
      { eapply Forall_impl; [|exact Hrest]. simpl.
        intros m [H1 H2].
        split; intros Hn; apply get_None_notin in Hn; rewrite Hk in Hn;
          [apply H1 | apply H2]; now apply get_None_notin. }
      destruct (IH (acc ++ [List.length (txObjects this)]) this1 w2 Hrest')
        as (this2 & E2 & I1 & I2 & I3 & I4).
      unfold stateAfter in E2.
      destruct (executeMovements svc rest
                  (acc ++ [List.length (txObjects this)]) this1 w2)
        as [[[r2 this2'] w3] ev2].
      simpl in E2. subst this2'. exists this2. simpl.
      split; [reflexivity|]. split; [congruence|]. split; [congruence|].
      split; [congruence|]. lia.
    + exists this1. simpl.
      split; [reflexivity|]. split; [exact Hk|]. split; [exact Htot|].
      split; [exact Hcs'|]. lia.
Qed.

(** X19: a rebalance leaves the set of positions and the total portfolio
    value as they were, whatever the blockchain service answers: amounts
    only move between positions. *)
Theorem executeRebalance_preserves_total_value
        {W} (svc : Services W) newStrategy this w :
  let this' := stateAfter (executeRebalance svc newStrategy this w) in
  keys (positions this') = keys (positions this) /\
  getTotalPortfolioValue (positions this')
  = getTotalPortfolioValue (positions this).
Proof.
  set (movements := calculateRequiredMovements (positions this) newStrategy
                      (getTotalPortfolioValue (positions this))).
  assert (Hall : Forall (fun mv => get (from mv) (positions this) <> None
                         /\ get (to mv) (positions this) <> None) movements).
  { unfold movements.
    destruct (calculateRequiredMovements_run (positions this) newStrategy
                (getTotalPortfolioValue (positions this))) as [_ Hall].
    destruct (classify_classified (positions this)
                (targetAllocations newStrategy)
                (getTotalPortfolioValue (positions this)))
      as (_ & _ & _ & _ & K).
    eapply Forall_impl; [|exact Hall]. simpl.
    intros m (_ & Hf & Ht). split; apply K; [now left | now right]. }
  destruct (executeMovements_store svc movements [] this w Hall)
    as (this1' & E & H1 & H2 & _).
  unfold stateAfter in *.
  unfold executeRebalance, bind. fold movements.
  destruct (executeMovements svc movements [] this w)
    as [[[r this1] w1] ev1].
  simpl in E. subst this1'.
  destruct r; simpl; split; assumption.
Qed.

(** X20: the number of entries of [pendingTransactions], which
    [getPerformanceMetrics] reports as the rebalance count, never
    decreases in a rebalance and grows by at most the number of planned
    movements. *)
Theorem rebalanceCount_grows_with_movements
        {W} (svc : Services W) newStrategy this w range :
  let this' := stateAfter (executeRebalance svc newStrategy this w) in
  (rebalanceCount (getPerformanceMetrics this range)
   <= rebalanceCount (getPerformanceMetrics this' range)
   <= rebalanceCount (getPerformanceMetrics this range)
      + List.length (calculateRequiredMovements (positions this) newStrategy
                       (getTotalPortfolioValue (positions this))))%nat.
Proof.
  set (movements := calculateRequiredMovements (positions this) newStrategy
                      (getTotalPortfolioValue (positions this))).
  assert (Hall : Forall (fun mv => get (from mv) (positions this) <> None
                         /\ get (to mv) (positions this) <> None) movements).
  { unfold movements.
    destruct (calculateRequiredMovements_run (positions this) newStrategy
                (getTotalPortfolioValue (positions this))) as [_ Hall].
    destruct (classify_classified (positions this)
                (targetAllocations newStrategy)
                (getTotalPortfolioValue (positions this)))
      as (_ & _ & _ & _ & K).
    eapply Forall_impl; [|exact Hall]. simpl.
    intros m (_ & Hf & Ht). split; apply K; [now left | now right]. }
  destruct (executeMovements_store svc movements [] this w Hall)
    as (this1' & E & _ & _ & _ & H4).
  unfold stateAfter in *.
  unfold executeRebalance, bind. fold movements.
  destruct (executeMovements svc movements [] this w)
    as [[[r this1] w1] ev1].
  simpl in E. subst this1'.
  destruct r; simpl; exact H4.
Qed.

(** The loop when every withdrawal is refused. *)
Lemma executeMovements_all_refused {W} (svc : Services W) mvs :
  (forall p a w, isFalsy (fst (executeUnstake svc p a w)) = true) ->
  forall acc this w,
    positions (stateAfter (executeMovements svc mvs acc this w))
    = positions this.
Proof.
  intros Href. induction mvs as [|mv rest IH]; intros acc this w;
    [reflexivity|].
  unfold stateAfter. simpl executeMovements.
  unfold bind at 1. unfold newTransaction.
  destruct (newTxId svc w) as [txId w0].
  destruct (getGasPrice svc w0) as [gas w1].
  set (this0 := withPending _ _).
  pose proof (executeMovement_store svc mv
                (List.length (txObjects this)) this0 w1) as Hst.
  unfold stateAfter in Hst. unfold bind.
  destruct (executeMovement svc mv (List.length (txObjects this)) this0 w1)
    as [[[r1 this1] w2] ev1].
  simpl in Hst. destruct Hst as (_ & _ & Hpos).
  assert (Hsame : positions this1 = positions this).
  { destruct Hpos as [-> | [_ Hacc]]; [reflexivity|].
    rewrite Href in Hacc. discriminate. }
  destruct r1 as [u|err]; [|exact Hsame].
  specialize (IH (acc ++ [List.length (txObjects this)]) this1 w2).
  unfold stateAfter in IH.
  destruct (executeMovements svc rest
              (acc ++ [List.length (txObjects this)]) this1 w2)
    as [[[r2 this2] w3] ev2].
  simpl in *. congruence.
Qed.

(** X21: when the service refuses every withdrawal, a rebalance changes no
    position at all, and still replaces the active strategy by the new
    one. *)
Theorem refused_rebalance_changes_strategy_only
        {W} (svc : Services W) newStrategy this w :
  (forall p a w, isFalsy (fst (executeUnstake svc p a w)) = true) ->
  let this' := stateAfter (executeRebalance svc newStrategy this w) in
  positions this' = positions this /\ currentStrategy this' = newStrategy.
Proof.
  intros Href.
  set (movements := calculateRequiredMovements (positions this) newStrategy
                      (getTotalPortfolioValue (positions this))).
  pose proof (executeMovements_all_refused svc movements Href [] this w) as H.
  destruct (executeMovements_run svc movements [] this w)
    as (this1 & w' & evs & E & _).
  unfold stateAfter in *. unfold executeRebalance, bind. fold movements.
  rewrite E in *. simpl in *. split; [exact H | reflexivity].
Qed.

Lemma refused_rebalance_witness :
  positions (stateAfter (executeRebalance allRefusing strategy_40_60
                                          onTarget tt))
  = positions onTarget /\
  currentStrategy (stateAfter (executeRebalance allRefusing strategy_40_60
                                                onTarget tt))
  = strategy_40_60.
Proof.
  apply (refused_rebalance_changes_strategy_only allRefusing).
  reflexivity.
Defined.

(** ** Risk analyzer: ranges of the scores *)

(** X22: the risk of a protocol is capped at 10, and it is not negative
    for a protocol with a non-negative base score, a non-negative
    withdrawal delay and an efficiency of at most 100. *)
Theorem calculateProtocolRisk_range (p : StakingProtocol) :
  0 <= riskScore p -> 0 <= withdrawalDelay p -> gasEfficiency p <= 100 ->
  0 <= calculateProtocolRisk p <= 10.
Proof.
  intros H1 H2 H3. unfold calculateProtocolRisk, Rmin.
  destruct Rle_dec; lra.
Qed.

Lemma calculateProtocolRisk_range_witness :
  0 <= calculateProtocolRisk lidoProtocol <= 10.
Proof.
  apply calculateProtocolRisk_range; simpl; lra.
Defined.

Lemma calculateProtocolRisk_le_10 p : calculateProtocolRisk p <= 10.
Proof. unfold calculateProtocolRisk. apply Rmin_r. Qed.

Lemma weighted_average_bounds {A} (a c : A -> R) (T lo hi : R) (l : list A) :
  0 < T ->
  Forall (fun x => 0 <= a x /\ lo <= c x <= hi) l ->
  lo * (sumR (map a l) / T) <= sumR (map (fun x => c x * (a x / T)) l)
  <= hi * (sumR (map a l) / T).
Proof.
  intros HT. assert (Hi : 0 < / T) by now apply Rinv_0_lt_compat.
  unfold Rdiv. set (iT := / T) in *.
  induction 1 as [|x l [Ha Hc] _ IH]; simpl; [lra|].
  assert (0 <= a x * iT) by (apply Rmult_le_pos; lra).
  split; nra.
Qed.

Lemma staked_nonneg_sum ps :
  Forall (fun p => (0 <= totalStaked p)%Z) ps ->
  0 <= totalTVL ps /\
  Forall (fun p => 0 <= IZR (totalStaked p)) ps.
Proof.
  intros H. rewrite totalTVL_sum. induction H as [|p ps Hp _ [IH1 IH2]]; simpl.
  - split; [lra | constructor].
  - apply IZR_le in Hp. split; [lra | constructor; assumption].
Qed.

(** X23: for protocols with non-negative stakes and non-negative
    withdrawal delays the liquidity risk lies between 0 and 10; when no
    delay exceeds [D] hours it is at most [D / 3]. *)
Theorem calculateLiquidityRisk_range ps D :
  Forall (fun p => (0 <= totalStaked p)%Z) ps ->
  Forall (fun p => 0 <= withdrawalDelay p <= D) ps ->
  0 <= calculateLiquidityRisk ps <= 10 /\
  calculateLiquidityRisk ps <= Rmax 0 (D / 3).
Proof.
  intros Hst Hd. unfold calculateLiquidityRisk.
  fold (totalTVL ps).
  destruct (staked_nonneg_sum ps Hst) as [HT Hnn].
  destruct (Req_dec_T (totalTVL ps) 0) as [E|E].
  - split; [lra|]. apply Rmax_l.
  - rewrite (fold_left_Rplus
               (fun p => withdrawalDelay p * (Number (totalStaked p)
                                              / totalTVL ps))).
    unfold Number.
    assert (HTpos : 0 < totalTVL ps) by lra.
    assert (Hall : Forall (fun p => 0 <= IZR (totalStaked p)
                            /\ 0 <= withdrawalDelay p <= D) ps).
    { rewrite Forall_forall in *. intros p Hp. split; auto. }
    pose proof (weighted_average_bounds
                  (fun p => IZR (totalStaked p)) withdrawalDelay
                  (totalTVL ps) 0 D ps HTpos Hall) as [Hlo Hhi].
    rewrite <- totalTVL_sum in Hlo, Hhi.
    replace (totalTVL ps / totalTVL ps) with 1 in Hlo, Hhi by (field; lra).
    set (wd := sumR _) in *.
    unfold Rmin, Rmax. repeat destruct Rle_dec; split; lra.
Qed.

Lemma calculateLiquidityRisk_range_witness :
  0 <= calculateLiquidityRisk twoEqualProtocols <= 10 /\
  calculateLiquidityRisk twoEqualProtocols <= Rmax 0 (7 / 3).
Proof.
  apply calculateLiquidityRisk_range.
  - repeat constructor; simpl; lia.
  - repeat constructor; simpl; lra.
Defined.

Lemma contractRisk_range n : 1 <= contractRisk n <= 3.
Proof.
  unfold contractRisk.
  destruct (String.eqb n "lido"); [lra|].
  destruct (String.eqb n "rocketpool"); [lra|].
  destruct (String.eqb n "etherfi"); [lra|].
  destruct (String.eqb n "morpho"); lra.
Qed.

Lemma calculateSmartContractRisk_le_3 ps :
  Forall (fun p => (0 <= totalStaked p)%Z) ps ->
  0 <= calculateSmartContractRisk ps <= 3 /\
  (totalTVL ps <> 0 -> 1 <= calculateSmartContractRisk ps).
Proof.
  intros Hst. unfold calculateSmartContractRisk. fold (totalTVL ps).
  destruct (staked_nonneg_sum ps Hst) as [HT Hnn].
  destruct (Req_dec_T (totalTVL ps) 0) as [E|E];
    [split; [lra | contradiction]|].
  rewrite (fold_left_Rplus
             (fun p => contractRisk (name p) * (Number (totalStaked p)
                                                / totalTVL ps))).
  unfold Number.
  assert (HTpos : 0 < totalTVL ps) by lra.
  assert (Hall : Forall (fun p => 0 <= IZR (totalStaked p)
                          /\ 1 <= contractRisk (name p) <= 3) ps).
  { rewrite Forall_forall in *. intros p Hp.
    split; [auto | apply contractRisk_range]. }
  pose proof (weighted_average_bounds
                (fun p => IZR (totalStaked p))
                (fun p => contractRisk (name p))
                (totalTVL ps) 1 3 ps HTpos Hall) as [Hlo Hhi].
  rewrite <- totalTVL_sum in Hlo, Hhi.
  replace (totalTVL ps / totalTVL ps) with 1 in Hlo, Hhi by (field; lra).
  split; [lra|]. intros _. lra.
Qed.

(** X24: for protocols with non-negative stakes the smart-contract risk is
    0 when nothing is staked and lies between 1 and 3 otherwise; it never
    comes near the level 6 above which a warning would be issued. *)
Theorem calculateSmartContractRisk_range ps :
  Forall (fun p => (0 <= totalStaked p)%Z) ps ->
  (totalTVL ps = 0 -> calculateSmartContractRisk ps = 0) /\
  (totalTVL ps <> 0 -> 1 <= calculateSmartContractRisk ps <= 3).
Proof.
  intros Hst. destruct (calculateSmartContractRisk_le_3 ps Hst) as [H1 H2].
  split.
  - intros E. unfold calculateSmartContractRisk. fold (totalTVL ps).
    destruct (Req_dec_T (totalTVL ps) 0); [reflexivity | contradiction].
  - intros E. specialize (H2 E). lra.
Qed.

Lemma calculateSmartContractRisk_range_witness :
  (totalTVL twoEqualProtocols = 0 ->
   calculateSmartContractRisk twoEqualProtocols = 0) /\
  (totalTVL twoEqualProtocols <> 0 ->
   1 <= calculateSmartContractRisk twoEqualProtocols <= 3).
Proof.
  apply calculateSmartContractRisk_range.
  repeat constructor; simpl; lia.
Defined.

Lemma sum_squares_le (l : list R) :
  Forall (fun x => 0 <= x) l ->
  0 <= sumR l /\ 0 <= sumR (map (fun x => x * x) l) <= sumR l * sumR l.
Proof.
  induction 1 as [|x l Hx _ (IH1 & IH2)]; simpl; [lra|].
  split; [lra|]. split; nra.
Qed.

Lemma sumR_map_div {A} (f : A -> R) (T : R) (l : list A) :
  sumR (map (fun x => f x / T) l) = sumR (map f l) / T.
Proof. induction l as [|x l IH]; simpl; [lra|]. rewrite IH. lra. Qed.

Lemma HHI_range ps :
  Forall (fun p => (0 <= totalStaked p)%Z) ps ->
  totalTVL ps <> 0 ->
  0 <= HHI ps <= 1.
Proof.
  intros Hst E. destruct (staked_nonneg_sum ps Hst) as [HT Hnn].
  unfold HHI, shares. rewrite <- totalTVL_sum.
  assert (HTpos : 0 < totalTVL ps) by lra.
  assert (Hsh : Forall (fun x => 0 <= x)
                  (map (fun p => IZR (totalStaked p) / totalTVL ps) ps)).
  { rewrite Forall_map. eapply Forall_impl; [|exact Hnn]. simpl.
    intros p Hp. apply Rmult_le_pos; [exact Hp|].
    left. now apply Rinv_0_lt_compat. }
  destruct (sum_squares_le _ Hsh) as (_ & Hlo & Hhi).
  assert (Hone : sumR (map (fun p => IZR (totalStaked p) / totalTVL ps) ps)
                 = 1).
  { rewrite (sumR_map_div (fun p => IZR (totalStaked p))).
    rewrite <- totalTVL_sum. field. exact E. }
  rewrite Hone in Hhi. lra.
Qed.

(** X25: for protocols with non-negative stakes the concentration risk
    lies between 0 and 10. *)
Theorem calculateConcentrationRisk_range ps :
  Forall (fun p => (0 <= totalStaked p)%Z) ps ->
  0 <= calculateConcentrationRisk ps <= 10.
Proof.
  intros Hst.
  destruct (Req_dec (totalTVL ps) 0) as [E|E].
  - unfold calculateConcentrationRisk.
    destruct (Req_dec_T (totalTVL ps) 0); [lra | contradiction].
  - rewrite calculateConcentrationRisk_HHI by assumption.
    pose proof (HHI_range ps Hst E). lra.
Qed.

Lemma calculateConcentrationRisk_range_witness :
  0 <= calculateConcentrationRisk twoEqualProtocols <= 10.
Proof.
  apply calculateConcentrationRisk_range.
  repeat constructor; simpl; lia.
Defined.

(** ** Risk analyzer: the assessment as a whole *)

Lemma assess_fold ps : forall (m : Map R) acc,
  snd (fold_left
         (fun acc protocol =>
            let '(protocolRisks, totalRisk) := acc in
            let risk := calculateProtocolRisk protocol in
            (set (name protocol) risk protocolRisks, totalRisk + risk))
         ps (m, acc))
  = acc + sumR (map calculateProtocolRisk ps).
Proof.
  induction ps as [|p ps IH]; intros m acc; simpl; [lra|].
  rewrite IH. lra.
Qed.

(** X26: for a non-empty list of protocols with non-negative stakes the
    overall risk of the assessment is at most 8.6, its concentration risk
    lies between 0 and 10, its liquidity risk is at most 10 and its
    smart-contract risk lies between 0 and 3. *)
Theorem assessPortfolioRisk_bounds toFixed1 toString ps :
  ps <> [] ->
  Forall (fun p => (0 <= totalStaked p)%Z) ps ->
  let assessment := assessPortfolioRisk toFixed1 toString ps in
  overallRisk assessment <= 8.6 /\
  0 <= concentrationRisk assessment <= 10 /\
  liquidityRisk assessment <= 10 /\
  0 <= smartContractRisk assessment <= 3.
Proof.
  intros Hne Hst assessment. subst assessment. unfold assessPortfolioRisk.
  match goal with
  | |- context [fold_left ?f ps ([], 0)] =>
      assert (Hfold : snd (fold_left f ps ([], 0))
                      = 0 + sumR (map calculateProtocolRisk ps))
        by apply assess_fold;
      destruct (fold_left f ps ([], 0)) as [risks total]
  end.
  simpl in Hfold. subst total. simpl.
  assert (Hc : 0 <= calculateConcentrationRisk ps <= 10).
  { destruct (Req_dec (totalTVL ps) 0) as [E|E].
    - unfold calculateConcentrationRisk.
      destruct (Req_dec_T (totalTVL ps) 0); [lra | contradiction].
    - rewrite calculateConcentrationRisk_HHI by assumption.
      pose proof (HHI_range ps Hst E). lra. }
  destruct (calculateSmartContractRisk_le_3 ps Hst) as [Hs _].
  assert (Hl : calculateLiquidityRisk ps <= 10).
  { unfold calculateLiquidityRisk. destruct Req_dec_T; [lra | apply Rmin_r]. }
  assert (Hn : 0 < INR (List.length ps)).
  { apply lt_0_INR. destruct ps; [contradiction | simpl; lia]. }
  assert (Hsum : sumR (map calculateProtocolRisk ps)
                 <= INR (List.length ps) * 10).
  { clear. induction ps as [|p ps IH]; [simpl; lra|].
    change (List.length (p :: ps)) with (S (List.length ps)).
    rewrite S_INR. simpl. pose proof (calculateProtocolRisk_le_10 p). lra. }
  assert (Havg : (0 + sumR (map calculateProtocolRisk ps))
                 / INR (List.length ps) <= 10).
  { apply Rmult_le_reg_r with (INR (List.length ps)); [exact Hn|].
    unfold Rdiv. rewrite Rmult_assoc, Rinv_l by lra. lra. }
  unfold Analyzer.calculateOverallRisk.
  split; [lra|]. split; [exact Hc|]. split; [exact Hl | exact Hs].
Qed.

Lemma assessPortfolioRisk_bounds_witness :
  let assessment :=
    assessPortfolioRisk (fun _ => "") (fun _ => "") twoEqualProtocols in
  overallRisk assessment <= 8.6 /\
  0 <= concentrationRisk assessment <= 10 /\
  liquidityRisk assessment <= 10 /\
  0 <= smartContractRisk assessment <= 3.
Proof.
  apply assessPortfolioRisk_bounds.
  - discriminate.
  - repeat constructor; simpl; lia.
Defined.

Lemma append_nonempty (a b : string) : b <> "" -> (a ++ b)%string <> "".
Proof. destruct a; simpl; [auto | discriminate]. Qed.

Lemma lastChar_append (a b : string) :
  b <> "" -> lastChar (a ++ b) = lastChar b.
Proof.
  intros Hb. induction a as [|c a IH]; simpl; [reflexivity|].
  destruct (a ++ b)%string eqn:E.
  - exfalso. exact (append_nonempty a b Hb E).
  - exact IH.
Qed.

Lemma allocation_message_is_not_the_warning (n x y : string) :
  (n ++ " allocation (" ++ x ++ "%) exceeds recommended maximum ("
     ++ y ++ "%)")%string <> smartContractWarning.
Proof.
  intros H. apply (f_equal lastChar) in H.
  assert (N1 : (y ++ "%)")%string <> "")
    by (apply append_nonempty; discriminate).
  assert (N2 : ("%) exceeds recommended maximum (" ++ y ++ "%)")%string <> "")
    by discriminate.
  assert (N3 : (x ++ "%) exceeds recommended maximum (" ++ y ++ "%)")%string
               <> "") by (apply append_nonempty; exact N2).
  assert (N4 : (" allocation (" ++ x ++ "%) exceeds recommended maximum ("
                  ++ y ++ "%)")%string <> "") by discriminate.
  rewrite (lastChar_append n) in H by exact N4.
  rewrite (lastChar_append " allocation (") in H by exact N3.
  rewrite (lastChar_append x) in H by exact N2.
  rewrite (lastChar_append "%) exceeds recommended maximum (") in H
    by exact N1.
  rewrite (lastChar_append y) in H by discriminate.
  discriminate H.
Qed.

Lemma generateRecommendations_without_warning
      toFixed1 toString overall concentration liquidity smartContract ps :
  smartContract <= 6 ->
  ~ In smartContractWarning
       (generateRecommendations toFixed1 toString overall concentration
                                liquidity smartContract ps).
Proof.
  intros Hsc.
  assert (Egt : gtb smartContract 6 = false).
  { unfold gtb. destruct Rgt_dec; [lra | reflexivity]. }
  set (P := fun r : string => r <> smartContractWarning).
  enough (Forall P (generateRecommendations toFixed1 toString overall
                      concentration liquidity smartContract ps)) as HF.
  { intros Hin. rewrite Forall_forall in HF. exact (HF _ Hin eq_refl). }
  unfold generateRecommendations. rewrite Egt.
  assert (Hfold : forall total recs,
    Forall P recs ->
    Forall P
      (fold_left
         (fun recommendations protocol =>
            if gtb (Number (totalStaked protocol) / total)
                   (maxAllocation protocol / 100)
            then
              recommendations
                ++ [(name protocol ++ " allocation ("
                       ++ toFixed1 (Number (totalStaked protocol) / total * 100)
                       ++ "%) exceeds recommended maximum ("
                       ++ toString (maxAllocation protocol) ++ "%)")%string]
            else recommendations) ps recs)).
  { intros total. induction ps as [|p ps IH]; intros recs Hrecs;
      [exact Hrecs|].
    simpl. apply IH.
    destruct (gtb (Number (totalStaked p) / total) (maxAllocation p / 100));
      [|exact Hrecs].
    apply Forall_app. split; [exact Hrecs|].
    constructor; [|constructor].
    apply allocation_message_is_not_the_warning. }
  assert (Hbase : Forall P
    (let recommendations :=
       if gtb overall 7
       then ["High risk detected - consider reducing position sizes"]
       else if gtb overall 5
            then ["Moderate risk - monitor positions closely"]
            else if ltb overall 2
                 then ["Very low risk - consider taking on more yield opportunities"]
                 else [] in
     let recommendations :=
       if gtb concentration 6
       then recommendations
              ++ ["Portfolio too concentrated - diversify across more protocols"]
       else recommendations in
     let recommendations :=
       if gtb liquidity 5
       then recommendations
              ++ ["High liquidity risk - increase allocation to protocols with shorter withdrawal delays"]
       else recommendations in
     let highRiskProtocols :=
       filter (fun p => gtb (calculateProtocolRisk p) 7) ps in
     if Nat.ltb 0 (List.length highRiskProtocols)
     then recommendations
            ++ [("Consider reducing exposure to high-risk protocols: "
                   ++ join (map name highRiskProtocols))%string]
     else recommendations)).
  { cbv zeta.
    destruct (gtb overall 7), (gtb overall 5), (ltb overall 2),
      (gtb concentration 6), (gtb liquidity 5),
      (Nat.ltb 0 (List.length (filter (fun p => gtb (calculateProtocolRisk p) 7)
                                      ps)));
      simpl; repeat constructor; unfold P, smartContractWarning;
      discriminate. }
  cbv zeta in *.
  match goal with
  | |- context [gtb ?t 0] => destruct (gtb t 0)
  end; [apply Hfold|]; exact Hbase.
Qed.

(** X27: for protocols with non-negative stakes the assessment never
    recommends a reduction of smart-contract exposure: the smart-contract
    risk stays at or below 3, and the warning needs more than 6. *)
Theorem assessment_never_warns_about_smart_contracts toFixed1 toString ps :
  Forall (fun p => (0 <= totalStaked p)%Z) ps ->
  ~ In smartContractWarning
       (recommendations (assessPortfolioRisk toFixed1 toString ps)).
Proof.
  intros Hst. unfold assessPortfolioRisk.
  match goal with
  | |- context [fold_left ?f ps ([], 0)] =>
      destruct (fold_left f ps ([], 0)) as [risks total]
  end.
  simpl.
  apply generateRecommendations_without_warning.
  destruct (calculateSmartContractRisk_le_3 ps Hst) as [Hs _]. lra.
Qed.

Lemma assessment_never_warns_witness :
  ~ In smartContractWarning
       (recommendations
          (assessPortfolioRisk (fun _ => "") (fun _ => "") twoEqualProtocols)).
Proof.
  apply assessment_never_warns_about_smart_contracts.
  repeat constructor; simpl; lia.
Defined.

(** ** Risk analyzer: value at risk *)

(** X28: the value at risk is proportional to the portfolio value and to
    the square root of the time horizon (a horizon [k * k] times longer
    gives [k] times the value), and a confidence level other than 0.99 and
    0.9 is treated like 0.95. *)
Theorem calculateVaR_scaling :
  (forall a v t c, calculateVaR (a * v) t c = a * calculateVaR v t c) /\
  (forall k v t c,
     0 <= k -> 0 <= t ->
     calculateVaR v (Some (k * k * t)) c = k * calculateVaR v (Some t) c) /\
  (forall v t c,
     c <> 0.99 -> c <> 0.9 ->
     calculateVaR v t (Some c) = calculateVaR v t (Some 0.95)).
Proof.
  unfold calculateVaR. split; [|split].
  - intros. lra.
  - intros k v t c Hk Ht. simpl.
    rewrite sqrt_mult by nra. rewrite sqrt_square by exact Hk. lra.
  - intros v t c H1 H2. simpl.
    destruct (Req_dec_T c 0.95); destruct (Req_dec_T c 0.99);
      destruct (Req_dec_T c 0.9); destruct (Req_dec_T 0.95 0.95);
      try lra; try contradiction.
Qed.

(** ** Initialisation and metrics *)

Lemma createPositions_entries {W}
      (getData : string -> W -> option ProtocolData * W)
      (data : string -> option ProtocolData) strategy :
  (forall n w, getData n w = (data n, w)) ->
  forall protocols acc w,
    NoDup (map name protocols) ->
    (forall p, In p protocols -> ~ In (name p) (keys acc)) ->
    createPositions getData strategy protocols acc w
    = (acc ++ flat_map (fun p => match data (name p) with
                                 | Some d => [(name p, newPosition strategy p d)]
                                 | None => []
                                 end) protocols, w).
Proof.
  intros Hdata. induction protocols as [|p rest IH]; intros acc w Hnd Hfresh.
  - simpl. now rewrite app_nil_r.
  - simpl. rewrite Hdata.
    inversion Hnd as [|? ? Hp Hnd']; subst.
    destruct (data (name p)) as [d|].
    + rewrite IH; [| exact Hnd' |].
      * rewrite set_fresh by (apply Hfresh; now left).
        unfold newPosition. now rewrite <- app_assoc.
      * intros q Hq. rewrite keys_set.
        destruct (in_dec string_dec (name p) (keys acc)) as [Hin|Hnin].
        -- apply Hfresh. now right.
        -- rewrite in_app_iff. simpl. intros [H|[H|[]]].
           ++ revert H. apply Hfresh. now right.
           ++ apply Hp. rewrite H. now apply in_map.
    + apply IH; [exact Hnd'|]. intros q Hq. apply Hfresh. now right.
Qed.

(** X29: when the chain's answers do not depend on the moment of the
    query, the protocols have distinct names and the store is empty,
    [initializePositions] creates a position for exactly the protocols the
    chain knows, in their order; each holds the amount staked on chain and
    the target percentage of the active strategy (0 when it has none). *)
Theorem initializePositions_follows_chain_data {W}
        (getData : string -> W -> option ProtocolData * W)
        (data : string -> option ProtocolData) protocols this w :
  (forall n w, getData n w = (data n, w)) ->
  NoDup (map name protocols) ->
  positions this = [] ->
  let this' := fst (initializePositions getData protocols this w) in
  keys (positions this') = map name (filter (known data) protocols) /\
  forall p d,
    In p protocols -> data (name p) = Some d ->
    exists pos,
      get (name p) (positions this') = Some pos /\
      currentAmount pos = dataTotalStaked d /\
      targetPercentage pos
      = or_else (get (name p) (targetAllocations (currentStrategy this))) 0 /\
      protocol pos = merge p d.
Proof.
  intros Hdata Hnd Hempty this'. subst this'. unfold initializePositions.
  rewrite Hempty.
  rewrite (createPositions_entries getData data (currentStrategy this) Hdata
             protocols [] w Hnd) by (intros p _ []).
  simpl.
  set (created := flat_map _ protocols).
  assert (Hkeys : keys created = map name (filter (known data) protocols)).
  { unfold created, known. clear.
    induction protocols as [|p rest IH]; simpl; [reflexivity|].
    destruct (data (name p)); simpl; [now rewrite <- IH | exact IH]. }
  assert (Hndk : NoDup (keys created)).
  { rewrite Hkeys. clear - Hnd.
    induction protocols as [|p rest IH]; simpl; [constructor|].
    inversion Hnd as [|? ? Hp Hnd']; subst.
    destruct (known data p); simpl; [|auto].
    constructor; [|auto].
    intros Hin. apply Hp. apply in_map_iff in Hin.
    destruct Hin as (q & Hq & Hin). apply filter_In in Hin.
    rewrite <- Hq. apply in_map. tauto. }
  split; [now rewrite updatePositionPercentages_keys|].
  intros p d Hp Hd.
  assert (Hin : In (name p, newPosition (currentStrategy this) p d) created).
  { unfold created. apply in_flat_map. exists p. split; [exact Hp|].
    rewrite Hd. now left. }
  apply (in_get _ _ _ Hndk) in Hin.
  destruct (updatePositionPercentages_get (name p) created)
    as (f & Hf & Hget).
  rewrite Hin in Hget. simpl in Hget.
  exists (f (newPosition (currentStrategy this) p d)).
  split; [exact Hget|].
  destruct (Hf (newPosition (currentStrategy this) p d)) as [Ha Hu].
  unfold untouchedFields in Hu. injection Hu as H1 _ H3 _ _.
  split; [exact Ha|]. split; [exact H3 | exact H1].
Qed.

Lemma initializePositions_witness :
  let this' :=
    fst (initializePositions (fun n (w : unit) => (onlyLido n, w))
                             getAvailableProtocols fresh tt) in
  keys (positions this')
  = map name (filter (known onlyLido) getAvailableProtocols) /\
  forall p d,
    In p getAvailableProtocols -> onlyLido (name p) = Some d ->
    exists pos,
      get (name p) (positions this') = Some pos /\
      currentAmount pos = dataTotalStaked d /\
      targetPercentage pos
      = or_else (get (name p) (targetAllocations (currentStrategy fresh))) 0 /\
      protocol pos = merge p d.
Proof.
  apply (initializePositions_follows_chain_data
           (fun n (w : unit) => (onlyLido n, w)) onlyLido).
  - reflexivity.
  - simpl. repeat constructor; simpl; intuition discriminate.
  - reflexivity.
Defined.

Lemma calculateCurrentAPR_sum this :
  calculateCurrentAPR this
  = sumR (map (fun p => currentPercentage p * currentAPR (protocol p) / 100)
              (values (positions this))).
Proof.
  unfold calculateCurrentAPR.
  rewrite (fold_left_Rplus
             (fun p => currentPercentage p * currentAPR (protocol p) / 100)).
  lra.
Qed.

(** X30: when the current percentages are not negative and add up to at
    most 100, and every held protocol yields between 0 and [A], the
    current yield reported by [getPerformanceMetrics] lies between 0 and
    [A]; the reported total value is the sum of the current amounts. *)
Theorem getPerformanceMetrics_current_yield_bounds this range A :
  0 <= A ->
  Forall (fun p => 0 <= currentPercentage p
                   /\ 0 <= currentAPR (protocol p) <= A)
         (values (positions this)) ->
  sumR (map currentPercentage (values (positions this))) <= 100 ->
  0 <= metricsCurrentAPR (getPerformanceMetrics this range) <= A /\
  totalValue (getPerformanceMetrics this range)
  = sumZ (map currentAmount (values (positions this))).
Proof.
  intros HA Hall Hsum. simpl. split.
  - rewrite calculateCurrentAPR_sum.
    assert (G : 0 <= sumR (map (fun p => currentPercentage p
                                  * currentAPR (protocol p) / 100)
                               (values (positions this)))
                <= A * (sumR (map currentPercentage
                                  (values (positions this))) / 100)).
    { clear Hsum. induction Hall as [|p l (Hp & Ha) _ IH]; simpl; [lra|].
      split; nra. }
    split; [lra | nra].
  - rewrite getTotalPortfolioValue_sum. unfold values. now rewrite map_map.
Qed.

Lemma getPerformanceMetrics_witness :
  0 <= metricsCurrentAPR (getPerformanceMetrics onTarget None) <= 10 /\
  totalValue (getPerformanceMetrics onTarget None)
  = sumZ (map currentAmount (values (positions onTarget))).
Proof.
  apply getPerformanceMetrics_current_yield_bounds.
  - lra.
  - simpl. repeat constructor; simpl; lra.
  - simpl. lra.
Defined.
